(** * Share-link codec of the video annotation app

    A shallow embedding of the share-link code of [App.tsx]
    ([handleShare], [handleSharePlaylist] and the mount effect that loads
    the [?d=] and [?p=] query parameters), together with the properties of
    the codec that the specification states.

    Conventions.
    - A JavaScript string is a [string]; its [length] is [String.length].
    - A [Uint8Array] is a [list byte].
    - A run-time JavaScript value is a [value]: the static TypeScript types
      are erased, and what [JSON.parse] returns is not checked against them.
    - [pako], [JSON] and the number conversions of the host are fields of a
      [Runtime] record; [btoa] and [atob] are written out. *)

From Stdlib Require Import Bool Arith NArith ZArith QArith Qround Lia List Sorted.
From Stdlib Require Import Ascii String DecimalString.
From Stdlib.Strings Require Import Byte.
Import ListNotations.

Local Open Scope string_scope.
Local Open Scope list_scope.

(* ================================================================== *)
(** * Base64: [btoa], [atob] and the URL-safe remap *)
(* ================================================================== *)

Module Base64.

Local Open Scope char_scope.
Local Open Scope N_scope.

Definition alphabet : list ascii :=
  list_ascii_of_string
    "ABCDEFGHIJKLMNOPQRSTUVWXYZabcdefghijklmnopqrstuvwxyz0123456789+/".

Definition pad_char : ascii := "=".

(** The symbol of a 6-bit group. *)
Definition symbol (n : N) : ascii := nth (N.to_nat n) alphabet pad_char.

Fixpoint index_from (i : N) (c : ascii) (l : list ascii) : option N :=
  match l with
  | [] => None
  | x :: r => if Ascii.eqb c x then Some i else index_from (N.succ i) c r
  end.

(** The 6-bit group of a symbol; [None] outside the alphabet. *)
Definition sextet (c : ascii) : option N := index_from 0 c alphabet.

Definition in_alphabet (c : ascii) : bool :=
  match sextet c with Some _ => true | None => false end.

(** [btoa] on the characters of a binary string: three bytes give four
    symbols, a rest of one or two bytes is padded with [=]. *)
Fixpoint encode (l : list ascii) : list ascii :=
  match l with
  | [] => []
  | [a] =>
      let x := N_of_ascii a in
      [symbol (x / 4); symbol ((x mod 4) * 16); pad_char; pad_char]
  | [a; b] =>
      let x := N_of_ascii a in
      let y := N_of_ascii b in
      [symbol (x / 4); symbol ((x mod 4) * 16 + y / 16);
       symbol ((y mod 16) * 4); pad_char]
  | a :: b :: c :: rest =>
      let x := N_of_ascii a in
      let y := N_of_ascii b in
      let z := N_of_ascii c in
      symbol (x / 4) :: symbol ((x mod 4) * 16 + y / 16)
        :: symbol ((y mod 16) * 4 + z / 64) :: symbol (z mod 64)
        :: encode rest
  end.

(** The 6-bit groups and the padding that [encode] emits, apart:
    [encode l = map symbol (groups l) ++ padding l]. *)
Fixpoint groups (l : list ascii) : list N :=
  match l with
  | [] => []
  | [a] =>
      let x := N_of_ascii a in
      [x / 4; (x mod 4) * 16]
  | [a; b] =>
      let x := N_of_ascii a in
      let y := N_of_ascii b in
      [x / 4; (x mod 4) * 16 + y / 16; (y mod 16) * 4]
  | a :: b :: c :: rest =>
      let x := N_of_ascii a in
      let y := N_of_ascii b in
      let z := N_of_ascii c in
      x / 4 :: (x mod 4) * 16 + y / 16 :: (y mod 16) * 4 + z / 64
        :: z mod 64 :: groups rest
  end.

Fixpoint padding (l : list ascii) : list ascii :=
  match l with
  | [] => []
  | [_] => [pad_char; pad_char]
  | [_; _] => [pad_char]
  | _ :: _ :: _ :: rest => padding rest
  end.

Definition btoa (binaryStr : string) : string :=
  string_of_list_ascii (encode (list_ascii_of_string binaryStr)).

(** [atob] is the forgiving-base64 decode of the HTML standard: ASCII
    whitespace is dropped, one or two trailing [=] are dropped when the
    length is a multiple of four, a length of 1 modulo 4 or a character
    outside the alphabet is an [InvalidCharacterError] ([None]). *)
Definition is_ascii_whitespace (c : ascii) : bool :=
  let n := N_of_ascii c in
  (n =? 9) || (n =? 10) || (n =? 12) || (n =? 13) || (n =? 32).

Definition is_pad (c : ascii) : bool := Ascii.eqb c pad_char.

Definition strip_padding (l : list ascii) : list ascii :=
  if (N.of_nat (List.length l) mod 4 =? 0) then
    match rev l with
    | p :: q :: r =>
        if is_pad p then (if is_pad q then rev r else rev (q :: r)) else l
    | [p] => if is_pad p then [] else l
    | [] => l
    end
  else l.

Fixpoint sextets (l : list ascii) : option (list N) :=
  match l with
  | [] => Some []
  | c :: r =>
      match sextet c, sextets r with
      | Some n, Some ns => Some (n :: ns)
      | _, _ => None
      end
  end.

Fixpoint decode_groups (l : list N) : list ascii :=
  match l with
  | s0 :: s1 :: s2 :: s3 :: rest =>
      ascii_of_N (s0 * 4 + s1 / 16)
        :: ascii_of_N ((s1 mod 16) * 16 + s2 / 4)
        :: ascii_of_N ((s2 mod 4) * 64 + s3)
        :: decode_groups rest
  | [s0; s1; s2] =>
      [ascii_of_N (s0 * 4 + s1 / 16); ascii_of_N ((s1 mod 16) * 16 + s2 / 4)]
  | [s0; s1] => [ascii_of_N (s0 * 4 + s1 / 16)]
  | _ => []
  end.

Definition decode (l : list ascii) : option (list ascii) :=
  let data := strip_padding (filter (fun c => negb (is_ascii_whitespace c)) l) in
  if (N.of_nat (List.length data) mod 4 =? 1) then None
  else option_map decode_groups (sextets data).

Definition atob (data : string) : option string :=
  option_map string_of_list_ascii (decode (list_ascii_of_string data)).

(** [s.replace(/x/g, 'y')] for a one-character pattern. *)
Definition replace_char (x y : ascii) (l : list ascii) : list ascii :=
  map (fun c => if Ascii.eqb c x then y else c) l.

(** [s.replace(/=+$/, '')]: the run of [=] that ends the string goes. *)
Fixpoint strip_trailing_pad (l : list ascii) : list ascii :=
  match l with
  | [] => []
  | c :: r =>
      match strip_trailing_pad r with
      | [] => if is_pad c then [] else [c]
      | r' => c :: r'
      end
  end.

(** [base64.replace(/\+/g, '-').replace(/\//g, '_').replace(/=+$/, '')] *)
Definition urlSafe_chars (l : list ascii) : list ascii :=
  strip_trailing_pad (replace_char "/" "_" (replace_char "+" "-" l)).

Definition toUrlSafe (base64 : string) : string :=
  string_of_list_ascii (urlSafe_chars (list_ascii_of_string base64)).

(** [data.replace(/-/g, '+').replace(/_/g, '/')], then
    [base64 + '='.repeat((4 - base64.length % 4) % 4)] *)
Definition fromUrlSafe_chars (l : list ascii) : list ascii :=
  let base64 := replace_char "_" "/" (replace_char "-" "+" l) in
  base64 ++ repeat pad_char (((4 - List.length base64 mod 4) mod 4)%nat).

Definition fromUrlSafe (data : string) : string :=
  string_of_list_ascii (fromUrlSafe_chars (list_ascii_of_string data)).

(** What the two [replace] calls of each direction do to one character. *)
Definition to_url (c : ascii) : ascii :=
  let c1 := if Ascii.eqb c "+" then "-"%char else c in
  if Ascii.eqb c1 "/" then "_"%char else c1.

Definition from_url (c : ascii) : ascii :=
  let c1 := if Ascii.eqb c "-" then "+"%char else c in
  if Ascii.eqb c1 "_" then "/"%char else c1.

End Base64.

(* ================================================================== *)
(** * JavaScript values *)
(* ================================================================== *)

Module JS.

(** A JavaScript number. Finite ones are rationals (the sign of zero is
    not modelled). *)
Inductive number : Type :=
| Finite (q : Q)
| Infinite (negative : bool)
| NaN.

#[local] Unset Elimination Schemes.
Inductive value : Type :=
| VUndefined
| VNull
| VBool (b : bool)
| VNum (n : number)
| VStr (s : string)
| VArr (elems : list value)
| VObj (members : list (string * value)).
#[local] Set Elimination Schemes.

Inductive JsError : Type :=
| TypeError
| InvalidCharacterError   (* atob *)
| InflateError            (* pako.inflate *)
| SyntaxError             (* JSON.parse *)
| NotAllowedError.        (* navigator.clipboard.writeText *)

(** An expression either yields a value or throws. *)
Inductive completion (A : Type) : Type :=
| Return (a : A)
| Throw (e : JsError).
Arguments Return {A} a.
Arguments Throw {A} e.

Definition cbind {A B} (c : completion A) (k : A -> completion B)
  : completion B :=
  match c with
  | Return a => k a
  | Throw e => Throw e
  end.

Definition of_option {A} (e : JsError) (o : option A) : completion A :=
  match o with
  | Some a => Return a
  | None => Throw e
  end.

Definition of_nat (n : nat) : value := VNum (Finite (inject_Z (Z.of_nat n))).

(** ToBoolean *)
Definition truthy (v : value) : bool :=
  match v with
  | VUndefined | VNull => false
  | VBool b => b
  | VNum (Finite q) => negb (Qeq_bool q 0)
  | VNum (Infinite _) => true
  | VNum NaN => false
  | VStr s => negb (String.eqb s "")
  | VArr _ | VObj _ => true
  end.

(** [a || b] *)
Definition or (a b : value) : value := if truthy a then a else b.

Fixpoint lookup (k : string) (m : list (string * value)) : value :=
  match m with
  | [] => VUndefined
  | (k', v) :: r => if String.eqb k k' then v else lookup k r
  end.

Definition has_key (k : string) (m : list (string * value)) : bool :=
  existsb (fun kv => String.eqb k (fst kv)) m.

(** [o.k] for the keys the sharing code reads ([g], [a], [t], [n], [d],
    [l], [v], [u], [f], [i], [lp], [sr], [rt], [as] and [length]): none is
    an array index, and of the inherited properties only [length] is among
    them. A method such as [map] is called through [call_map]. The members
    of an object hold one entry for a key. *)
Definition get (o : value) (k : string) : completion value :=
  match o with
  | VUndefined | VNull => Throw TypeError
  | VObj m => Return (lookup k m)
  | VArr l => Return (if String.eqb k "length" then of_nat (List.length l)
                      else VUndefined)
  | VStr s => Return (if String.eqb k "length" then of_nat (String.length s)
                      else VUndefined)
  | VBool _ | VNum _ => Return VUndefined
  end.

Fixpoint mapi_from {A} (f : value -> nat -> completion A) (idx : nat)
  (l : list value) : completion (list A) :=
  match l with
  | [] => Return []
  | x :: r =>
      cbind (f x idx) (fun y =>
      cbind (mapi_from f (S idx) r) (fun ys => Return (y :: ys)))
  end.

(** [o.map((x, idx) => f x idx)]: only an array has a callable [map]; on
    [undefined] and [null] the property access throws, on any other value
    (a JSON object may hold a member called [map], never a function) the
    call throws. *)
Definition call_map {A} (o : value) (f : value -> nat -> completion A)
  : completion (list A) :=
  match o with
  | VArr l => mapi_from f 0 l
  | _ => Throw TypeError
  end.

Definition string_of_nat (n : nat) : string :=
  NilEmpty.string_of_uint (Nat.to_uint n).

Definition string_of_Z (z : Z) : string :=
  NilZero.string_of_int (Z.to_int z).

(** What the host supplies: the [pako] library, [JSON], and the number
    conversions of the language. [None] stands for a thrown exception. *)
Record Runtime : Type := {
  pako_deflate : string -> list byte;
  pako_inflate : list byte -> option string;      (* { to: 'string' } *)
  JSON_stringify : value -> string;
  JSON_parse : string -> option value;
  Number_toString : number -> string;
  StringToNumber : string -> number
}.

Section Conversions.

Variable rt : Runtime.

(** ToString, as a template literal applies it. *)
Fixpoint ToString (v : value) : string :=
  match v with
  | VUndefined => "undefined"
  | VNull => "null"
  | VBool true => "true"
  | VBool false => "false"
  | VNum n => Number_toString rt n
  | VStr s => s
  | VArr l =>
      String.concat ","
        (map (fun e => match e with
                       | VUndefined | VNull => ""
                       | _ => ToString e
                       end) l)
  | VObj _ => "[object Object]"
  end.

Definition ToNumber (v : value) : number :=
  match v with
  | VUndefined => NaN
  | VNull => Finite 0
  | VBool true => Finite 1
  | VBool false => Finite 0
  | VNum n => n
  | VStr s => StringToNumber rt s
  | VArr _ | VObj _ => StringToNumber rt (ToString v)
  end.

(** [v > 0] *)
Definition gt_zero (v : value) : bool :=
  match ToNumber v with
  | Finite q => if Qlt_le_dec 0 q then true else false
  | Infinite negative => negb negative
  | NaN => false
  end.

End Conversions.

End JS.

(* ================================================================== *)
(** * Data structures of the app *)
(* ================================================================== *)

Import JS.

(** The fields of the interfaces hold run-time values: what the share
    loader stores comes from [JSON.parse] unchecked. Identifiers and
    creation times are always built by the code itself. *)

Module Annotation.
Record t : Type := {
  id : string;
  timestamp : value;
  title : value;
  description : value
}.
End Annotation.

Module SavedVideo.
Record t : Type := {
  id : string;
  videoId : value;
  title : value;
  url : value;
  generalNotes : value;
  annotations : list Annotation.t;
  createdAt : Z;
  isLocalFile : value;
  localFileName : value
}.
End SavedVideo.

Module Folder.
Record t : Type := {
  id : string;
  name : string;
  parentId : option string;
  isExpanded : bool
}.
End Folder.

Module PlaylistItem.
Record t : Type := {
  id : string;
  videoId : value;
  url : value;
  title : value;
  isLocalFile : value;
  localFileName : value
}.
End PlaylistItem.

Module Playlist.
Record t : Type := {
  id : string;
  name : value;
  items : list PlaylistItem.t;
  createdAt : Z;
  loop : value;
  startRandom : value;
  randomTime : value
}.
End Playlist.

Module AmbientSound.
Record t : Type := {
  id : string;
  videoId : value;
  title : value
}.
End AmbientSound.

Module AppData.
Record t : Type := {
  folders : list Folder.t;
  videos : list SavedVideo.t;
  playlists : list Playlist.t;
  ambientSounds : option (list AmbientSound.t)
}.
End AppData.

Inductive SidebarTab : Type := TabAnnotations | TabPlaylists.

(** The [useState] variables of [App] that sharing reads or writes. *)
Record AppState : Type := {
  appData : AppData.t;
  currentVideo : option SavedVideo.t;
  videoUrl : value;
  videoId : value;
  localVideoUrl : value;
  localVideoName : value;
  generalNotes : value;
  annotations : list Annotation.t;
  videoTitle : value;
  showImportModal : bool;
  activePlaylist : option Playlist.t;
  playlistIndex : Z;
  isPlaylistMode : bool;
  sidebarTab : SidebarTab;
  fetchedVideoTitle : value;
  ambientVideoId : value;
  currentAmbientId : value;
  ambientVideoTitle : value;
  ambientPlaying : bool;
  localVideosToLink : list SavedVideo.t;
  currentLinkingVideo : option SavedVideo.t;
  linkedLocalVideos : list (string * string)
}.

(** Record update, one function per state variable that a setter of the
    sharing code writes. *)
Definition with_appData (x : AppData.t) (s : AppState) : AppState :=
  Build_AppState x (currentVideo s) (videoUrl s) (videoId s)
    (localVideoUrl s) (localVideoName s) (generalNotes s) (annotations s)
    (videoTitle s) (showImportModal s) (activePlaylist s) (playlistIndex
    s) (isPlaylistMode s) (sidebarTab s) (fetchedVideoTitle s)
    (ambientVideoId s) (currentAmbientId s) (ambientVideoTitle s)
    (ambientPlaying s) (localVideosToLink s) (currentLinkingVideo s)
    (linkedLocalVideos s).

Definition with_currentVideo (x : option SavedVideo.t) (s : AppState) : AppState :=
  Build_AppState (appData s) x (videoUrl s) (videoId s) (localVideoUrl s)
    (localVideoName s) (generalNotes s) (annotations s) (videoTitle s)
    (showImportModal s) (activePlaylist s) (playlistIndex s)
    (isPlaylistMode s) (sidebarTab s) (fetchedVideoTitle s)
    (ambientVideoId s) (currentAmbientId s) (ambientVideoTitle s)
    (ambientPlaying s) (localVideosToLink s) (currentLinkingVideo s)
    (linkedLocalVideos s).

Definition with_videoUrl (x : value) (s : AppState) : AppState :=
  Build_AppState (appData s) (currentVideo s) x (videoId s) (localVideoUrl
    s) (localVideoName s) (generalNotes s) (annotations s) (videoTitle s)
    (showImportModal s) (activePlaylist s) (playlistIndex s)
    (isPlaylistMode s) (sidebarTab s) (fetchedVideoTitle s)
    (ambientVideoId s) (currentAmbientId s) (ambientVideoTitle s)
    (ambientPlaying s) (localVideosToLink s) (currentLinkingVideo s)
    (linkedLocalVideos s).

Definition with_videoId (x : value) (s : AppState) : AppState :=
  Build_AppState (appData s) (currentVideo s) (videoUrl s) x
    (localVideoUrl s) (localVideoName s) (generalNotes s) (annotations s)
    (videoTitle s) (showImportModal s) (activePlaylist s) (playlistIndex
    s) (isPlaylistMode s) (sidebarTab s) (fetchedVideoTitle s)
    (ambientVideoId s) (currentAmbientId s) (ambientVideoTitle s)
    (ambientPlaying s) (localVideosToLink s) (currentLinkingVideo s)
    (linkedLocalVideos s).

Definition with_localVideoUrl (x : value) (s : AppState) : AppState :=
  Build_AppState (appData s) (currentVideo s) (videoUrl s) (videoId s) x
    (localVideoName s) (generalNotes s) (annotations s) (videoTitle s)
    (showImportModal s) (activePlaylist s) (playlistIndex s)
    (isPlaylistMode s) (sidebarTab s) (fetchedVideoTitle s)
    (ambientVideoId s) (currentAmbientId s) (ambientVideoTitle s)
    (ambientPlaying s) (localVideosToLink s) (currentLinkingVideo s)
    (linkedLocalVideos s).

Definition with_localVideoName (x : value) (s : AppState) : AppState :=
  Build_AppState (appData s) (currentVideo s) (videoUrl s) (videoId s)
    (localVideoUrl s) x (generalNotes s) (annotations s) (videoTitle s)
    (showImportModal s) (activePlaylist s) (playlistIndex s)
    (isPlaylistMode s) (sidebarTab s) (fetchedVideoTitle s)
    (ambientVideoId s) (currentAmbientId s) (ambientVideoTitle s)
    (ambientPlaying s) (localVideosToLink s) (currentLinkingVideo s)
    (linkedLocalVideos s).

Definition with_generalNotes (x : value) (s : AppState) : AppState :=
  Build_AppState (appData s) (currentVideo s) (videoUrl s) (videoId s)
    (localVideoUrl s) (localVideoName s) x (annotations s) (videoTitle s)
    (showImportModal s) (activePlaylist s) (playlistIndex s)
    (isPlaylistMode s) (sidebarTab s) (fetchedVideoTitle s)
    (ambientVideoId s) (currentAmbientId s) (ambientVideoTitle s)
    (ambientPlaying s) (localVideosToLink s) (currentLinkingVideo s)
    (linkedLocalVideos s).

Definition with_annotations (x : list Annotation.t) (s : AppState) : AppState :=
  Build_AppState (appData s) (currentVideo s) (videoUrl s) (videoId s)
    (localVideoUrl s) (localVideoName s) (generalNotes s) x (videoTitle s)
    (showImportModal s) (activePlaylist s) (playlistIndex s)
    (isPlaylistMode s) (sidebarTab s) (fetchedVideoTitle s)
    (ambientVideoId s) (currentAmbientId s) (ambientVideoTitle s)
    (ambientPlaying s) (localVideosToLink s) (currentLinkingVideo s)
    (linkedLocalVideos s).

Definition with_showImportModal (x : bool) (s : AppState) : AppState :=
  Build_AppState (appData s) (currentVideo s) (videoUrl s) (videoId s)
    (localVideoUrl s) (localVideoName s) (generalNotes s) (annotations s)
    (videoTitle s) x (activePlaylist s) (playlistIndex s) (isPlaylistMode
    s) (sidebarTab s) (fetchedVideoTitle s) (ambientVideoId s)
    (currentAmbientId s) (ambientVideoTitle s) (ambientPlaying s)
    (localVideosToLink s) (currentLinkingVideo s) (linkedLocalVideos s).

Definition with_activePlaylist (x : option Playlist.t) (s : AppState) : AppState :=
  Build_AppState (appData s) (currentVideo s) (videoUrl s) (videoId s)
    (localVideoUrl s) (localVideoName s) (generalNotes s) (annotations s)
    (videoTitle s) (showImportModal s) x (playlistIndex s) (isPlaylistMode
    s) (sidebarTab s) (fetchedVideoTitle s) (ambientVideoId s)
    (currentAmbientId s) (ambientVideoTitle s) (ambientPlaying s)
    (localVideosToLink s) (currentLinkingVideo s) (linkedLocalVideos s).

Definition with_playlistIndex (x : Z) (s : AppState) : AppState :=
  Build_AppState (appData s) (currentVideo s) (videoUrl s) (videoId s)
    (localVideoUrl s) (localVideoName s) (generalNotes s) (annotations s)
    (videoTitle s) (showImportModal s) (activePlaylist s) x
    (isPlaylistMode s) (sidebarTab s) (fetchedVideoTitle s)
    (ambientVideoId s) (currentAmbientId s) (ambientVideoTitle s)
    (ambientPlaying s) (localVideosToLink s) (currentLinkingVideo s)
    (linkedLocalVideos s).

Definition with_isPlaylistMode (x : bool) (s : AppState) : AppState :=
  Build_AppState (appData s) (currentVideo s) (videoUrl s) (videoId s)
    (localVideoUrl s) (localVideoName s) (generalNotes s) (annotations s)
    (videoTitle s) (showImportModal s) (activePlaylist s) (playlistIndex
    s) x (sidebarTab s) (fetchedVideoTitle s) (ambientVideoId s)
    (currentAmbientId s) (ambientVideoTitle s) (ambientPlaying s)
    (localVideosToLink s) (currentLinkingVideo s) (linkedLocalVideos s).

Definition with_sidebarTab (x : SidebarTab) (s : AppState) : AppState :=
  Build_AppState (appData s) (currentVideo s) (videoUrl s) (videoId s)
    (localVideoUrl s) (localVideoName s) (generalNotes s) (annotations s)
    (videoTitle s) (showImportModal s) (activePlaylist s) (playlistIndex
    s) (isPlaylistMode s) x (fetchedVideoTitle s) (ambientVideoId s)
    (currentAmbientId s) (ambientVideoTitle s) (ambientPlaying s)
    (localVideosToLink s) (currentLinkingVideo s) (linkedLocalVideos s).

Definition with_ambientVideoId (x : value) (s : AppState) : AppState :=
  Build_AppState (appData s) (currentVideo s) (videoUrl s) (videoId s)
    (localVideoUrl s) (localVideoName s) (generalNotes s) (annotations s)
    (videoTitle s) (showImportModal s) (activePlaylist s) (playlistIndex
    s) (isPlaylistMode s) (sidebarTab s) (fetchedVideoTitle s) x
    (currentAmbientId s) (ambientVideoTitle s) (ambientPlaying s)
    (localVideosToLink s) (currentLinkingVideo s) (linkedLocalVideos s).

Definition with_currentAmbientId (x : value) (s : AppState) : AppState :=
  Build_AppState (appData s) (currentVideo s) (videoUrl s) (videoId s)
    (localVideoUrl s) (localVideoName s) (generalNotes s) (annotations s)
    (videoTitle s) (showImportModal s) (activePlaylist s) (playlistIndex
    s) (isPlaylistMode s) (sidebarTab s) (fetchedVideoTitle s)
    (ambientVideoId s) x (ambientVideoTitle s) (ambientPlaying s)
    (localVideosToLink s) (currentLinkingVideo s) (linkedLocalVideos s).

Definition with_ambientVideoTitle (x : value) (s : AppState) : AppState :=
  Build_AppState (appData s) (currentVideo s) (videoUrl s) (videoId s)
    (localVideoUrl s) (localVideoName s) (generalNotes s) (annotations s)
    (videoTitle s) (showImportModal s) (activePlaylist s) (playlistIndex
    s) (isPlaylistMode s) (sidebarTab s) (fetchedVideoTitle s)
    (ambientVideoId s) (currentAmbientId s) x (ambientPlaying s)
    (localVideosToLink s) (currentLinkingVideo s) (linkedLocalVideos s).

Definition with_ambientPlaying (x : bool) (s : AppState) : AppState :=
  Build_AppState (appData s) (currentVideo s) (videoUrl s) (videoId s)
    (localVideoUrl s) (localVideoName s) (generalNotes s) (annotations s)
    (videoTitle s) (showImportModal s) (activePlaylist s) (playlistIndex
    s) (isPlaylistMode s) (sidebarTab s) (fetchedVideoTitle s)
    (ambientVideoId s) (currentAmbientId s) (ambientVideoTitle s) x
    (localVideosToLink s) (currentLinkingVideo s) (linkedLocalVideos s).

Definition with_localVideosToLink (x : list SavedVideo.t) (s : AppState) : AppState :=
  Build_AppState (appData s) (currentVideo s) (videoUrl s) (videoId s)
    (localVideoUrl s) (localVideoName s) (generalNotes s) (annotations s)
    (videoTitle s) (showImportModal s) (activePlaylist s) (playlistIndex
    s) (isPlaylistMode s) (sidebarTab s) (fetchedVideoTitle s)
    (ambientVideoId s) (currentAmbientId s) (ambientVideoTitle s)
    (ambientPlaying s) x (currentLinkingVideo s) (linkedLocalVideos s).

Definition with_currentLinkingVideo (x : option SavedVideo.t) (s : AppState) : AppState :=
  Build_AppState (appData s) (currentVideo s) (videoUrl s) (videoId s)
    (localVideoUrl s) (localVideoName s) (generalNotes s) (annotations s)
    (videoTitle s) (showImportModal s) (activePlaylist s) (playlistIndex
    s) (isPlaylistMode s) (sidebarTab s) (fetchedVideoTitle s)
    (ambientVideoId s) (currentAmbientId s) (ambientVideoTitle s)
    (ambientPlaying s) (localVideosToLink s) x (linkedLocalVideos s).

Definition with_linkedLocalVideos (x : list (string * string)) (s : AppState) : AppState :=
  Build_AppState (appData s) (currentVideo s) (videoUrl s) (videoId s)
    (localVideoUrl s) (localVideoName s) (generalNotes s) (annotations s)
    (videoTitle s) (showImportModal s) (activePlaylist s) (playlistIndex
    s) (isPlaylistMode s) (sidebarTab s) (fetchedVideoTitle s)
    (ambientVideoId s) (currentAmbientId s) (ambientVideoTitle s)
    (ambientPlaying s) (localVideosToLink s) (currentLinkingVideo s) x.

(* ================================================================== *)
(** * Effects: the browser, the clock and the event log *)
(* ================================================================== *)

(** What the page does to the outside. *)
Inductive Event : Type :=
| Alert (message : string)
| ConsoleError (label : string) (err : JsError)
| ClipboardWrite (text : string)
| HistoryReplaceState (url : string).

(** The browser around one run of a handler: [window.location], whether
    [navigator.clipboard.writeText] resolves, the successive readings of
    [Date.now()] and the reading of [Math.random()]. *)
Record Browser : Type := {
  origin : string;
  pathname : string;
  clipboardAllowed : bool;
  Date_now : nat -> Z;
  Math_random : Q
}.

Record World : Type := {
  state : AppState;
  clockReads : nat;
  events : list Event
}.

(** A handler body: it updates the world and returns or throws; what it
    wrote before a throw stays written. *)
Definition Eff (A : Type) : Type := World -> World * completion A.

Definition ret {A} (a : A) : Eff A := fun w => (w, Return a).

Definition bind {A B} (c : Eff A) (k : A -> Eff B) : Eff B :=
  fun w =>
    match c w with
    | (w', Return a) => k a w'
    | (w', Throw e) => (w', Throw e)
    end.

Declare Scope eff_scope.
Delimit Scope eff_scope with eff.
Notation "x <- c ;; k" := (bind c (fun x => k))
  (at level 61, c at next level, right associativity) : eff_scope.
Notation "c ;; k" := (bind c (fun _ => k))
  (at level 61, right associativity) : eff_scope.
Local Open Scope eff_scope.

(** A pure expression inside a handler. *)
Definition lift {A} (c : completion A) : Eff A := fun w => (w, c).

(** [try { body } catch (err) { handler err }] *)
Definition tryCatch (body : Eff unit) (handler : JsError -> Eff unit)
  : Eff unit :=
  fun w =>
    match body w with
    | (w', Return u) => (w', Return u)
    | (w', Throw e) => handler e w'
    end.

Definition emit (e : Event) : Eff unit :=
  fun w => ({| state := state w; clockReads := clockReads w;
               events := events w ++ [e] |}, Return tt).

Definition setState (f : AppState -> AppState) : Eff unit :=
  fun w => ({| state := f (state w); clockReads := clockReads w;
               events := events w |}, Return tt).

Definition dateNow (br : Browser) : Eff Z :=
  fun w => ({| state := state w; clockReads := S (clockReads w);
               events := events w |}, Return (Date_now br (clockReads w))).

Fixpoint mapi_eff_from {A} (f : value -> nat -> Eff A) (idx : nat)
  (l : list value) : Eff (list A) :=
  match l with
  | [] => ret []
  | x :: r =>
      y <- f x idx ;;
      ys <- mapi_eff_from f (S idx) r ;;
      ret (y :: ys)
  end.

(** [o.map(...)] with a callback that reads the clock. *)
Definition call_map_eff {A} (o : value) (f : value -> nat -> Eff A)
  : Eff (list A) :=
  match o with
  | VArr l => mapi_eff_from f 0 l
  | _ => lift (Throw TypeError)
  end.

Definition setGeneralNotes (v : value) := setState (with_generalNotes v).
Definition setAnnotations (l : list Annotation.t) :=
  setState (with_annotations l).
Definition setLocalVideoName (v : value) := setState (with_localVideoName v).
Definition setVideoId (v : value) := setState (with_videoId v).
Definition setVideoUrl (v : value) := setState (with_videoUrl v).
Definition setLocalVideoUrl (v : value) := setState (with_localVideoUrl v).
Definition setLocalVideosToLink (l : list SavedVideo.t) :=
  setState (with_localVideosToLink l).
Definition setCurrentLinkingVideo (v : option SavedVideo.t) :=
  setState (with_currentLinkingVideo v).
Definition setLinkedLocalVideos (m : list (string * string)) :=
  setState (with_linkedLocalVideos m).
Definition setShowImportModal (b : bool) := setState (with_showImportModal b).
Definition setAppData (f : AppData.t -> AppData.t) :=
  setState (fun s => with_appData (f (appData s)) s).
Definition setAmbientVideoId (v : value) := setState (with_ambientVideoId v).
Definition setCurrentAmbientId (v : value) :=
  setState (with_currentAmbientId v).
Definition setAmbientVideoTitle (v : value) :=
  setState (with_ambientVideoTitle v).
Definition setAmbientPlaying (b : bool) := setState (with_ambientPlaying b).
Definition setActivePlaylist (p : option Playlist.t) :=
  setState (with_activePlaylist p).
Definition setPlaylistIndex (i : Z) := setState (with_playlistIndex i).
Definition setIsPlaylistMode (b : bool) := setState (with_isPlaylistMode b).
Definition setCurrentVideo (v : option SavedVideo.t) :=
  setState (with_currentVideo v).
Definition setSidebarTab (t : SidebarTab) := setState (with_sidebarTab t).

(* ================================================================== *)
(** * Sharing: [handleShare] and [handleSharePlaylist] *)
(* ================================================================== *)

Section Codec.

Variable rt : Runtime.
Variable br : Browser.

Definition newline : string := String "010"%char EmptyString.

(** [{ t: ann.timestamp, n: ann.title,
       ...(ann.description ? { d: ann.description } : {}) }] *)
Definition compactAnnotation (ann : Annotation.t) : value :=
  VObj ([("t", Annotation.timestamp ann); ("n", Annotation.title ann)]
        ++ (if truthy (Annotation.description ann)
            then [("d", Annotation.description ann)] else [])).

(** The [compactData] of [handleShare]. *)
Definition compactShareData (st : AppState) : value :=
  VObj ([("v", JS.or (videoId st) (VStr ""));
         ("t", JS.or (localVideoName st) (VStr "Shared Video"));
         ("g", generalNotes st);
         ("a", VArr (map compactAnnotation (annotations st)))]
        ++ (if truthy (localVideoUrl st) then [("l", VBool true)] else [])).

(** [JSON.stringify], [pako.deflate], the byte loop, [btoa] and the
    URL-safe remap. *)
Definition encodePayload (compact : value) : string :=
  let jsonStr := JSON_stringify rt compact in
  let compressed := pako_deflate rt jsonStr in
  let binaryStr := string_of_list_byte compressed in
  let base64 := Base64.btoa binaryStr in
  Base64.toUrlSafe base64.

Definition shareUrlOf (param : string) (compact : value) : string :=
  origin br ++ pathname br ++ "?" ++ param ++ "=" ++ encodePayload compact.

Definition shareUrl (st : AppState) : string :=
  shareUrlOf "d" (compactShareData st).

(** [handleShare]: the events it causes. It writes no state variable.
    Inside the [try], [JSON.stringify], [pako.deflate] and [btoa] get a
    plain object, a string and a string of bytes and do not throw; the
    [catch] is reached when the clipboard refuses the write. *)
Definition handleShare (st : AppState) : list Event :=
  if negb (truthy (videoId st)) && negb (truthy (localVideoUrl st)) then
    [Alert "No video loaded to share"]
  else
    let url := shareUrl st in
    if (8000 <? Z.of_nat (String.length url))%Z then
      [Alert ("URL is too long (" ++ string_of_nat (String.length url)
              ++ " chars). Try reducing notes or annotations, or use Export instead.")]
    else if clipboardAllowed br then
      [ClipboardWrite url;
       Alert ("Share URL copied to clipboard! ("
              ++ string_of_nat (String.length url) ++ " characters)"
              ++ newline ++ newline
              ++ "Anyone with this link can view the video with your annotations.")]
    else
      [ConsoleError "Share error:" NotAllowedError;
       Alert "Failed to create share URL. Try using Export instead."].

(** [{ v: item.videoId, u: item.isLocalFile ? '' : item.url, t: item.title,
       ...(item.isLocalFile ? { l: true, f: item.localFileName } : {}) }] *)
Definition compactPlaylistItem (item : PlaylistItem.t) : value :=
  VObj ([("v", PlaylistItem.videoId item);
         ("u", if truthy (PlaylistItem.isLocalFile item)
               then VStr "" else PlaylistItem.url item);
         ("t", PlaylistItem.title item)]
        ++ (if truthy (PlaylistItem.isLocalFile item)
            then [("l", VBool true); ("f", PlaylistItem.localFileName item)]
            else [])).

Definition compactAmbientSound (sound : AmbientSound.t) : value :=
  VObj [("v", AmbientSound.videoId sound); ("t", AmbientSound.title sound)].

(** The [compactPlaylist] of [handleSharePlaylist]. *)
Definition compactPlaylistData (data : AppData.t) (playlist : Playlist.t)
  : value :=
  VObj ([("n", Playlist.name playlist);
         ("i", VArr (map compactPlaylistItem (Playlist.items playlist)));
         ("lp", Playlist.loop playlist)]
        ++ (if truthy (Playlist.startRandom playlist)
            then [("sr", VBool true)] else [])
        ++ (if truthy (Playlist.randomTime playlist)
            then [("rt", VBool true)] else [])
        ++ (match AppData.ambientSounds data with
            | Some (sound :: sounds) =>
                [("as", VArr (map compactAmbientSound (sound :: sounds)))]
            | _ => []
            end)).

Definition playlistShareUrl (data : AppData.t) (playlist : Playlist.t)
  : string :=
  shareUrlOf "p" (compactPlaylistData data playlist).

(** [handleSharePlaylist]: the events it causes. *)
Definition handleSharePlaylist (data : AppData.t) (playlist : Playlist.t)
  : list Event :=
  match Playlist.items playlist with
  | [] => [Alert "Cannot share an empty playlist"]
  | _ :: _ =>
      let hasLocalVideos :=
        existsb (fun item => truthy (PlaylistItem.isLocalFile item))
                (Playlist.items playlist) in
      (if hasLocalVideos
       then [Alert "Note: Local video files cannot be shared via URL. Recipients will need to link their own video files."]
       else [])
      ++
      (let url := playlistShareUrl data playlist in
      if (8000 <? Z.of_nat (String.length url))%Z then
        [Alert ("URL is too long (" ++ string_of_nat (String.length url)
                ++ " chars). Try reducing the number of videos in the playlist.")]
      else if clipboardAllowed br then
        [ClipboardWrite url;
         Alert ("Playlist share URL copied to clipboard! ("
                ++ string_of_nat (String.length url) ++ " characters)"
                ++ newline ++ newline
                ++ "Anyone with this link can play this playlist.")]
      else
        [ConsoleError "Share playlist error:" NotAllowedError;
         Alert "Failed to create share URL."])
  end.

(* ================================================================== *)
(** * Loading a share link: the mount effect *)
(* ================================================================== *)

(** Reverse remap, [atob], the byte loop, [pako.inflate] and
    [JSON.parse]; each of the three calls may throw. *)
Definition decodePayload (data : string) : completion value :=
  let padded := Base64.fromUrlSafe data in
  cbind (of_option InvalidCharacterError (Base64.atob padded))
    (fun binaryStr =>
  let bytes := list_byte_of_string binaryStr in
  cbind (of_option InflateError (pako_inflate rt bytes))
    (fun decompressed =>
  of_option SyntaxError (JSON_parse rt decompressed))).

(** [compactData.a.map((ann, idx) => ({ id: `shared_${idx}`,
      timestamp: ann.t, title: ann.n, description: ann.d }))] *)
Definition sharedAnnotations (a : value) : completion (list Annotation.t) :=
  call_map a (fun ann idx =>
    cbind (get ann "t") (fun t =>
    cbind (get ann "n") (fun n =>
    cbind (get ann "d") (fun d =>
    Return {| Annotation.id := "shared_" ++ string_of_nat idx;
              Annotation.timestamp := t;
              Annotation.title := n;
              Annotation.description := d |})))).

(** The statements of the [try] block of the [?d=] branch that follow
    [JSON.parse]. *)
Definition applySharedData (compactData : value) : Eff unit :=
  g <- lift (get compactData "g") ;;
  setGeneralNotes g ;;
  a <- lift (get compactData "a") ;;
  anns <- lift (sharedAnnotations a) ;;
  setAnnotations anns ;;
  l <- lift (get compactData "l") ;;
  (if truthy l then
     (* Local video - prompt user to select the file *)
     now <- dateNow br ;;
     t <- lift (get compactData "t") ;;
     g' <- lift (get compactData "g") ;;
     a' <- lift (get compactData "a") ;;
     anns' <- lift (sharedAnnotations a') ;;
     created <- dateNow br ;;
     fileName <- lift (get compactData "t") ;;
     let sharedVideo :=
       {| SavedVideo.id := "shared_" ++ string_of_Z now;
          SavedVideo.videoId := VStr "";
          SavedVideo.title := t;
          SavedVideo.url := VStr "";
          SavedVideo.generalNotes := g';
          SavedVideo.annotations := anns';
          SavedVideo.createdAt := created;
          SavedVideo.isLocalFile := VBool true;
          SavedVideo.localFileName := fileName |} in
     name <- lift (get compactData "t") ;;
     setLocalVideoName name ;;
     setVideoId VNull ;;
     setVideoUrl (VStr "") ;;
     setLocalVideoUrl VNull ;;
     setLocalVideosToLink [sharedVideo] ;;
     setCurrentLinkingVideo (Some sharedVideo) ;;
     setLinkedLocalVideos [] ;;
     setShowImportModal true
   else
     (* YouTube video *)
     v <- lift (get compactData "v") ;;
     setVideoId v ;;
     v' <- lift (get compactData "v") ;;
     setVideoUrl (VStr ("https://youtube.com/watch?v=" ++ ToString rt v')) ;;
     setLocalVideoUrl VNull ;;
     setLocalVideoName (VStr "")) ;;
  emit (HistoryReplaceState (pathname br)).

(** The [if (data)] branch of the effect. *)
Definition loadSharedData (data : string) : Eff unit :=
  tryCatch
    (compactData <- lift (decodePayload data) ;;
     applySharedData compactData)
    (fun err => emit (ConsoleError "Failed to load shared data:" err)).

(** [compactPlaylist.i.map((item, idx) => ({ id: `item_${idx}`, ... }))] *)
Definition sharedItems (i : value) : completion (list PlaylistItem.t) :=
  call_map i (fun item idx =>
    cbind (get item "v") (fun v =>
    cbind (get item "u") (fun u =>
    cbind (get item "t") (fun t =>
    cbind (get item "l") (fun l =>
    cbind (get item "f") (fun f =>
    Return {| PlaylistItem.id := "item_" ++ string_of_nat idx;
              PlaylistItem.videoId := v;
              PlaylistItem.url := u;
              PlaylistItem.title := t;
              PlaylistItem.isLocalFile := l;
              PlaylistItem.localFileName := f |})))))).

(** The [sharedPlaylist] object ("Convert to Playlist format"). *)
Definition sharedPlaylistOf (compactPlaylist : value) : Eff Playlist.t :=
  now <- dateNow br ;;
  n <- lift (get compactPlaylist "n") ;;
  i <- lift (get compactPlaylist "i") ;;
  items <- lift (sharedItems i) ;;
  created <- dateNow br ;;
  lp <- lift (get compactPlaylist "lp") ;;
  sr <- lift (get compactPlaylist "sr") ;;
  rtm <- lift (get compactPlaylist "rt") ;;
  ret {| Playlist.id := "shared_" ++ string_of_Z now;
         Playlist.name := n;
         Playlist.items := items;
         Playlist.createdAt := created;
         Playlist.loop := lp;
         Playlist.startRandom := sr;
         Playlist.randomTime := rtm |}.

(** [compactPlaylist.as.map((sound, idx) =>
      ({ id: `ambient_${Date.now()}_${idx}`, videoId: sound.v,
         title: sound.t }))] *)
Definition sharedAmbientSoundsOf (sounds : value)
  : Eff (list AmbientSound.t) :=
  call_map_eff sounds (fun sound idx =>
    now <- dateNow br ;;
    v <- lift (get sound "v") ;;
    t <- lift (get sound "t") ;;
    ret {| AmbientSound.id :=
             "ambient_" ++ string_of_Z now ++ "_" ++ string_of_nat idx;
           AmbientSound.videoId := v;
           AmbientSound.title := t |}).

(** [prev => ({ ...prev, ambientSounds: sharedAmbientSounds })] *)
Definition replaceAmbientSounds (sounds : list AmbientSound.t)
  (prev : AppData.t) : AppData.t :=
  {| AppData.folders := AppData.folders prev;
     AppData.videos := AppData.videos prev;
     AppData.playlists := AppData.playlists prev;
     AppData.ambientSounds := Some sounds |}.

(** "Load ambient sounds if included" *)
Definition loadAmbientSounds (compactPlaylist : value) : Eff unit :=
  sounds <- lift (get compactPlaylist "as") ;;
  if truthy sounds then
    len <- lift (get sounds "length") ;;
    if gt_zero rt len then
      sharedAmbientSounds <- sharedAmbientSoundsOf sounds ;;
      setAppData (replaceAmbientSounds sharedAmbientSounds) ;;
      (* Auto-play first ambient sound *)
      match sharedAmbientSounds with
      | firstAmbient :: _ =>
          setAmbientVideoId (AmbientSound.videoId firstAmbient) ;;
          setCurrentAmbientId (AmbientSound.videoId firstAmbient) ;;
          setAmbientVideoTitle (AmbientSound.title firstAmbient) ;;
          setAmbientPlaying true
      | [] => lift (Throw TypeError)
      end
    else ret tt
  else ret tt.

(** [items.findIndex((item, idx) => p item idx)], [-1] when none. *)
Fixpoint findIndex_from {A} (p : A -> Z -> bool) (idx : Z) (l : list A) : Z :=
  match l with
  | [] => (-1)%Z
  | x :: r => if p x idx then idx else findIndex_from p (idx + 1)%Z r
  end.

Definition findIndex {A} (p : A -> Z -> bool) (l : list A) : Z :=
  findIndex_from p 0%Z l.

(** "Start playing the playlist" *)
Definition startSharedPlaylist (sharedPlaylist : Playlist.t) : Eff unit :=
  let items := Playlist.items sharedPlaylist in
  let startRandom := truthy (Playlist.startRandom sharedPlaylist) in
  let startIndex :=
    if startRandom && (0 <? List.length items)%nat
    then Qfloor (Math_random br * inject_Z (Z.of_nat (List.length items)))
    else 0%Z in
  (* Find first playable (skip local videos for now) *)
  let firstPlayableIndex :=
    findIndex (fun item idx =>
                 negb (truthy (PlaylistItem.isLocalFile item))
                 && (if startRandom then (idx =? startIndex)%Z else true))
              items in
  let actualStartIndex :=
    if (0 <=? firstPlayableIndex)%Z then firstPlayableIndex
    else findIndex (fun item _ =>
                      negb (truthy (PlaylistItem.isLocalFile item))) items in
  if (0 <=? actualStartIndex)%Z then
    setActivePlaylist (Some sharedPlaylist) ;;
    setPlaylistIndex actualStartIndex ;;
    setIsPlaylistMode true ;;
    match nth_error items (Z.to_nat actualStartIndex) with
    | Some item =>
        setVideoId (PlaylistItem.videoId item) ;;
        setVideoUrl (PlaylistItem.url item) ;;
        setLocalVideoUrl VNull ;;
        setLocalVideoName (VStr "") ;;
        setCurrentVideo None ;;
        setGeneralNotes (VStr "") ;;
        setAnnotations [] ;;
        setSidebarTab TabPlaylists
    | None => lift (Throw TypeError)
    end
  else
    emit (Alert "This playlist only contains local videos. Cannot play automatically.").

(** The statements of the [try] block of the [?p=] branch that follow
    [JSON.parse]. *)
Definition applySharedPlaylist (compactPlaylist : value) : Eff unit :=
  sharedPlaylist <- sharedPlaylistOf compactPlaylist ;;
  loadAmbientSounds compactPlaylist ;;
  (* Check if there are local videos that need linking *)
  let localItems :=
    filter (fun item => truthy (PlaylistItem.isLocalFile item))
           (Playlist.items sharedPlaylist) in
  (if (0 <? List.length localItems)%nat then
     emit (Alert ("This playlist contains "
                  ++ string_of_nat (List.length localItems)
                  ++ " local video(s). You'll need to link them to files on your computer."))
   else ret tt) ;;
  startSharedPlaylist sharedPlaylist ;;
  emit (HistoryReplaceState (pathname br)).

(** The [else if (playlistData)] branch of the effect. *)
Definition loadSharedPlaylist (playlistData : string) : Eff unit :=
  tryCatch
    (compactPlaylist <- lift (decodePayload playlistData) ;;
     applySharedPlaylist compactPlaylist)
    (fun err => emit (ConsoleError "Failed to load shared playlist:" err)).

(** The mount effect: [d] and [p] are [params.get('d')] and
    [params.get('p')]; an empty string is falsy. *)
Definition loadFromUrl (d p : option string) : Eff unit :=
  match d with
  | Some (String c data) => loadSharedData (String c data)
  | _ =>
      match p with
      | Some (String c playlistData) =>
          loadSharedPlaylist (String c playlistData)
      | _ => ret tt
      end
  end.

End Codec.

(* ================================================================== *)
(** * Notions the properties are stated with *)
(* ================================================================== *)

(** The title of the loaded video, by the expression
    [localVideoName || currentVideo?.title || 'Untitled Video'] of
    [addCurrentVideoToPlaylist]. *)
Definition currentTitle (st : AppState) : value :=
  JS.or (JS.or (localVideoName st)
               (match currentVideo st with
                | Some video => SavedVideo.title video
                | None => VUndefined
                end))
        (VStr "Untitled Video").

(** A marker without its identifier: time, label, description. *)
Definition marker (ann : Annotation.t) : value * value * value :=
  (Annotation.timestamp ann, Annotation.title ann, Annotation.description ann).

(** A marker as the link carries it: a falsy description is left out and
    comes back as [undefined]. *)
Definition wireMarker (ann : Annotation.t) : value * value * value :=
  (Annotation.timestamp ann, Annotation.title ann,
   if truthy (Annotation.description ann) then Annotation.description ann
   else VUndefined).

(** [o.k] where a throw counts as [undefined]. *)
Definition field (o : value) (k : string) : value :=
  match get o k with
  | Return v => v
  | Throw _ => VUndefined
  end.

Definition time_le (a b : value) : Prop :=
  match a, b with
  | VNum (Finite x), VNum (Finite y) => (x <= y)%Q
  | _, _ => False
  end.

(** Ascending [timestamp]s. *)
Definition chronological (l : list Annotation.t) : Prop :=
  StronglySorted
    (fun a b => time_le (Annotation.timestamp a) (Annotation.timestamp b)) l.

(** [pako] and [JSON] give the serialised text and the object back. *)
Definition lossless (rt : Runtime) (compact : value) : Prop :=
  let jsonStr := JSON_stringify rt compact in
  pako_inflate rt (pako_deflate rt jsonStr) = Some jsonStr
  /\ JSON_parse rt jsonStr = Some compact.

(** A streaming video is selected: [loadVideo], [handleLoadVideo],
    [loadPlaylistItem], [startPlaylist] and the share loader all set
    [localVideoUrl] to [null] and [localVideoName] to [''] when they set
    a [videoId]. *)
Definition streamingSelected (st : AppState) : Prop :=
  truthy (videoId st) = true
  /\ localVideoUrl st = VNull
  /\ localVideoName st = VStr "".

Definition withItemUrl (u : value) (item : PlaylistItem.t) : PlaylistItem.t :=
  {| PlaylistItem.id := PlaylistItem.id item;
     PlaylistItem.videoId := PlaylistItem.videoId item;
     PlaylistItem.url := u;
     PlaylistItem.title := PlaylistItem.title item;
     PlaylistItem.isLocalFile := PlaylistItem.isLocalFile item;
     PlaylistItem.localFileName := PlaylistItem.localFileName item |}.

(** Two entries that differ at most in the [url] of a local file. *)
Definition sameUpToLocalUrl (item item' : PlaylistItem.t) : Prop :=
  item' = item
  \/ (truthy (PlaylistItem.isLocalFile item) = true
      /\ exists u, item' = withItemUrl u item).

Definition withItems (items : list PlaylistItem.t) (p : Playlist.t)
  : Playlist.t :=
  {| Playlist.id := Playlist.id p;
     Playlist.name := Playlist.name p;
     Playlist.items := items;
     Playlist.createdAt := Playlist.createdAt p;
     Playlist.loop := Playlist.loop p;
     Playlist.startRandom := Playlist.startRandom p;
     Playlist.randomTime := Playlist.randomTime p |}.

(** The strings a handler put on the clipboard. *)
Fixpoint transmitted (evs : list Event) : list string :=
  match evs with
  | [] => []
  | ClipboardWrite text :: r => text :: transmitted r
  | _ :: r => transmitted r
  end.

(** The identifiers the loader builds: [`shared_${idx}`], [`item_${idx}`]
    and [`ambient_${Date.now()}_${idx}`]. *)
Definition annotationId (idx : nat) : string := "shared_" ++ string_of_nat idx.
Definition itemId (idx : nat) : string := "item_" ++ string_of_nat idx.
Definition ambientId (now : Z) (idx : nat) : string :=
  "ambient_" ++ string_of_Z now ++ "_" ++ string_of_nat idx.

(** A wire annotation without the key names: [t], [n], [d]. *)
Definition wireEntry (e : value) : value * value * value :=
  (field e "t", field e "n", field e "d").

(** [Object.hasOwn(o, k)] for an object built by the code. *)
Definition hasOwn (o : value) (k : string) : bool :=
  match o with
  | VObj m => has_key k m
  | _ => false
  end.

(** An entry of a playlist as the link gives it back. *)
Definition sharedItem (idx : nat) (item : PlaylistItem.t) : PlaylistItem.t :=
  let isLocal := truthy (PlaylistItem.isLocalFile item) in
  {| PlaylistItem.id := itemId idx;
     PlaylistItem.videoId := PlaylistItem.videoId item;
     PlaylistItem.url := if isLocal then VStr "" else PlaylistItem.url item;
     PlaylistItem.title := PlaylistItem.title item;
     PlaylistItem.isLocalFile := if isLocal then VBool true else VUndefined;
     PlaylistItem.localFileName :=
       if isLocal then PlaylistItem.localFileName item else VUndefined |}.

Fixpoint sharedItemsFrom (idx : nat) (items : list PlaylistItem.t)
  : list PlaylistItem.t :=
  match items with
  | [] => []
  | item :: r => sharedItem idx item :: sharedItemsFrom (S idx) r
  end.

(** An optional flag as the link gives it back. *)
Definition sharedFlag (flag : value) : value :=
  if truthy flag then VBool true else VUndefined.

(** An ambient track without its identifier: [videoId], [title]. *)
Definition track (sound : AmbientSound.t) : value * value :=
  (AmbientSound.videoId sound, AmbientSound.title sound).

Definition wireTrack (e : value) : value * value :=
  (field e "v", field e "t").

Definition bytes_of (codes : list N) : list byte :=
  map (fun n => match Byte.of_N n with
                | Some b => b
                | None => Byte.x00
                end) codes.

(* ================================================================== *)
(** * A small runtime and browser to run the code on *)
(* ================================================================== *)

Module Demo.

Definition quote : string := String "034"%char EmptyString.

(** A plain JSON printer (no escapes; a fraction prints as [n/d]). *)
Fixpoint print (v : value) : string :=
  match v with
  | VUndefined => "undefined"
  | VNull => "null"
  | VBool true => "true"
  | VBool false => "false"
  | VNum (Finite q) =>
      string_of_Z (Qnum q)
      ++ (if Pos.eqb (Qden q) 1 then ""
          else "/" ++ string_of_Z (Zpos (Qden q)))
  | VNum (Infinite _) | VNum NaN => "null"
  | VStr s => quote ++ s ++ quote
  | VArr l => "[" ++ String.concat "," (map print l) ++ "]"
  | VObj m =>
      "{" ++ String.concat ","
               (map (fun kv : string * value =>
                       match kv with
                       | (k, x) => (quote ++ k ++ quote ++ ":" ++ print x)%string
                       end) m)
      ++ "}"
  end.

(** A runtime that stores instead of compressing, prints with [print] and
    parses the text of the one object it is told about. *)
Definition runtime (compact : value) : Runtime :=
  {| pako_deflate := list_byte_of_string;
     pako_inflate := fun bytes => Some (string_of_list_byte bytes);
     JSON_stringify := print;
     JSON_parse := fun text =>
       if String.eqb text (print compact) then Some compact else None;
     Number_toString := fun n => print (VNum n);
     StringToNumber := fun _ => NaN |}.

(** The same, except that it inflates the one compressed [stream] it is
    told about to the text of [compact]. *)
Definition inflating (stream : list byte) (compact : value) : Runtime :=
  {| pako_deflate := list_byte_of_string;
     pako_inflate := fun bytes =>
       if String.eqb (string_of_list_byte bytes) (string_of_list_byte stream)
       then Some (print compact)
       else Some (string_of_list_byte bytes);
     JSON_stringify := print;
     JSON_parse := fun text =>
       if String.eqb text (print compact) then Some compact else None;
     Number_toString := fun n => print (VNum n);
     StringToNumber := fun _ => NaN |}.

Definition browser (start : Z) : Browser :=
  {| origin := "https://notes.example";
     pathname := "/";
     clipboardAllowed := true;
     Date_now := fun n => (start + Z.of_nat n)%Z;
     Math_random := 0 |}.

Definition noData : AppData.t :=
  {| AppData.folders := [];
     AppData.videos := [];
     AppData.playlists := [];
     AppData.ambientSounds := Some [] |}.

(** The state of [App] when it mounts with an empty library. *)
Definition mountState : AppState :=
  {| appData := noData;
     currentVideo := None;
     videoUrl := VStr "";
     videoId := VNull;
     localVideoUrl := VNull;
     localVideoName := VStr "";
     generalNotes := VStr "";
     annotations := [];
     videoTitle := VStr "";
     showImportModal := false;
     activePlaylist := None;
     playlistIndex := 0;
     isPlaylistMode := false;
     sidebarTab := TabAnnotations;
     fetchedVideoTitle := VStr "";
     ambientVideoId := VNull;
     currentAmbientId := VNull;
     ambientVideoTitle := VStr "";
     ambientPlaying := true;
     localVideosToLink := [];
     currentLinkingVideo := None;
     linkedLocalVideos := [] |}.

Definition mountWorld : World :=
  {| state := mountState; clockReads := 0; events := [] |}.

Definition seconds (z : Z) : value := VNum (Finite (inject_Z z)).

End Demo.

(** ** Example data *)

Definition longNotes : AppState :=
  with_generalNotes (VStr (String.concat "" (repeat "n" (N.to_nat 8000))))
    (with_videoId (VStr "abc12345678") Demo.mountState).

Definition localClip : PlaylistItem.t :=
  {| PlaylistItem.id := "1700000000000";
     PlaylistItem.videoId := VStr "";
     PlaylistItem.url := VStr "blob:https://notes.example/3f6c";
     PlaylistItem.title := VStr "Holiday";
     PlaylistItem.isLocalFile := VBool true;
     PlaylistItem.localFileName := VStr "holiday.mp4" |}.

Definition streamClip : PlaylistItem.t :=
  {| PlaylistItem.id := "1700000000001";
     PlaylistItem.videoId := VStr "abc12345678";
     PlaylistItem.url := VStr "https://youtube.com/watch?v=abc12345678";
     PlaylistItem.title := VStr "Lecture";
     PlaylistItem.isLocalFile := VUndefined;
     PlaylistItem.localFileName := VUndefined |}.

Definition mixedPlaylist : Playlist.t :=
  {| Playlist.id := "1700000000002";
     Playlist.name := VStr "Mixed";
     Playlist.items := [streamClip; localClip];
     Playlist.createdAt := 1700000000002;
     Playlist.loop := VBool true;
     Playlist.startRandom := VBool false;
     Playlist.randomTime := VUndefined |}.

(** A compact video share with its two annotations out of time order. *)
Definition swappedMarkers : value :=
  VObj [("v", VStr "abc12345678");
        ("t", VStr "Shared Video");
        ("g", VStr "");
        ("a", VArr [VObj [("t", Demo.seconds 90); ("n", VStr "Goal")];
                    VObj [("t", Demo.seconds 12); ("n", VStr "Kick-off")]])].

(** A saved streaming video called "Demo", loaded by [loadVideo], with one
    annotation. *)
Definition demoVideo : SavedVideo.t :=
  {| SavedVideo.id := "1700000000000/1700000000001";
     SavedVideo.videoId := VStr "abc12345678";
     SavedVideo.title := VStr "Demo";
     SavedVideo.url := VStr "https://youtube.com/watch?v=abc12345678";
     SavedVideo.generalNotes := VStr "";
     SavedVideo.annotations :=
       [{| Annotation.id := "1700000000002";
           Annotation.timestamp := Demo.seconds 90;
           Annotation.title := VStr "Goal";
           Annotation.description := VUndefined |}];
     SavedVideo.createdAt := 1700000000001;
     SavedVideo.isLocalFile := VUndefined;
     SavedVideo.localFileName := VUndefined |}.

Definition demoSession : AppState :=
  {| appData := Demo.noData;
     currentVideo := Some demoVideo;
     videoUrl := SavedVideo.url demoVideo;
     videoId := SavedVideo.videoId demoVideo;
     localVideoUrl := VNull;
     localVideoName := VStr "";
     generalNotes := SavedVideo.generalNotes demoVideo;
     annotations := SavedVideo.annotations demoVideo;
     videoTitle := SavedVideo.title demoVideo;
     showImportModal := false;
     activePlaylist := None;
     playlistIndex := 0;
     isPlaylistMode := false;
     sidebarTab := TabAnnotations;
     fetchedVideoTitle := VStr "";
     ambientVideoId := VNull;
     currentAmbientId := VNull;
     ambientVideoTitle := VStr "";
     ambientPlaying := true;
     localVideosToLink := [];
     currentLinkingVideo := None;
     linkedLocalVideos := [] |}.

(** A library with a folder, a saved video, a playlist and two ambient
    sounds. *)
Definition rainSound : AmbientSound.t :=
  {| AmbientSound.id := "1700000000003";
     AmbientSound.videoId := VStr "rain0000001";
     AmbientSound.title := VStr "Rain" |}.

Definition cafeSound : AmbientSound.t :=
  {| AmbientSound.id := "1700000000004";
     AmbientSound.videoId := VStr "cafe0000001";
     AmbientSound.title := VStr "Cafe" |}.

Definition library : AppData.t :=
  {| AppData.folders :=
       [{| Folder.id := "1700000000000";
           Folder.name := "Matches";
           Folder.parentId := None;
           Folder.isExpanded := true |}];
     AppData.videos := [demoVideo];
     AppData.playlists := [mixedPlaylist];
     AppData.ambientSounds := Some [rainSound; cafeSound] |}.

(** The compact playlist a sender with the ambient sound "Waves" shares. *)
Definition wavesPlaylist : value :=
  compactPlaylistData
    {| AppData.folders := [];
       AppData.videos := [];
       AppData.playlists := [];
       AppData.ambientSounds :=
         Some [{| AmbientSound.id := "1700000000005";
                  AmbientSound.videoId := VStr "waves000001";
                  AmbientSound.title := VStr "Waves" |}] |}
    mixedPlaylist.

(** The page mounts with [library] in local storage. *)
Definition libraryWorld : World :=
  {| state := with_appData library Demo.mountState;
     clockReads := 0;
     events := [] |}.

(** The zlib stream of the JSON text of the object [{ g: 'x' }], and the
    [d] parameter that carries it. *)
Definition notesOnlyDeflated : list byte :=
  bytes_of [120; 156; 171; 86; 74; 87; 178; 82; 170; 80; 170; 5; 0; 12;
            220; 2; 154]%N.

Definition notesOnlyLink : string := "eJyrVkpXslKqUKoFAAzcApo".

From Stdlib Require DecimalZ DecimalPos Permutation ListDec.
(* ================================================================== *)
(** * Times of annotations: [formatTime], [parseTime] and the edit form *)
(* ================================================================== *)

(** Arithmetic on finite numbers is exact, as everywhere in this file:
    the rounding of a double is left out, and integers below [2^53] are
    the ones of the code. *)
Module Num.

(** [Math.floor(x)] *)
Definition floor (x : number) : number :=
  match x with
  | Finite q => Finite (inject_Z (Qfloor q))
  | _ => x
  end.

(** The integer part, towards zero. *)
Definition truncate (q : Q) : Z :=
  if Qle_bool 0 q then Qfloor q else Qceiling q.

(** [x / 60] *)
Definition div60 (x : number) : number :=
  match x with
  | Finite q => Finite (q / 60)
  | _ => x
  end.

(** [x % 60]: the remainder has the sign of [x]. *)
Definition rem60 (x : number) : number :=
  match x with
  | Finite q => Finite (q - 60 * inject_Z (truncate (q / 60)))
  | _ => NaN
  end.

(** [a - b] *)
Definition sub (a b : number) : number :=
  match a, b with
  | Finite x, Finite y => Finite (x - y)
  | Finite _, Infinite negative => Infinite (negb negative)
  | Infinite negative, Finite _ => Infinite negative
  | Infinite n, Infinite m => if Bool.eqb n m then NaN else Infinite n
  | _, _ => NaN
  end.

(** Whether [x < 0]. *)
Definition negative (x : number) : bool :=
  match x with
  | Finite q => negb (Qle_bool 0 q)
  | Infinite neg => neg
  | NaN => false
  end.

(** [Number::toString]: an integer below [10^21] in absolute value is
    printed with its decimal digits; the host prints the other numbers. *)
Definition toString (rt : Runtime) (x : number) : string :=
  match x with
  | Finite q =>
      if Qeq_bool q (inject_Z (Qfloor q))
         && (Z.abs (Qfloor q) <? 10 ^ 21)%Z
      then string_of_Z (Qfloor q)
      else Number_toString rt x
  | _ => Number_toString rt x
  end.

End Num.

(** [s.padStart(target, fill)] for a one-character [fill]. *)
Definition padStart (target : nat) (fill : ascii) (s : string) : string :=
  string_of_list_ascii (repeat fill (target - String.length s)) ++ s.

(** [formatTime]: [seconds / 60] and [seconds % 60] apply ToNumber. *)
Definition formatTime (rt : Runtime) (seconds : value) : string :=
  let x := ToNumber rt seconds in
  let mins := Num.floor (Num.div60 x) in
  let secs := Num.floor (Num.rem60 x) in
  Num.toString rt mins ++ ":" ++ padStart 2 "0" (Num.toString rt secs).

(** What [trim] removes, among the 8-bit characters: tab, line feed,
    vertical tab, form feed, carriage return, space, no-break space. *)
Definition isTrimSpace (c : ascii) : bool :=
  let n := N_of_ascii c in
  ((9 <=? n) && (n <=? 13) || (n =? 32) || (n =? 160))%N.

Fixpoint trimStart (l : list ascii) : list ascii :=
  match l with
  | c :: r => if isTrimSpace c then trimStart r else l
  | [] => []
  end.

Definition trim (s : string) : string :=
  string_of_list_ascii
    (rev (trimStart (rev (trimStart (list_ascii_of_string s))))).

Definition isDigit (c : ascii) : bool :=
  let n := N_of_ascii c in ((48 <=? n) && (n <=? 57))%N.


(** The longest run of digits that starts the string, and the rest. *)
Fixpoint spanDigits (s : string) : string * string :=
  match s with
  | String c r =>
      if isDigit c then let (a, b) := spanDigits r in (String c a, b)
      else (EmptyString, s)
  | EmptyString => (EmptyString, EmptyString)
  end.

(** [parseInt(s, 10)] for a string of digits: the number they write. *)
Definition parseDigits (s : string) : option Z :=
  option_map Z.of_uint (NilEmpty.uint_of_string s).

(** [timeStr.trim().match(/^(\d+):(\d{1,2})$/)]: the two groups. *)
Definition matchTime (timeStr : string) : option (string * string) :=
  match spanDigits (trim timeStr) with
  | (String c a, String ":" b) =>
      match spanDigits b with
      | (String d ds, EmptyString) =>
          if (String.length ds <=? 1)%nat
          then Some (String c a, String d ds) else None
      | _ => None
      end
  | _ => None
  end.

(** [parseTime] of [AnnotationItem]: seconds, or [null]. *)
Definition parseTime (timeStr : string) : option Z :=
  match matchTime timeStr with
  | Some (m1, m2) =>
      match parseDigits m1, parseDigits m2 with
      | Some mins, Some secs =>
          if (secs <? 60)%Z then Some (mins * 60 + secs)%Z else None
      | _, _ => None
      end
  | None => None
  end.

Module AnnotationItem.






End AnnotationItem.



(** [l.sort(compare)] for a comparator that is consistent: the sort is
    stable, so its result is the one of inserting the elements one after
    the other, each behind the elements that do not come after it.
    [before a b] is [compare(a, b) < 0]. *)
Fixpoint insertSorted {A} (before : A -> A -> bool) (x : A) (l : list A)
  : list A :=
  match l with
  | [] => [x]
  | y :: r =>
      if before x y then x :: l else y :: insertSorted before x r
  end.

Definition sort {A} (before : A -> A -> bool) (l : list A) : list A :=
  fold_left (fun sorted x => insertSorted before x sorted) l [].

(** [(a, b) => a.timestamp - b.timestamp] is negative. *)
Definition earlier (rt : Runtime) (a b : Annotation.t) : bool :=
  Num.negative (Num.sub (ToNumber rt (Annotation.timestamp a))
                        (ToNumber rt (Annotation.timestamp b))).

(** The updater of [setAnnotations] in [handleAddAnnotation]. *)
Definition addAnnotation (rt : Runtime) (annotation : Annotation.t)
  (prev : list Annotation.t) : list Annotation.t :=
  sort (earlier rt) (prev ++ [annotation]).

(** [handleAddAnnotation]. [newAnnotation] is the text of the input and
    [currentTime] what the mounted player reports, [None] without a
    player; the result is the text left in the input. *)
Definition handleAddAnnotation (rt : Runtime) (br : Browser)
  (newAnnotation : string) (currentTime : option number) : Eff string :=
  if String.eqb (trim newAnnotation) "" then ret newAnnotation
  else
    match currentTime with
    | None => ret newAnnotation
    | Some time =>
        now <- dateNow br ;;
        let annotation :=
          {| Annotation.id := string_of_Z now;
             Annotation.timestamp := VNum time;
             Annotation.title := VStr (trim newAnnotation);
             Annotation.description := VUndefined |} in
        setState (fun s =>
          with_annotations (addAnnotation rt annotation (annotations s)) s) ;;
        ret ""
    end.


(* ================================================================== *)
(** * Video addresses: [extractVideoId] *)
(* ================================================================== *)

(** [p] at the start of [s]: what follows it. *)
Fixpoint stripPrefix (p s : string) : option string :=
  match p, s with
  | EmptyString, _ => Some s
  | String a p', String b s' =>
      if Ascii.eqb a b then stripPrefix p' s' else None
  | String _ _, EmptyString => None
  end.

(** The class [[^&\n?#]]. *)
Definition isIdChar (c : ascii) : bool :=
  negb (existsb (Ascii.eqb c) ["&"; "010"; "?"; "#"]%char).

(** [([^&\n?#]+)] is greedy and ends the pattern: the longest run. *)
Fixpoint takeId (s : string) : string :=
  match s with
  | String c r => if isIdChar c then String c (takeId r) else EmptyString
  | EmptyString => EmptyString
  end.

(** The alternatives of the group
    [(?:youtube\.com\/watch\?v=|youtu\.be\/|youtube\.com\/embed\/)]. *)
Definition hosts : list string :=
  ["youtube.com/watch?v="; "youtu.be/"; "youtube.com/embed/"].

(** The pattern at the start of [s], the alternatives tried in order. *)
Fixpoint matchHere (alternatives : list string) (s : string)
  : option string :=
  match alternatives with
  | [] => None
  | p :: rest =>
      match stripPrefix p s with
      | Some r =>
          match takeId r with
          | EmptyString => matchHere rest s
          | id => Some id
          end
      | None => matchHere rest s
      end
  end.

(** [url.match(pattern)]: the first position where the pattern matches;
    the result is the group [match[1]]. *)
Fixpoint matchFrom (s : string) : option string :=
  match matchHere hosts s with
  | Some id => Some id
  | None =>
      match s with
      | String _ r => matchFrom r
      | EmptyString => None
      end
  end.

Definition extractVideoId (url : string) : option string :=
  match matchFrom url with
  | Some id => Some id
  | None => if (String.length url =? 11)%nat then Some url else None
  end.

(** A text of the class [[^&\n?#]]. *)
Definition idChars (s : string) : Prop :=
  Forall (fun c => isIdChar c = true) (list_ascii_of_string s).

(** Where a run of [[^&\n?#]] stops. *)
Definition stops (rest : string) : Prop :=
  match rest with
  | EmptyString => True
  | String c _ => isIdChar c = false
  end.

(* ================================================================== *)
(** * The folder tree: [deleteFolder] and [moveFolder] *)
(* ================================================================== *)

(** [a === b] for two values of type [string | null]. *)
Definition sameParent (a b : option string) : bool :=
  match a, b with
  | Some x, Some y => String.eqb x y
  | None, None => true
  | _, _ => false
  end.

(** [ids.includes(x)] *)
Definition includes (x : string) (ids : list string) : bool :=
  existsb (String.eqb x) ids.

(** [l.flatMap(f)] for a callback that may not return. *)
Fixpoint flatMap {A B} (f : A -> option (list B)) (l : list A)
  : option (list B) :=
  match l with
  | [] => Some []
  | x :: r =>
      match f x with
      | Some ys =>
          match flatMap f r with
          | Some zs => Some (ys ++ zs)
          | None => None
          end
      | None => None
      end
  end.

(** [getDescendantIds], the recursive helper of [deleteFolder] and of
    [moveFolder]. [depth] bounds the nesting of the calls: the result is
    [None] when the recursion goes deeper. *)
Fixpoint getDescendantIds (depth : nat) (folders : list Folder.t)
  (folderId : string) : option (list string) :=
  match depth with
  | O => None
  | S depth' =>
      let children :=
        filter (fun f => sameParent (Folder.parentId f) (Some folderId))
               folders in
      option_map (cons folderId)
        (flatMap (fun c => getDescendantIds depth' folders (Folder.id c))
                 children)
  end.

(** [deleteFolder]: the new [appData] and the new [selectedFolderId]. *)
Definition deleteFolder (depth : nat) (id : string)
  (selectedFolderId : option string) (data : AppData.t)
  : option (AppData.t * option string) :=
  match getDescendantIds depth (AppData.folders data) id with
  | None => None
  | Some idsToDelete =>
      Some
        ({| AppData.folders :=
              filter (fun f => negb (includes (Folder.id f) idsToDelete))
                     (AppData.folders data);
            AppData.videos :=
              filter (fun v =>
                        negb (existsb
                                (fun fid =>
                                   String.prefix (fid ++ "/")
                                                 (SavedVideo.id v))
                                idsToDelete))
                     (AppData.videos data);
            AppData.playlists := AppData.playlists data;
            AppData.ambientSounds := AppData.ambientSounds data |},
         match selectedFolderId with
         | Some selected =>
             if negb (String.eqb selected "")
                && includes selected idsToDelete
             then None else Some selected
         | None => None
         end)
  end.

(** [{ ...f, parentId: newParentId }] for the folders called [folderId]. *)
Definition reparent (folderId : string) (newParentId : option string)
  (data : AppData.t) : AppData.t :=
  {| AppData.folders :=
       map (fun f =>
              if String.eqb (Folder.id f) folderId
              then {| Folder.id := Folder.id f;
                      Folder.name := Folder.name f;
                      Folder.parentId := newParentId;
                      Folder.isExpanded := Folder.isExpanded f |}
              else f)
           (AppData.folders data);
     AppData.videos := AppData.videos data;
     AppData.playlists := AppData.playlists data;
     AppData.ambientSounds := AppData.ambientSounds data |}.

(** [moveFolder]: the new [appData]. *)
Definition moveFolder (depth : nat) (folderId : string)
  (newParentId : option string) (data : AppData.t) : option AppData.t :=
  match find (fun f => String.eqb (Folder.id f) folderId)
             (AppData.folders data) with
  | None => Some data
  | Some folder =>
      if sameParent (Folder.parentId folder) newParentId then Some data
      else
        match newParentId with
        | Some (String c p) =>
            match getDescendantIds depth (AppData.folders data) folderId with
            | None => None
            | Some ids =>
                if includes (String c p) ids then Some data
                else Some (reparent folderId newParentId data)
            end
        | _ => Some (reparent folderId newParentId data)
        end
  end.

(** [parent] is the parent of a folder called [child]. *)
Definition childOf (folders : list Folder.t) (child parent : string) : Prop :=
  exists f,
    In f folders /\ Folder.id f = child /\ Folder.parentId f = Some parent.

(** [a] lies below [b] in the tree, at any depth. *)
Inductive below (folders : list Folder.t) : string -> string -> Prop :=
| below_child (c p : string) : childOf folders c p -> below folders c p
| below_trans (a b c : string) :
    below folders a b -> below folders b c -> below folders a c.

(** No folder lies below itself. *)
Definition acyclic (folders : list Folder.t) : Prop :=
  forall x, ~ below folders x x.

(** A line of folders, each the child of the one before. *)
Fixpoint descends (folders : list Folder.t) (x : string) (l : list string)
  : Prop :=
  match l with
  | [] => True
  | y :: r => childOf folders y x /\ descends folders y r
  end.

(** Example: a folder with a subfolder and a video in each. *)
Definition nestedLibrary : AppData.t :=
  {| AppData.folders :=
       [{| Folder.id := "100"; Folder.name := "Talks";
           Folder.parentId := None; Folder.isExpanded := true |};
        {| Folder.id := "200"; Folder.name := "Keynotes";
           Folder.parentId := Some "100"; Folder.isExpanded := false |}];
     AppData.videos :=
       [{| SavedVideo.id := "100/300";
           SavedVideo.videoId := VStr "dQw4w9WgXcQ";
           SavedVideo.title := VStr "Opening";
           SavedVideo.url := VStr "https://youtu.be/dQw4w9WgXcQ";
           SavedVideo.generalNotes := VStr "";
           SavedVideo.annotations := [];
           SavedVideo.createdAt := 300;
           SavedVideo.isLocalFile := VBool false;
           SavedVideo.localFileName := VUndefined |};
        {| SavedVideo.id := "200/400";
           SavedVideo.videoId := VStr "9bZkp7q19f0";
           SavedVideo.title := VStr "Closing";
           SavedVideo.url := VStr "https://youtu.be/9bZkp7q19f0";
           SavedVideo.generalNotes := VStr "";
           SavedVideo.annotations := [];
           SavedVideo.createdAt := 400;
           SavedVideo.isLocalFile := VBool false;
           SavedVideo.localFileName := VUndefined |}];
     AppData.playlists := [];
     AppData.ambientSounds := None |}.

(* ================================================================== *)
(** * The library: [saveVideo], [loadVideo], [moveVideo] *)
(* ================================================================== *)

Definition with_videoTitle (x : value) (s : AppState) : AppState :=
  Build_AppState (appData s) (currentVideo s) (videoUrl s) (videoId s)
    (localVideoUrl s) (localVideoName s) (generalNotes s) (annotations s)
    x (showImportModal s) (activePlaylist s) (playlistIndex s)
    (isPlaylistMode s) (sidebarTab s) (fetchedVideoTitle s)
    (ambientVideoId s) (currentAmbientId s) (ambientVideoTitle s)
    (ambientPlaying s) (localVideosToLink s) (currentLinkingVideo s)
    (linkedLocalVideos s).

Definition setVideoTitle (v : value) := setState (with_videoTitle v).

(** The state variables that a handler reads. *)
Definition getState : Eff AppState := fun w => (w, Return (state w)).

(** The state variables of the sidebar and of the save dialog, which the
    handlers of the library read and write beside the state above. *)
Record Dialog : Type := {
  selectedFolderId : option string;
  showSaveDialog : bool;
  saveTitle : value;
  saveFolderId : option string;
  showNewFolderInSaveDialog : bool;
  newFolderNameInSaveDialog : string
}.

(** The dialog as the save handlers leave it. *)
Definition closeDialog (selected : option string) : Dialog :=
  {| selectedFolderId := selected;
     showSaveDialog := false;
     saveTitle := VStr "";
     saveFolderId := None;
     showNewFolderInSaveDialog := false;
     newFolderNameInSaveDialog := "" |}.

(** [s.split(sep)] for a separator of one character. *)
Fixpoint split (sep : ascii) (s : string) : list string :=
  match s with
  | EmptyString => [EmptyString]
  | String c r =>
      if Ascii.eqb c sep then EmptyString :: split sep r
      else
        match split sep r with
        | part :: parts => String c part :: parts
        | [] => [String c EmptyString]
        end
  end.

(** [id.split('/').slice(0, -1).join('/')] *)
Definition folderIdOf (id : string) : string :=
  String.concat "/" (removelast (split "/" id)).

(** [parts[parts.length - 1]] of [id.split('/')], inside a template. *)
Definition uniquePartOf (id : string) : string :=
  last (split "/" id) "undefined".


(** [v.trim()]: only a string has [trim]. *)
Definition trimOf (v : value) : completion string :=
  match v with
  | VStr s => Return (trim s)
  | _ => Throw TypeError
  end.

(** [v.startsWith(prefix)]: only a string has [startsWith]. *)
Definition startsWith (prefix : string) (v : value) : completion bool :=
  match v with
  | VStr s => Return (String.prefix prefix s)
  | _ => Throw TypeError
  end.

(** [prev => ({ ...prev, folders: [...prev.folders, newFolder] })] *)
Definition addFolder (newFolder : Folder.t) (prev : AppData.t) : AppData.t :=
  {| AppData.folders := AppData.folders prev ++ [newFolder];
     AppData.videos := AppData.videos prev;
     AppData.playlists := AppData.playlists prev;
     AppData.ambientSounds := AppData.ambientSounds prev |}.

(** [prev => ({ ...prev, videos: f(prev.videos) })] *)
Definition updateVideos (f : list SavedVideo.t -> list SavedVideo.t)
  (prev : AppData.t) : AppData.t :=
  {| AppData.folders := AppData.folders prev;
     AppData.videos := f (AppData.videos prev);
     AppData.playlists := AppData.playlists prev;
     AppData.ambientSounds := AppData.ambientSounds prev |}.

(** The folder that a save goes to: [saveFolderId], or a new folder
    "Saved Videos" when none is chosen. *)
Definition targetFolder (br : Browser) (ui : Dialog) : Eff string :=
  match saveFolderId ui with
  | Some (String c f) => ret (String c f)
  | _ =>
      now <- dateNow br ;;
      let newFolder :=
        {| Folder.id := string_of_Z now;
           Folder.name := "Saved Videos";
           Folder.parentId := None;
           Folder.isExpanded := true |} in
      setAppData (addFolder newFolder) ;;
      ret (Folder.id newFolder)
  end.

(** [saveVideo]: the dialog it leaves. *)
Definition saveVideo (br : Browser) (ui : Dialog) : Eff Dialog :=
  st <- getState ;;
  if negb (truthy (videoId st)) && negb (truthy (localVideoUrl st))
  then ret ui
  else
    title <- lift (trimOf (saveTitle ui)) ;;
    if String.eqb title "" then ret ui
    else
      targetFolderId <- targetFolder br ui ;;
      stamp <- dateNow br ;;
      created <- dateNow br ;;
      let savedVideo :=
        {| SavedVideo.id := targetFolderId ++ "/" ++ string_of_Z stamp;
           SavedVideo.videoId := JS.or (videoId st) (VStr "");
           SavedVideo.title := VStr title;
           SavedVideo.url := JS.or (localVideoUrl st) (videoUrl st);
           SavedVideo.generalNotes := generalNotes st;
           SavedVideo.annotations := annotations st;
           SavedVideo.createdAt := created;
           SavedVideo.isLocalFile := VBool (truthy (localVideoUrl st));
           SavedVideo.localFileName :=
             JS.or (localVideoName st) VUndefined |} in
      setAppData (updateVideos (fun videos => videos ++ [savedVideo])) ;;
      setCurrentVideo (Some savedVideo) ;;
      ret (closeDialog (Some targetFolderId)).



(** [loadVideo] *)
Definition loadVideo (video : SavedVideo.t) : Eff unit :=
  (* Exit playlist mode when loading an annotation *)
  setIsPlaylistMode false ;;
  setActivePlaylist None ;;
  setPlaylistIndex 0 ;;
  setCurrentVideo (Some video) ;;
  setGeneralNotes (SavedVideo.generalNotes video) ;;
  setAnnotations (SavedVideo.annotations video) ;;
  setVideoTitle (SavedVideo.title video) ;;
  if truthy (SavedVideo.isLocalFile video) then
    linked <- (if truthy (SavedVideo.url video)
               then lift (startsWith "blob:" (SavedVideo.url video))
               else ret false) ;;
    if linked then
      setLocalVideoUrl (SavedVideo.url video) ;;
      setLocalVideoName
        (JS.or (SavedVideo.localFileName video) (VStr "Local Video")) ;;
      setVideoId VNull ;;
      setVideoUrl (VStr "")
    else
      (* Local video needs to be re-linked - prompt user *)
      setLocalVideoUrl VNull ;;
      setLocalVideoName (JS.or (SavedVideo.localFileName video) (VStr "")) ;;
      setVideoId VNull ;;
      setVideoUrl (VStr "") ;;
      setLocalVideosToLink [video] ;;
      setCurrentLinkingVideo (Some video) ;;
      setLinkedLocalVideos [] ;;
      setShowImportModal true
  else
    (* YouTube video *)
    setVideoUrl (SavedVideo.url video) ;;
    setVideoId (SavedVideo.videoId video) ;;
    setLocalVideoUrl VNull ;;
    setLocalVideoName (VStr "").

(** [{ ...v, id: newVideoId }] *)
Definition withVideoId (newVideoId : string) (v : SavedVideo.t)
  : SavedVideo.t :=
  {| SavedVideo.id := newVideoId;
     SavedVideo.videoId := SavedVideo.videoId v;
     SavedVideo.title := SavedVideo.title v;
     SavedVideo.url := SavedVideo.url v;
     SavedVideo.generalNotes := SavedVideo.generalNotes v;
     SavedVideo.annotations := SavedVideo.annotations v;
     SavedVideo.createdAt := SavedVideo.createdAt v;
     SavedVideo.isLocalFile := SavedVideo.isLocalFile v;
     SavedVideo.localFileName := SavedVideo.localFileName v |}.

(** [moveVideo] *)
Definition moveVideo (id newFolderId : string) : Eff unit :=
  st <- getState ;;
  match find (fun v => String.eqb (SavedVideo.id v) id)
             (AppData.videos (appData st)) with
  | None => ret tt
  | Some video =>
      let newVideoId :=
        (newFolderId ++ "/" ++ uniquePartOf (SavedVideo.id video))%string in
      if String.eqb (SavedVideo.id video) newVideoId then ret tt
      else
        setAppData
          (updateVideos
             (map (fun v => if String.eqb (SavedVideo.id v) id
                            then withVideoId newVideoId v else v))) ;;
        match currentVideo st with
        | Some current =>
            if String.eqb (SavedVideo.id current) id
            then setState (fun s =>
                   with_currentVideo
                     (option_map (withVideoId newVideoId) (currentVideo s))
                     s)
            else ret tt
        | None => ret tt
        end
  end.

(** [folderVideos] of [FolderItem]: the videos listed in a folder. *)
Definition folderVideos (folder : Folder.t) (videos : list SavedVideo.t)
  : list SavedVideo.t :=
  filter (fun v => String.prefix (Folder.id folder ++ "/") (SavedVideo.id v))
         videos.

(** A text without a slash. *)
Definition noSlash (s : string) : Prop :=
  Forall (fun c => c <> "/"%char) (list_ascii_of_string s).

(** Example: the first video of the example library. *)
Definition libraryVideo : SavedVideo.t :=
  {| SavedVideo.id := "100/300";
     SavedVideo.videoId := VStr "dQw4w9WgXcQ";
     SavedVideo.title := VStr "Opening";
     SavedVideo.url := VStr "https://youtu.be/dQw4w9WgXcQ";
     SavedVideo.generalNotes := VStr "";
     SavedVideo.annotations := [];
     SavedVideo.createdAt := 300;
     SavedVideo.isLocalFile := VBool false;
     SavedVideo.localFileName := VUndefined |}.

(* ================================================================== *)
(** * Playing a playlist: [playlistNext], [playlistPrev], [playlistGoTo] *)
(* ================================================================== *)










(** [{ ...p, items }] *)
Definition withPlaylistItems (items : list PlaylistItem.t) (p : Playlist.t)
  : Playlist.t :=
  {| Playlist.id := Playlist.id p;
     Playlist.name := Playlist.name p;
     Playlist.items := items;
     Playlist.createdAt := Playlist.createdAt p;
     Playlist.loop := Playlist.loop p;
     Playlist.startRandom := Playlist.startRandom p;
     Playlist.randomTime := Playlist.randomTime p |}.

(** [prev => ({ ...prev, playlists: prev.playlists.map(f) })] *)
Definition updatePlaylists (f : Playlist.t -> Playlist.t) (prev : AppData.t)
  : AppData.t :=
  {| AppData.folders := AppData.folders prev;
     AppData.videos := AppData.videos prev;
     AppData.playlists := map f (AppData.playlists prev);
     AppData.ambientSounds := AppData.ambientSounds prev |}.

(** [p.items.filter(i => i.id !== itemId)] *)
Definition withoutItem (itemId : string) (items : list PlaylistItem.t)
  : list PlaylistItem.t :=
  filter (fun i => negb (String.eqb (PlaylistItem.id i) itemId)) items.

(** [removeVideoFromPlaylist] *)
Definition removeVideoFromPlaylist (playlistId itemId : string) : Eff unit :=
  st <- getState ;;
  setAppData
    (updatePlaylists
       (fun p => if String.eqb (Playlist.id p) playlistId
                 then withPlaylistItems
                        (withoutItem itemId (Playlist.items p)) p
                 else p)) ;;
  match activePlaylist st with
  | Some active =>
      if String.eqb (Playlist.id active) playlistId then
        prev <- getState ;;
        match activePlaylist prev with
        | None => setActivePlaylist None
        | Some prevPlaylist =>
            let newItems := withoutItem itemId (Playlist.items prevPlaylist) in
            (* Adjust index if needed *)
            (if (Z.of_nat (List.length newItems) <=? playlistIndex st)%Z
                && (0 <? List.length newItems)%nat
             then setPlaylistIndex (Z.of_nat (List.length newItems) - 1)
             else ret tt) ;;
            setActivePlaylist
              (Some (withPlaylistItems newItems prevPlaylist))
        end
      else ret tt
  | None => ret tt
  end.

(** The index of the active playlist points at one of its entries, unless
    the playlist is empty. *)
Definition indexInRange (st : AppState) : Prop :=
  match activePlaylist st with
  | Some playlist =>
      Playlist.items playlist = []
      \/ (0 <= playlistIndex st
          < Z.of_nat (List.length (Playlist.items playlist)))%Z
  | None => True
  end.



(** Example: the mixed playlist is played and its first entry is shown. *)
Definition playingMixed : World :=
  {| state :=
       with_isPlaylistMode true
         (with_playlistIndex 0
            (with_activePlaylist (Some mixedPlaylist) demoSession));
     clockReads := 0;
     events := [] |}.


(* ================================================================== *)
(** * Notions for the properties of the links *)
(* ================================================================== *)

(** A character that a query string carries as it is: a letter, a digit,
    [-] or [_]. *)
Definition isUrlSafe (c : ascii) : bool :=
  let n := N_of_ascii c in
  ((65 <=? n) && (n <=? 90) || (97 <=? n) && (n <=? 122)
   || (48 <=? n) && (n <=? 57) || (n =? 45) || (n =? 95))%N.

(** What [loadAmbientSounds] leaves alone. *)
Definition sameScreen (st st' : AppState) : Prop :=
  activePlaylist st' = activePlaylist st
  /\ playlistIndex st' = playlistIndex st
  /\ isPlaylistMode st' = isPlaylistMode st
  /\ videoId st' = videoId st
  /\ videoUrl st' = videoUrl st
  /\ localVideoUrl st' = localVideoUrl st.

(** [startSharedPlaylist] started the playlist on its entry [k]. *)
Definition startsOn (sharedPlaylist : Playlist.t) (k : nat)
  (item : PlaylistItem.t) (w w' : World) : Prop :=
  nth_error (Playlist.items sharedPlaylist) k = Some item
  /\ truthy (PlaylistItem.isLocalFile item) = false
  /\ (truthy (Playlist.startRandom sharedPlaylist) = false ->
      forall j y, (j < k)%nat ->
                  nth_error (Playlist.items sharedPlaylist) j = Some y ->
                  truthy (PlaylistItem.isLocalFile y) = true)
  /\ activePlaylist (state w') = Some sharedPlaylist
  /\ playlistIndex (state w') = Z.of_nat k
  /\ isPlaylistMode (state w') = true
  /\ videoId (state w') = PlaylistItem.videoId item
  /\ videoUrl (state w') = PlaylistItem.url item
  /\ localVideoUrl (state w') = VNull
  /\ localVideoName (state w') = VStr ""
  /\ currentVideo (state w') = None
  /\ generalNotes (state w') = VStr ""
  /\ annotations (state w') = []
  /\ appData (state w') = appData (state w)
  /\ ambientVideoId (state w') = ambientVideoId (state w)
  /\ ambientPlaying (state w') = ambientPlaying (state w)
  /\ events w' = events w.

(* ================================================================== *)
(** * Dragging a folder: [canDropHere] of [FolderItem] *)
(* ================================================================== *)

Inductive DragType : Type := DragVideo | DragFolder.

Module DragItem.
Record t : Type := {
  type : DragType;
  id : string
}.
End DragItem.





(* ================================================================== *)
(** * Properties of [btoa], [atob] and the remap *)
(* ================================================================== *)

Module Base64Facts.
Import Base64.
Local Open Scope N_scope.

(** Induction three characters at a time, the way [encode] recurses. *)
Lemma triples_ind (P : list ascii -> Prop) :
  P [] ->
  (forall a, P [a]) ->
  (forall a b, P [a; b]) ->
  (forall a b c rest, P rest -> P (a :: b :: c :: rest)) ->
  forall l, P l.
Proof.
  intros H0 H1 H2 H3 l.
  assert (Hall : forall n l', (List.length l' <= n)%nat -> P l').
  { induction n as [|n IH]; intros l' Hlen.
    - destruct l'; [exact H0 | cbn in Hlen; lia].
    - destruct l' as [|a [|b [|c rest]]]; auto.
      apply H3, IH. cbn in Hlen. lia. }
  apply (Hall (List.length l)). lia.
Qed.

Lemma encode_split l : encode l = map symbol (groups l) ++ padding l.
Proof.
  induction l as [| a | a b | a b c rest IH] using triples_ind;
    try reflexivity.
  change (encode (a :: b :: c :: rest))
    with (symbol (N_of_ascii a / 4)
          :: symbol ((N_of_ascii a mod 4) * 16 + N_of_ascii b / 16)
          :: symbol ((N_of_ascii b mod 16) * 4 + N_of_ascii c / 64)
          :: symbol (N_of_ascii c mod 64) :: encode rest).
  rewrite IH. reflexivity.
Qed.

Ltac Zify.zify_post_hook ::= Z.to_euclidean_division_equations.

Lemma groups_bounded l : Forall (fun n => n < 64) (groups l).
Proof.
  induction l as [| a | a b | a b c rest IH] using triples_ind.
  - constructor.
  - pose proof (N_ascii_bounded a). cbn [groups].
    repeat constructor; lia.
  - pose proof (N_ascii_bounded a). pose proof (N_ascii_bounded b).
    cbn [groups]. repeat constructor; lia.
  - pose proof (N_ascii_bounded a). pose proof (N_ascii_bounded b).
    pose proof (N_ascii_bounded c).
    change (groups (a :: b :: c :: rest))
      with (N_of_ascii a / 4
            :: (N_of_ascii a mod 4) * 16 + N_of_ascii b / 16
            :: (N_of_ascii b mod 16) * 4 + N_of_ascii c / 64
            :: N_of_ascii c mod 64 :: groups rest).
    repeat (constructor; [lia|]). exact IH.
Qed.

Lemma decode_groups_groups l : decode_groups (groups l) = l.
Proof.
  induction l as [| a | a b | a b c rest IH] using triples_ind.
  - reflexivity.
  - pose proof (N_ascii_bounded a). cbn [groups decode_groups].
    replace (N_of_ascii a / 4 * 4 + N_of_ascii a mod 4 * 16 / 16)
      with (N_of_ascii a) by lia.
    now rewrite ascii_N_embedding.
  - pose proof (N_ascii_bounded a). pose proof (N_ascii_bounded b).
    cbn [groups decode_groups].
    replace (N_of_ascii a / 4 * 4
             + (N_of_ascii a mod 4 * 16 + N_of_ascii b / 16) / 16)
      with (N_of_ascii a) by lia.
    replace ((N_of_ascii a mod 4 * 16 + N_of_ascii b / 16) mod 16 * 16
             + N_of_ascii b mod 16 * 4 / 4)
      with (N_of_ascii b) by lia.
    now rewrite !ascii_N_embedding.
  - pose proof (N_ascii_bounded a). pose proof (N_ascii_bounded b).
    pose proof (N_ascii_bounded c).
    change (groups (a :: b :: c :: rest))
      with (N_of_ascii a / 4
            :: (N_of_ascii a mod 4) * 16 + N_of_ascii b / 16
            :: (N_of_ascii b mod 16) * 4 + N_of_ascii c / 64
            :: N_of_ascii c mod 64 :: groups rest).
    cbn [decode_groups]. rewrite IH.
    replace (N_of_ascii a / 4 * 4
             + (N_of_ascii a mod 4 * 16 + N_of_ascii b / 16) / 16)
      with (N_of_ascii a) by lia.
    replace ((N_of_ascii a mod 4 * 16 + N_of_ascii b / 16) mod 16 * 16
             + (N_of_ascii b mod 16 * 4 + N_of_ascii c / 64) / 4)
      with (N_of_ascii b) by lia.
    replace ((N_of_ascii b mod 16 * 4 + N_of_ascii c / 64) mod 4 * 64
             + N_of_ascii c mod 64)
      with (N_of_ascii c) by lia.
    now rewrite !ascii_N_embedding.
Qed.

Lemma sextet_symbol n : n < 64 -> sextet (symbol n) = Some n.
Proof.
  intros Hn.
  assert (Htab : forallb (fun k => match sextet (symbol (N.of_nat k)) with
                                   | Some m => N.eqb m (N.of_nat k)
                                   | None => false
                                   end) (seq 0 64) = true)
    by (vm_compute; reflexivity).
  rewrite forallb_forall in Htab.
  specialize (Htab (N.to_nat n)).
  rewrite N2Nat.id in Htab.
  destruct (sextet (symbol n)) as [m|].
  - f_equal. apply N.eqb_eq, Htab, in_seq. lia.
  - discriminate Htab. apply in_seq. lia.
Qed.

Lemma sextets_symbols ns :
  Forall (fun n => n < 64) ns -> sextets (map symbol ns) = Some ns.
Proof.
  induction 1 as [|n ns Hn _ IH]; [reflexivity|].
  cbn [map sextets]. now rewrite (sextet_symbol n Hn), IH.
Qed.

Lemma urlSafe_chars_map l :
  urlSafe_chars l = strip_trailing_pad (map to_url l).
Proof. unfold urlSafe_chars, replace_char. now rewrite map_map. Qed.

Lemma fromUrlSafe_chars_map l :
  fromUrlSafe_chars l
  = map from_url l
      ++ repeat pad_char ((4 - List.length l mod 4) mod 4)%nat.
Proof.
  unfold fromUrlSafe_chars, replace_char.
  now rewrite map_map, length_map.
Qed.

Lemma alphabet_char c :
  in_alphabet c = true ->
  is_pad c = false /\ is_ascii_whitespace c = false
  /\ is_pad (to_url c) = false /\ from_url (to_url c) = c.
Proof.
  destruct c as [[] [] [] [] [] [] [] []]; vm_compute;
    intros H; try discriminate H; repeat split.
Qed.

Lemma symbol_in_alphabet n : n < 64 -> in_alphabet (symbol n) = true.
Proof. intros Hn. unfold in_alphabet. now rewrite sextet_symbol. Qed.

Lemma padding_cases l :
  padding l = [] \/ padding l = [pad_char]
  \/ padding l = [pad_char; pad_char].
Proof.
  induction l as [| a | a b | a b c rest IH] using triples_ind; cbn; auto.
Qed.

Lemma encode_length_mod4 l :
  ((List.length (groups l) + List.length (padding l)) mod 4 = 0)%nat.
Proof.
  induction l as [| a | a b | a b c rest IH] using triples_ind;
    try reflexivity.
  change (groups (a :: b :: c :: rest))
    with (N_of_ascii a / 4
          :: (N_of_ascii a mod 4) * 16 + N_of_ascii b / 16
          :: (N_of_ascii b mod 16) * 4 + N_of_ascii c / 64
          :: N_of_ascii c mod 64 :: groups rest).
  change (padding (a :: b :: c :: rest)) with (padding rest).
  cbn [List.length].
  replace (S (S (S (S (List.length (groups rest)))))
           + List.length (padding rest))%nat
    with (List.length (groups rest) + List.length (padding rest) + 1 * 4)%nat
    by lia.
  now rewrite Nat.Div0.mod_add.
Qed.

Lemma strip_trailing_pad_all l :
  Forall (fun c => is_pad c = true) l -> strip_trailing_pad l = [].
Proof.
  induction 1 as [|c l Hc _ IH]; [reflexivity|].
  cbn [strip_trailing_pad]. now rewrite IH, Hc.
Qed.

Lemma strip_trailing_pad_app body pad :
  Forall (fun c => is_pad c = false) body ->
  Forall (fun c => is_pad c = true) pad ->
  strip_trailing_pad (body ++ pad) = body.
Proof.
  intros Hbody Hpad.
  induction Hbody as [|c body Hc _ IH]; cbn [app].
  - now apply strip_trailing_pad_all.
  - cbn [strip_trailing_pad]. rewrite IH, Hc. now destruct body.
Qed.

Lemma padcount (lb lp : nat) :
  (lp <= 2)%nat -> ((lb + lp) mod 4 = 0)%nat ->
  ((4 - lb mod 4) mod 4 = lp)%nat.
Proof.
  intros Hle H.
  pose proof (Nat.mod_upper_bound lb 4 ltac:(lia)) as Hr.
  rewrite Nat.Div0.add_mod in H.
  rewrite (Nat.mod_small lp 4) in H by lia.
  remember (lb mod 4)%nat as r.
  destruct r as [|[|[|[|r]]]]; try lia;
  destruct lp as [|[|[|lp]]]; try lia; cbn in *; try discriminate;
    reflexivity.
Qed.

Lemma body_facts l :
  Forall (fun c => in_alphabet c = true) (map symbol (groups l)).
Proof.
  apply Forall_map.
  eapply Forall_impl; [|apply groups_bounded].
  intros n Hn. now apply symbol_in_alphabet.
Qed.

Lemma padding_is_pad l : Forall (fun c => is_pad c = true) (padding l).
Proof.
  destruct (padding_cases l) as [-> | [-> | ->]]; repeat constructor.
Qed.

Lemma padding_repeat l :
  padding l = repeat pad_char (List.length (padding l)).
Proof. destruct (padding_cases l) as [-> | [-> | ->]]; reflexivity. Qed.

Lemma padding_length l : (List.length (padding l) <= 2)%nat.
Proof. destruct (padding_cases l) as [-> | [-> | ->]]; cbn; lia. Qed.

Lemma remap_chars_reversible l :
  fromUrlSafe_chars (urlSafe_chars (encode l)) = encode l.
Proof.
  rewrite urlSafe_chars_map, encode_split, map_app.
  set (body := map symbol (groups l)).
  assert (Hbody : Forall (fun c => in_alphabet c = true) body)
    by apply body_facts.
  assert (Hpad : map to_url (padding l) = padding l).
  { destruct (padding_cases l) as [-> | [-> | ->]]; reflexivity. }
  rewrite Hpad, strip_trailing_pad_app.
  - rewrite fromUrlSafe_chars_map, map_map, length_map.
    f_equal.
    + transitivity (map (fun c : ascii => c) body); [|apply map_id].
      apply map_ext_Forall.
      eapply Forall_impl; [|exact Hbody].
      intros c Hc. now apply alphabet_char.
    + rewrite (padding_repeat l). f_equal.
      apply padcount; [apply padding_length|].
      unfold body. rewrite length_map. apply encode_length_mod4.
  - apply Forall_map. eapply Forall_impl; [|exact Hbody].
    intros c Hc. now apply alphabet_char.
  - apply padding_is_pad.
Qed.

Lemma strip_padding_encode l :
  strip_padding (encode l) = map symbol (groups l).
Proof.
  rewrite encode_split.
  set (body := map symbol (groups l)).
  assert (Hbody : Forall (fun c => is_pad c = false) body).
  { eapply Forall_impl; [|apply body_facts].
    intros c Hc. now apply alphabet_char. }
  pose proof (encode_length_mod4 l) as Hmod.
  rewrite <- (length_map symbol) in Hmod. fold body in Hmod.
  unfold strip_padding. rewrite length_app.
  replace (N.of_nat (List.length body + List.length (padding l)) mod 4 =? 0)
    with true.
  2:{ symmetry. apply N.eqb_eq.
      change 4 with (N.of_nat 4). rewrite <- Nat2N.inj_mod, Hmod.
      reflexivity. }
  rewrite rev_app_distr.
  assert (Hlast : forall q r, rev body = q :: r -> is_pad q = false).
  { intros q r Hrev. apply Forall_rev in Hbody. rewrite Hrev in Hbody.
    now inversion Hbody. }
  destruct (padding_cases l) as [Hp | [Hp | Hp]]; rewrite Hp in *;
    cbn [rev app List.length] in *.
  - rewrite app_nil_r.
    destruct (rev body) as [|p [|q r]] eqn:Hrev.
    + reflexivity.
    + now rewrite (Hlast _ _ eq_refl).
    + now rewrite (Hlast _ _ eq_refl).
  - destruct (rev body) as [|q r] eqn:Hrev.
    + apply (f_equal (@List.length ascii)) in Hrev.
      rewrite length_rev in Hrev. rewrite Hrev in Hmod. discriminate Hmod.
    + cbn [is_pad]. change (is_pad pad_char) with true. cbv iota.
      rewrite (Hlast _ _ eq_refl).
      change (rev r ++ [q]) with (rev (q :: r)).
      rewrite <- Hrev. apply rev_involutive.
  - change (is_pad pad_char) with true. cbv iota. apply rev_involutive.
Qed.

Lemma decode_encode l : decode (encode l) = Some l.
Proof.
  unfold decode.
  assert (Hnows : filter (fun c => negb (is_ascii_whitespace c)) (encode l)
                  = encode l).
  { apply forallb_filter_id. apply forallb_forall. intros c Hin.
    rewrite encode_split in Hin. apply in_app_or in Hin as [Hin | Hin].
    - pose proof (body_facts l) as Hb. rewrite Forall_forall in Hb.
      destruct (alphabet_char c (Hb _ Hin)) as (_ & Hws & _). now rewrite Hws.
    - destruct (padding_cases l) as [Hp | [Hp | Hp]]; rewrite Hp in Hin;
        cbn in Hin; intuition (subst; reflexivity). }
  rewrite Hnows, strip_padding_encode, length_map.
  pose proof (encode_length_mod4 l) as Hmod.
  pose proof (padding_length l) as Hpl.
  assert (Hne : (List.length (groups l) mod 4 <> 1)%nat).
  { intros H1. rewrite Nat.Div0.add_mod, H1 in Hmod.
    rewrite (Nat.mod_small (List.length (padding l)) 4) in Hmod by lia.
    destruct (List.length (padding l)) as [|[|[|n]]]; try lia;
      cbn in Hmod; discriminate. }
  replace (N.of_nat (List.length (groups l)) mod 4 =? 1) with false.
  2:{ symmetry. apply N.eqb_neq. intros H. apply Hne.
      change 4 with (N.of_nat 4) in H. rewrite <- Nat2N.inj_mod in H.
      change 1 with (N.of_nat 1) in H. now apply Nat2N.inj in H. }
  rewrite sextets_symbols by apply groups_bounded.
  cbn [option_map]. now rewrite decode_groups_groups.
Qed.

End Base64Facts.

(* ================================================================== *)
(** * Properties of the share links *)
(* ================================================================== *)

Lemma atob_btoa binaryStr : Base64.atob (Base64.btoa binaryStr) = Some binaryStr.
Proof.
  unfold Base64.atob, Base64.btoa.
  rewrite list_ascii_of_string_of_list_ascii, Base64Facts.decode_encode.
  cbn [option_map]. now rewrite string_of_list_ascii_of_string.
Qed.

Section CodecFacts.

Variable rt : Runtime.
Variable br : Browser.

(** Decoding what [encodePayload] made gives the compact object back, when
    [pako] and [JSON] are lossless on it. *)
Lemma decodePayload_encodePayload compact :
  lossless rt compact ->
  decodePayload rt (encodePayload rt compact) = Return compact.
Proof.
  intros [Hpako Hjson].
  unfold decodePayload, encodePayload.
  unfold Base64.fromUrlSafe, Base64.toUrlSafe.
  rewrite list_ascii_of_string_of_list_ascii.
  unfold Base64.btoa at 1. rewrite list_ascii_of_string_of_list_ascii.
  rewrite Base64Facts.remap_chars_reversible.
  fold (Base64.btoa (string_of_list_byte
                       (pako_deflate rt (JSON_stringify rt compact)))).
  rewrite atob_btoa. cbn [of_option cbind].
  rewrite list_byte_of_string_of_list_byte, Hpako. cbn [of_option cbind].
  now rewrite Hjson.
Qed.

End CodecFacts.

(** C8: the URL-safe remap of a [btoa] result is undone exactly by the
    reverse remap and re-padding of the loader. *)
Theorem urlsafe_remap_reversible (binaryStr : string) :
  Base64.fromUrlSafe (Base64.toUrlSafe (Base64.btoa binaryStr))
  = Base64.btoa binaryStr.
Proof.
  unfold Base64.fromUrlSafe, Base64.toUrlSafe, Base64.btoa.
  rewrite !list_ascii_of_string_of_list_ascii.
  now rewrite Base64Facts.remap_chars_reversible.
Qed.

Lemma transmitted_app evs evs' :
  transmitted (evs ++ evs') = transmitted evs ++ transmitted evs'.
Proof.
  induction evs as [|e evs IH]; [reflexivity|].
  destruct e; cbn; now rewrite IH.
Qed.

(** C4: a share URL of more than 8000 characters is refused with the
    "URL is too long" alert and nothing is put on the clipboard, for a
    video and for a playlist; what is put on the clipboard is always the
    whole URL. *)
Theorem size_boundary (rt : Runtime) (br : Browser) :
  (forall st,
      truthy (videoId st) || truthy (localVideoUrl st) = true ->
      (8000 < Z.of_nat (String.length (shareUrl rt br st)))%Z ->
      handleShare rt br st
      = [Alert ("URL is too long ("
                ++ string_of_nat (String.length (shareUrl rt br st))
                ++ " chars). Try reducing notes or annotations, or use Export instead.")]
      /\ transmitted (handleShare rt br st) = [])
  /\ (forall data playlist,
      Playlist.items playlist <> [] ->
      (8000 < Z.of_nat (String.length (playlistShareUrl rt br data playlist)))%Z ->
      In (Alert ("URL is too long ("
                 ++ string_of_nat
                      (String.length (playlistShareUrl rt br data playlist))
                 ++ " chars). Try reducing the number of videos in the playlist."))
         (handleSharePlaylist rt br data playlist)
      /\ transmitted (handleSharePlaylist rt br data playlist) = [])
  /\ (forall st text,
      In text (transmitted (handleShare rt br st)) ->
      text = shareUrl rt br st
      /\ (Z.of_nat (String.length text) <= 8000)%Z)
  /\ (forall data playlist text,
      In text (transmitted (handleSharePlaylist rt br data playlist)) ->
      text = playlistShareUrl rt br data playlist
      /\ (Z.of_nat (String.length text) <= 8000)%Z).
Proof.
  repeat split.
  - unfold handleShare.
    destruct (truthy (videoId st)), (truthy (localVideoUrl st));
      try discriminate; cbn [negb andb];
      (apply Z.ltb_lt in H0; now rewrite H0).
  - unfold handleShare.
    destruct (truthy (videoId st)), (truthy (localVideoUrl st));
      try discriminate; cbn [negb andb];
      (apply Z.ltb_lt in H0; now rewrite H0).
  - unfold handleSharePlaylist.
    destruct (Playlist.items playlist) as [|item items]; [congruence|].
    apply Z.ltb_lt in H0. rewrite H0.
    apply in_or_app. right. now left.
  - unfold handleSharePlaylist.
    destruct (Playlist.items playlist) as [|item items]; [congruence|].
    apply Z.ltb_lt in H0. rewrite H0.
    now destruct (existsb _ _).
  - revert H. unfold handleShare.
    destruct (negb (truthy (videoId st)) && negb (truthy (localVideoUrl st)));
      [cbn; tauto|].
    destruct (8000 <? _)%Z; [cbn; tauto|].
    destruct (clipboardAllowed br); cbn; intuition.
  - revert H. unfold handleShare.
    destruct (negb (truthy (videoId st)) && negb (truthy (localVideoUrl st)));
      [cbn; tauto|].
    destruct (8000 <? _)%Z eqn:Hlen; [cbn; tauto|].
    apply Z.ltb_ge in Hlen.
    destruct (clipboardAllowed br); cbn; [|tauto].
    intros [<- | []]. exact Hlen.
  - revert H. unfold handleSharePlaylist.
    destruct (Playlist.items playlist) as [|item items]; [cbn; tauto|].
    rewrite transmitted_app.
    assert (Hnote : forall b : bool,
               transmitted (if b then [Alert "Note: Local video files cannot be shared via URL. Recipients will need to link their own video files."] else []) = [])
      by (intros []; reflexivity).
    rewrite Hnote. cbn [app].
    destruct (8000 <? _)%Z; [cbn; tauto|].
    destruct (clipboardAllowed br); cbn; intuition.
  - revert H. unfold handleSharePlaylist.
    destruct (Playlist.items playlist) as [|item items]; [cbn; tauto|].
    rewrite transmitted_app.
    assert (Hnote : forall b : bool,
               transmitted (if b then [Alert "Note: Local video files cannot be shared via URL. Recipients will need to link their own video files."] else []) = [])
      by (intros []; reflexivity).
    rewrite Hnote. cbn [app].
    destruct (8000 <? _)%Z eqn:Hlen; [cbn; tauto|].
    apply Z.ltb_ge in Hlen.
    destruct (clipboardAllowed br); cbn; [|tauto].
    intros [<- | []]. exact Hlen.
Qed.

Lemma size_boundary_witness :
  let rt := Demo.runtime VNull in
  let br := Demo.browser 0 in
  handleShare rt br longNotes
  = [Alert ("URL is too long ("
            ++ string_of_nat (String.length (shareUrl rt br longNotes))
            ++ " chars). Try reducing notes or annotations, or use Export instead.")]
  /\ transmitted (handleShare rt br longNotes) = [].
Proof.
  intros rt br.
  apply (proj1 (size_boundary rt br) longNotes).
  - reflexivity.
  - vm_compute. reflexivity.
Defined.

Lemma compactPlaylistItem_local_url item item' :
  sameUpToLocalUrl item item' ->
  compactPlaylistItem item' = compactPlaylistItem item
  /\ PlaylistItem.isLocalFile item' = PlaylistItem.isLocalFile item.
Proof.
  intros [-> | [Hlocal [u ->]]]; [split; reflexivity|].
  unfold compactPlaylistItem, withItemUrl. cbn.
  now rewrite Hlocal.
Qed.

Lemma compactPlaylistItems_local_url items items' :
  Forall2 sameUpToLocalUrl items items' ->
  map compactPlaylistItem items' = map compactPlaylistItem items
  /\ existsb (fun item => truthy (PlaylistItem.isLocalFile item)) items'
     = existsb (fun item => truthy (PlaylistItem.isLocalFile item)) items.
Proof.
  induction 1 as [|item item' items items' Hitem _ [IHmap IHex]];
    [split; reflexivity|].
  destruct (compactPlaylistItem_local_url _ _ Hitem) as [Hc Hl].
  cbn [map existsb]. now rewrite Hc, Hl, IHmap, IHex.
Qed.

(** C5: the [url] of a local-file entry does not reach the link: playlists
    that differ only there give the same compact object and the same
    events; the entry goes out with an empty [u] and with its
    [localFileName] as [f]. *)
Theorem local_file_url_not_shared (rt : Runtime) (br : Browser)
  (data : AppData.t) (playlist : Playlist.t) (items' : list PlaylistItem.t) :
  Forall2 sameUpToLocalUrl (Playlist.items playlist) items' ->
  compactPlaylistData data (withItems items' playlist)
  = compactPlaylistData data playlist
  /\ handleSharePlaylist rt br data (withItems items' playlist)
     = handleSharePlaylist rt br data playlist
  /\ Forall (fun item =>
               truthy (PlaylistItem.isLocalFile item) = true ->
               field (compactPlaylistItem item) "u" = VStr ""
               /\ field (compactPlaylistItem item) "l" = VBool true
               /\ field (compactPlaylistItem item) "f"
                  = PlaylistItem.localFileName item)
            items'.
Proof.
  intros Hsame.
  destruct (compactPlaylistItems_local_url _ _ Hsame) as [Hmap Hex].
  assert (Hcompact : compactPlaylistData data (withItems items' playlist)
                     = compactPlaylistData data playlist).
  { unfold compactPlaylistData, withItems. cbn. now rewrite Hmap. }
  split; [exact Hcompact|]. split.
  - unfold handleSharePlaylist, playlistShareUrl. rewrite Hcompact.
    cbn [withItems Playlist.items]. rewrite Hex.
    destruct Hsame; reflexivity.
  - apply Forall_forall. intros item _ Hlocal.
    unfold field, compactPlaylistItem. cbn. rewrite Hlocal. cbn. auto.
Qed.

Lemma local_file_url_not_shared_witness :
  let rt := Demo.runtime VNull in
  let br := Demo.browser 0 in
  let items' := [streamClip; withItemUrl (VStr "blob:https://other.example/77") localClip] in
  compactPlaylistData Demo.noData (withItems items' mixedPlaylist)
  = compactPlaylistData Demo.noData mixedPlaylist
  /\ handleSharePlaylist rt br Demo.noData (withItems items' mixedPlaylist)
     = handleSharePlaylist rt br Demo.noData mixedPlaylist
  /\ Forall (fun item =>
               truthy (PlaylistItem.isLocalFile item) = true ->
               field (compactPlaylistItem item) "u" = VStr ""
               /\ field (compactPlaylistItem item) "l" = VBool true
               /\ field (compactPlaylistItem item) "f"
                  = PlaylistItem.localFileName item)
            items'.
Proof.
  intros rt br items'.
  apply (local_file_url_not_shared rt br Demo.noData mixedPlaylist).
  constructor; [left; reflexivity|].
  constructor; [|constructor].
  right. split; [reflexivity|]. now eexists.
Defined.

(** C9: when a streaming video is selected the [t] of the compact object is
    ['Shared Video'] and the object is made of [videoId], [generalNotes]
    and [annotations] alone, whatever [videoTitle], [fetchedVideoTitle]
    and [currentVideo] hold; a [t] other than ['Shared Video'] is the
    [localVideoName]. *)
Theorem streaming_share_title (st : AppState) :
  (streamingSelected st ->
   field (compactShareData st) "t" = VStr "Shared Video"
   /\ field (compactShareData st) "l" = VUndefined
   /\ compactShareData st
      = VObj [("v", videoId st);
              ("t", VStr "Shared Video");
              ("g", generalNotes st);
              ("a", VArr (map compactAnnotation (annotations st)))])
  /\ (field (compactShareData st) "t" <> VStr "Shared Video" ->
      field (compactShareData st) "t" = localVideoName st
      /\ truthy (localVideoName st) = true).
Proof.
  unfold field, compactShareData. cbn. split.
  - intros (Hid & Hurl & Hname). rewrite Hurl, Hname. cbn.
    unfold JS.or. rewrite Hid. auto.
  - unfold JS.or. destruct (truthy (localVideoName st)); [auto|congruence].
Qed.

Lemma streaming_share_title_witness :
  field (compactShareData demoSession) "t" = VStr "Shared Video"
  /\ field (compactShareData demoSession) "l" = VUndefined
  /\ compactShareData demoSession
     = VObj [("v", videoId demoSession);
             ("t", VStr "Shared Video");
             ("g", generalNotes demoSession);
             ("a", VArr (map compactAnnotation (annotations demoSession)))].
Proof.
  apply (proj1 (streaming_share_title demoSession)).
  repeat split.
Defined.

(** ** The annotations of a link *)

Lemma field_of_get o k v : get o k = Return v -> field o k = v.
Proof. unfold field. now intros ->. Qed.

Lemma cbind_Return_inv {A B} (c : completion A) (k : A -> completion B) b :
  cbind c k = Return b -> exists a, c = Return a /\ k a = Return b.
Proof. destruct c as [a|e]; [eauto | discriminate]. Qed.

Lemma mapi_from_annotations entries : forall idx anns,
  mapi_from (fun ann idx =>
    cbind (get ann "t") (fun t =>
    cbind (get ann "n") (fun n =>
    cbind (get ann "d") (fun d =>
    Return {| Annotation.id := "shared_" ++ string_of_nat idx;
              Annotation.timestamp := t;
              Annotation.title := n;
              Annotation.description := d |})))) idx entries = Return anns ->
  map marker anns
  = map wireEntry entries
  /\ map Annotation.id anns
     = map annotationId (seq idx (List.length entries)).
Proof.
  induction entries as [|e entries IH]; intros idx anns H.
  - cbn in H. injection H as <-. split; reflexivity.
  - cbn [mapi_from] in H.
    apply cbind_Return_inv in H as (ann & Hann & H).
    apply cbind_Return_inv in H as (rest & Hrest & H).
    injection H as <-.
    apply cbind_Return_inv in Hann as (t & Ht & Hann).
    apply cbind_Return_inv in Hann as (n & Hn & Hann).
    apply cbind_Return_inv in Hann as (d & Hd & Hann).
    injection Hann as <-.
    destruct (IH _ _ Hrest) as [IHm IHi].
    cbn [map seq List.length]. split.
    + rewrite IHm. f_equal. unfold marker, wireEntry, field. cbn.
      now rewrite Ht, Hn, Hd.
    + now rewrite IHi.
Qed.

Lemma sharedAnnotations_inv a anns :
  sharedAnnotations a = Return anns ->
  exists entries,
    a = VArr entries
    /\ map marker anns
       = map wireEntry entries
    /\ map Annotation.id anns
       = map annotationId (seq 0 (List.length entries)).
Proof.
  unfold sharedAnnotations, call_map.
  destruct a; try discriminate.
  intros H. exists elems. split; [reflexivity|].
  now apply mapi_from_annotations.
Qed.

(** What [applySharedData] leaves in [annotations] when it returns. *)
Lemma applySharedData_annotations rt br compactData w w' :
  applySharedData rt br compactData w = (w', Return tt) ->
  exists a, get compactData "a" = Return a
            /\ sharedAnnotations a = Return (annotations (state w')).
Proof.
  unfold applySharedData, bind, lift, setGeneralNotes, setAnnotations,
    setState, emit.
  destruct (get compactData "g") as [g|]; [|discriminate].
  destruct (get compactData "a") as [a|]; [|discriminate].
  destruct (sharedAnnotations a) as [anns|] eqn:Hanns; [|discriminate].
  destruct (get compactData "l") as [l|]; [|discriminate].
  destruct (truthy l).
  - unfold dateNow, setLocalVideoName, setVideoId, setVideoUrl,
      setLocalVideoUrl, setLocalVideosToLink, setCurrentLinkingVideo,
      setLinkedLocalVideos, setShowImportModal, setState. cbn.
    destruct (get compactData "t") as [t|]; [|discriminate].
    intros H. injection H as <-. cbn. eauto.
  - unfold setLocalVideoName, setVideoId, setVideoUrl,
      setLocalVideoUrl, setState. cbn.
    destruct (get compactData "v") as [v|]; [|discriminate].
    intros H. injection H as <-. cbn. eauto.
Qed.

Lemma StronglySorted_map {A B} (R : B -> B -> Prop) (f : A -> B) l :
  StronglySorted (fun a b => R (f a) (f b)) l
  <-> StronglySorted R (map f l).
Proof.
  induction l as [|x l IH]; cbn [map].
  - split; constructor.
  - split; intros H.
    + inversion H as [|? ? Hs Hall]; subst. constructor.
      * now apply IH.
      * exact (proj2 (Forall_map _ _ _) Hall).
    + inversion H as [|? ? Hs Hall]; subst. constructor.
      * now apply IH.
      * exact (proj1 (Forall_map _ _ _) Hall).
Qed.

Lemma marker_times anns entries :
  map marker anns = map wireEntry entries ->
  map Annotation.timestamp anns = map (fun e => field e "t") entries.
Proof.
  intros H.
  apply (f_equal (map (fun m : value * value * value => fst (fst m)))) in H.
  now rewrite !map_map in H.
Qed.

(** C3 (as the code has it): the loader keeps the annotations in the order
    of the link; they are ascending in time exactly when the link has them
    so. *)
Theorem shared_markers_keep_wire_order (rt : Runtime) (br : Browser)
  (compactData : value) (w w' : World) :
  applySharedData rt br compactData w = (w', Return tt) ->
  exists entries,
    get compactData "a" = Return (VArr entries)
    /\ map marker (annotations (state w')) = map wireEntry entries
    /\ (chronological (annotations (state w'))
        <-> StronglySorted time_le (map (fun e => field e "t") entries)).
Proof.
  intros H.
  apply applySharedData_annotations in H as (a & Ha & Hanns).
  apply sharedAnnotations_inv in Hanns as (entries & -> & Hm & _).
  exists entries. repeat split; try assumption.
  - intros Hc. apply StronglySorted_map in Hc.
    now rewrite (marker_times _ _ Hm) in Hc.
  - intros Hs. apply StronglySorted_map.
    now rewrite (marker_times _ _ Hm).
Qed.

Lemma shared_markers_keep_wire_order_witness :
  let rt := Demo.runtime swappedMarkers in
  let br := Demo.browser 0 in
  let w' := fst (applySharedData rt br swappedMarkers Demo.mountWorld) in
  exists entries,
    get swappedMarkers "a" = Return (VArr entries)
    /\ map marker (annotations (state w')) = map wireEntry entries
    /\ (chronological (annotations (state w'))
        <-> StronglySorted time_le (map (fun e => field e "t") entries)).
Proof.
  intros rt br w'.
  apply (shared_markers_keep_wire_order rt br swappedMarkers Demo.mountWorld).
  reflexivity.
Defined.

(** C3 as stated fails: a link whose annotations are at 90 s and then 12 s
    loads them in that order. *)
Lemma marker_reordering_counterexample :
  let rt := Demo.runtime swappedMarkers in
  let br := Demo.browser 0 in
  let w' := fst (loadSharedData rt br (encodePayload rt swappedMarkers)
                   Demo.mountWorld) in
  events w' = [HistoryReplaceState "/"]
  /\ map Annotation.timestamp (annotations (state w'))
     = [Demo.seconds 90; Demo.seconds 12]
  /\ ~ chronological (annotations (state w')).
Proof.
  intros rt br w'. split; [reflexivity|]. split; [reflexivity|].
  intros H. apply StronglySorted_map with (f := Annotation.timestamp) in H.
  change (StronglySorted time_le [Demo.seconds 90; Demo.seconds 12]) in H.
  inversion H as [|? ? _ Hall]; subst.
  inversion Hall as [|? ? Hle _]; subst.
  cbv in Hle. now apply Hle.
Qed.

Lemma wireEntry_compactAnnotation ann :
  wireEntry (compactAnnotation ann) = wireMarker ann.
Proof.
  unfold wireEntry, wireMarker, compactAnnotation, field.
  destruct (truthy (Annotation.description ann)); reflexivity.
Qed.

Lemma sharedAnnotations_compact anns :
  exists shared,
    sharedAnnotations (VArr (map compactAnnotation anns)) = Return shared.
Proof.
  unfold sharedAnnotations, call_map. generalize 0%nat.
  induction anns as [|ann anns IH]; intros idx; [now eexists|].
  destruct (IH (S idx)) as [rest Hrest].
  cbn [map mapi_from]. rewrite Hrest.
  unfold compactAnnotation at 1 2 3. cbn. now eexists.
Qed.

Lemma get_compactShareData st :
  get (compactShareData st) "g" = Return (generalNotes st)
  /\ get (compactShareData st) "a"
     = Return (VArr (map compactAnnotation (annotations st)))
  /\ get (compactShareData st) "t"
     = Return (JS.or (localVideoName st) (VStr "Shared Video"))
  /\ get (compactShareData st) "v" = Return (JS.or (videoId st) (VStr ""))
  /\ get (compactShareData st) "l"
     = Return (if truthy (localVideoUrl st) then VBool true else VUndefined).
Proof.
  unfold compactShareData. cbn.
  destruct (truthy (localVideoUrl st)); repeat split.
Qed.

(** Loading the compact object of a state. *)
Lemma applySharedData_compact rt br st w :
  exists shared,
    sharedAnnotations (VArr (map compactAnnotation (annotations st)))
    = Return shared
    /\ applySharedData rt br (compactShareData st) w
       = (if truthy (localVideoUrl st) then
            let name := JS.or (localVideoName st) (VStr "Shared Video") in
            let sharedVideo :=
              {| SavedVideo.id :=
                   "shared_" ++ string_of_Z (Date_now br (clockReads w));
                 SavedVideo.videoId := VStr "";
                 SavedVideo.title := name;
                 SavedVideo.url := VStr "";
                 SavedVideo.generalNotes := generalNotes st;
                 SavedVideo.annotations := shared;
                 SavedVideo.createdAt := Date_now br (S (clockReads w));
                 SavedVideo.isLocalFile := VBool true;
                 SavedVideo.localFileName := name |} in
            ({| state :=
                  with_showImportModal true
                    (with_linkedLocalVideos []
                       (with_currentLinkingVideo (Some sharedVideo)
                          (with_localVideosToLink [sharedVideo]
                             (with_localVideoUrl VNull
                                (with_videoUrl (VStr "")
                                   (with_videoId VNull
                                      (with_localVideoName name
                                         (with_annotations shared
                                            (with_generalNotes
                                               (generalNotes st)
                                               (state w))))))))));
                clockReads := S (S (clockReads w));
                events := events w ++ [HistoryReplaceState (pathname br)] |},
             Return tt)
          else
            let v := JS.or (videoId st) (VStr "") in
            ({| state :=
                  with_localVideoName (VStr "")
                    (with_localVideoUrl VNull
                       (with_videoUrl
                          (VStr ("https://youtube.com/watch?v="
                                 ++ ToString rt v))
                          (with_videoId v
                             (with_annotations shared
                                (with_generalNotes (generalNotes st)
                                   (state w))))));
                clockReads := clockReads w;
                events := events w ++ [HistoryReplaceState (pathname br)] |},
             Return tt)).
Proof.
  destruct (sharedAnnotations_compact (annotations st)) as [shared Hshared].
  exists shared. split; [exact Hshared|].
  destruct (get_compactShareData st) as (Hg & Ha & Ht & Hv & Hl).
  unfold applySharedData, bind, lift.
  rewrite Hg. cbn [setGeneralNotes setState].
  rewrite Ha, Hshared. cbn [setAnnotations setState].
  rewrite Hl.
  destruct (truthy (localVideoUrl st)); cbn [truthy].
  - unfold dateNow.
    repeat (cbv beta iota; rewrite ?Ht, ?Hg, ?Ha, ?Hshared).
    reflexivity.
  - rewrite Hv. reflexivity.
Qed.

Lemma transmitted_handleShare rt br st url :
  In url (transmitted (handleShare rt br st)) ->
  url = shareUrl rt br st
  /\ truthy (videoId st) || truthy (localVideoUrl st) = true.
Proof.
  unfold handleShare.
  destruct (truthy (videoId st)), (truthy (localVideoUrl st));
    cbn [negb andb orb]; try (cbn; tauto);
    (destruct (8000 <? _)%Z; [cbn; tauto|]);
    (destruct (clipboardAllowed br); cbn; [|tauto]);
    intros [<- | []]; auto.
Qed.

(** C1 (as the code has it): the link that [handleShare] put on the
    clipboard loads without error, with the notes, with the annotations in
    the same order (time, title and description kept, an empty description
    dropped, identifiers renumbered), and with the local-file flag. A
    local file comes back under its name, or as 'Shared Video' when it has
    none; for a streaming video no title is carried: the name is reset
    and the titles of the receiving page stay. *)
Theorem share_link_round_trip (rt : Runtime) (br : Browser)
  (S : AppState) (w : World) (url : string) :
  In url (transmitted (handleShare rt br S)) ->
  lossless rt (compactShareData S) ->
  exists data w',
    url = (origin br ++ pathname br ++ "?d=" ++ data)%string
    /\ loadSharedData rt br data w = (w', Return tt)
    /\ events w' = events w ++ [HistoryReplaceState (pathname br)]
    /\ generalNotes (state w') = generalNotes S
    /\ map marker (annotations (state w')) = map wireMarker (annotations S)
    /\ map Annotation.id (annotations (state w'))
       = map annotationId (seq 0 (List.length (annotations S)))
    /\ (chronological (annotations (state w'))
        <-> chronological (annotations S))
    /\ (if truthy (localVideoUrl S) then
          localVideoName (state w')
          = JS.or (localVideoName S) (VStr "Shared Video")
          /\ videoId (state w') = VNull
          /\ localVideoUrl (state w') = VNull
          /\ showImportModal (state w') = true
          /\ exists pending,
               localVideosToLink (state w') = [pending]
               /\ currentLinkingVideo (state w') = Some pending
               /\ SavedVideo.isLocalFile pending = VBool true
               /\ SavedVideo.title pending
                  = JS.or (localVideoName S) (VStr "Shared Video")
               /\ SavedVideo.generalNotes pending = generalNotes S
               /\ SavedVideo.annotations pending = annotations (state w')
        else
          videoId (state w') = videoId S
          /\ localVideoName (state w') = VStr ""
          /\ localVideoUrl (state w') = VNull
          /\ localVideosToLink (state w') = localVideosToLink (state w)
          /\ currentVideo (state w') = currentVideo (state w)
          /\ videoTitle (state w') = videoTitle (state w)
          /\ fetchedVideoTitle (state w') = fetchedVideoTitle (state w)).
Proof.
  intros Hurl Hlossless.
  apply transmitted_handleShare in Hurl as [-> Hguard].
  destruct (applySharedData_compact rt br S w) as (shared & Hshared & Happly).
  apply sharedAnnotations_inv in Hshared as (entries & Hentries & Hm & Hid).
  injection Hentries as <-.
  rewrite map_map in Hm. rewrite length_map in Hid.
  rewrite (map_ext _ _ wireEntry_compactAnnotation) in Hm.
  exists (encodePayload rt (compactShareData S)).
  unfold loadSharedData, tryCatch, bind, lift.
  rewrite (decodePayload_encodePayload rt _ Hlossless), Happly.
  assert (Horder : chronological shared <-> chronological (annotations S)).
  { unfold chronological.
    rewrite (StronglySorted_map time_le Annotation.timestamp shared).
    rewrite (StronglySorted_map time_le Annotation.timestamp (annotations S)).
    assert (Htimes : map Annotation.timestamp shared
                     = map Annotation.timestamp (annotations S)).
    { apply (f_equal (map (fun m : value * value * value => fst (fst m))))
        in Hm.
      rewrite !map_map in Hm. exact Hm. }
    now rewrite Htimes. }
  destruct (truthy (localVideoUrl S)) eqn:Hlocal.
  - eexists. split; [reflexivity|]. split; [reflexivity|].
    cbn. repeat split; try assumption; try apply Horder.
    eexists. repeat split.
  - eexists. split; [reflexivity|]. split; [reflexivity|].
    cbn. repeat split; try assumption; try apply Horder.
    rewrite orb_false_r in Hguard. unfold JS.or. now rewrite Hguard.
Qed.

Lemma share_link_round_trip_witness :
  let rt := Demo.runtime (compactShareData demoSession) in
  let br := Demo.browser 1700000000000 in
  exists data w',
    shareUrl rt br demoSession
      = (origin br ++ pathname br ++ "?d=" ++ data)%string
    /\ loadSharedData rt br data Demo.mountWorld = (w', Return tt)
    /\ events w' = [HistoryReplaceState (pathname br)]
    /\ generalNotes (state w') = generalNotes demoSession
    /\ map marker (annotations (state w'))
       = map wireMarker (annotations demoSession)
    /\ map Annotation.id (annotations (state w')) = [annotationId 0].
Proof.
  intros rt br.
  destruct (share_link_round_trip rt br demoSession Demo.mountWorld
              (shareUrl rt br demoSession))
    as (data & w' & H1 & H2 & H3 & H4 & H5 & H6 & _).
  - vm_compute. left. reflexivity.
  - split; reflexivity.
  - exists data, w'. repeat split; assumption.
Defined.

(** C1 as stated fails on the title: the video called "Demo" is shared and
    loaded without error, and the page that loaded the link has no title
    for it. *)
Lemma round_trip_title_counterexample :
  let rt := Demo.runtime (compactShareData demoSession) in
  let br := Demo.browser 1700000000000 in
  let data := encodePayload rt (compactShareData demoSession) in
  let w' := fst (loadSharedData rt br data Demo.mountWorld) in
  lossless rt (compactShareData demoSession)
  /\ transmitted (handleShare rt br demoSession)
     = [(origin br ++ pathname br ++ "?d=" ++ data)%string]
  /\ events w' = [HistoryReplaceState (pathname br)]
  /\ currentTitle demoSession = VStr "Demo"
  /\ videoTitle demoSession = VStr "Demo"
  /\ field (compactShareData demoSession) "t" = VStr "Shared Video"
  /\ currentTitle (state w') = VStr "Untitled Video"
  /\ videoTitle (state w') = VStr ""
  /\ localVideoName (state w') = VStr "".
Proof.
  intros rt br data w'. repeat split; vm_compute; reflexivity.
Qed.

(** ** The playlist of a link *)

Lemma sharedItems_compact items : forall idx,
  mapi_from (fun item idx =>
    cbind (get item "v") (fun v =>
    cbind (get item "u") (fun u =>
    cbind (get item "t") (fun t =>
    cbind (get item "l") (fun l =>
    cbind (get item "f") (fun f =>
    Return {| PlaylistItem.id := "item_" ++ string_of_nat idx;
              PlaylistItem.videoId := v;
              PlaylistItem.url := u;
              PlaylistItem.title := t;
              PlaylistItem.isLocalFile := l;
              PlaylistItem.localFileName := f |}))))))
    idx (map compactPlaylistItem items)
  = Return (sharedItemsFrom idx items).
Proof.
  induction items as [|item items IH]; intros idx; [reflexivity|].
  cbn [map mapi_from sharedItemsFrom]. rewrite IH.
  unfold compactPlaylistItem at 1 2 3 4 5, sharedItem.
  destruct (truthy (PlaylistItem.isLocalFile item)); reflexivity.
Qed.

Lemma get_compactPlaylistData data playlist :
  get (compactPlaylistData data playlist) "n" = Return (Playlist.name playlist)
  /\ get (compactPlaylistData data playlist) "i"
     = Return (VArr (map compactPlaylistItem (Playlist.items playlist)))
  /\ get (compactPlaylistData data playlist) "lp"
     = Return (Playlist.loop playlist)
  /\ get (compactPlaylistData data playlist) "sr"
     = Return (sharedFlag (Playlist.startRandom playlist))
  /\ get (compactPlaylistData data playlist) "rt"
     = Return (sharedFlag (Playlist.randomTime playlist))
  /\ hasOwn (compactPlaylistData data playlist) "sr"
     = truthy (Playlist.startRandom playlist)
  /\ hasOwn (compactPlaylistData data playlist) "rt"
     = truthy (Playlist.randomTime playlist).
Proof.
  unfold compactPlaylistData, sharedFlag, hasOwn.
  destruct (truthy (Playlist.startRandom playlist)),
    (truthy (Playlist.randomTime playlist)),
    (AppData.ambientSounds data) as [[|sound sounds]|];
    repeat split.
Qed.

(** The playlist object the loader builds from the compact object of a
    playlist. *)
Lemma sharedPlaylistOf_compact br data playlist w :
  sharedPlaylistOf br (compactPlaylistData data playlist) w
  = ({| state := state w;
        clockReads := S (S (clockReads w));
        events := events w |},
     Return {| Playlist.id :=
                 "shared_" ++ string_of_Z (Date_now br (clockReads w));
               Playlist.name := Playlist.name playlist;
               Playlist.items := sharedItemsFrom 0 (Playlist.items playlist);
               Playlist.createdAt := Date_now br (S (clockReads w));
               Playlist.loop := Playlist.loop playlist;
               Playlist.startRandom :=
                 sharedFlag (Playlist.startRandom playlist);
               Playlist.randomTime :=
                 sharedFlag (Playlist.randomTime playlist) |}).
Proof.
  destruct (get_compactPlaylistData data playlist)
    as (Hn & Hi & Hlp & Hsr & Hrt & _).
  unfold sharedPlaylistOf, bind, lift, dateNow, ret. cbv beta iota.
  rewrite Hn, Hi. unfold sharedItems, call_map.
  rewrite sharedItems_compact. cbv beta iota.
  now rewrite Hlp, Hsr, Hrt.
Qed.

(** C6 (as the code has it): a falsy [startRandom], [randomTime] or local
    flag leaves no [sr], [rt] or [l] key in the compact object, and the
    loader reads the missing key as [undefined], which is falsy; a flag
    that was [false] comes back [undefined], a truthy one comes back
    [true]. *)
Theorem falsy_flags_come_back_undefined (br : Browser) (data : AppData.t)
  (playlist : Playlist.t) (st : AppState) (w : World) :
  hasOwn (compactPlaylistData data playlist) "sr"
  = truthy (Playlist.startRandom playlist)
  /\ hasOwn (compactPlaylistData data playlist) "rt"
     = truthy (Playlist.randomTime playlist)
  /\ hasOwn (compactShareData st) "l" = truthy (localVideoUrl st)
  /\ exists w' shared,
       sharedPlaylistOf br (compactPlaylistData data playlist) w
       = (w', Return shared)
       /\ Playlist.startRandom shared
          = (if truthy (Playlist.startRandom playlist)
             then VBool true else VUndefined)
       /\ Playlist.randomTime shared
          = (if truthy (Playlist.randomTime playlist)
             then VBool true else VUndefined)
       /\ truthy (Playlist.startRandom shared)
          = truthy (Playlist.startRandom playlist)
       /\ truthy (Playlist.randomTime shared)
          = truthy (Playlist.randomTime playlist).
Proof.
  destruct (get_compactPlaylistData data playlist)
    as (_ & _ & _ & _ & _ & Hsr & Hrt).
  split; [exact Hsr|]. split; [exact Hrt|]. split.
  - unfold compactShareData, hasOwn.
    destruct (truthy (localVideoUrl st)); reflexivity.
  - rewrite sharedPlaylistOf_compact. do 2 eexists.
    split; [reflexivity|]. cbn. unfold sharedFlag.
    destruct (truthy (Playlist.startRandom playlist)),
      (truthy (Playlist.randomTime playlist)); repeat split.
Qed.

(** C6 as stated fails: a playlist whose [startRandom] is [false] is
    shared without [sr] and loaded with [startRandom] [undefined], not
    [false]. *)
Lemma start_random_false_counterexample :
  let compact := compactPlaylistData Demo.noData mixedPlaylist in
  let rt := Demo.runtime compact in
  let br := Demo.browser 1700000000000 in
  let w' := fst (loadSharedPlaylist rt br (encodePayload rt compact)
                   Demo.mountWorld) in
  Playlist.startRandom mixedPlaylist = VBool false
  /\ hasOwn compact "sr" = false
  /\ events w'
     = [Alert "This playlist contains 1 local video(s). You'll need to link them to files on your computer.";
        HistoryReplaceState "/"]
  /\ option_map Playlist.startRandom (activePlaylist (state w'))
     = Some VUndefined
  /\ option_map Playlist.startRandom (activePlaylist (state w'))
     <> Some (VBool false).
Proof.
  intros compact rt br w'.
  repeat split; try (vm_compute; reflexivity).
  vm_compute. discriminate.
Qed.

(** ** Steps that leave the state variables alone *)

Lemma sharedPlaylistOf_state br compactPlaylist w w' r :
  sharedPlaylistOf br compactPlaylist w = (w', r) ->
  state w' = state w /\ events w' = events w.
Proof.
  unfold sharedPlaylistOf, bind, lift, dateNow, ret. cbv beta iota.
  repeat match goal with
         | |- context [match ?c with Return _ => _ | Throw _ => _ end] =>
             destruct c
         end;
    intros H; injection H as <- _; split; reflexivity.
Qed.

Lemma gt_zero_of_nat rt n : gt_zero rt (of_nat n) = (0 <? n)%nat.
Proof.
  unfold gt_zero, of_nat, ToNumber.
  destruct (Qlt_le_dec 0 (inject_Z (Z.of_nat n))) as [Hlt | Hle];
    unfold Qlt, Qle in *; cbn in *; destruct n; cbn; try reflexivity; lia.
Qed.

Lemma ambient_tracks br sounds : forall idx w w' r,
  mapi_eff_from (fun sound idx =>
    now <- dateNow br ;;
    v <- lift (get sound "v") ;;
    t <- lift (get sound "t") ;;
    ret {| AmbientSound.id :=
             "ambient_" ++ string_of_Z now ++ "_" ++ string_of_nat idx;
           AmbientSound.videoId := v;
           AmbientSound.title := t |}) idx sounds w = (w', r) ->
  state w' = state w /\ events w' = events w
  /\ forall tracks, r = Return tracks ->
       map track tracks = map wireTrack sounds
       /\ map AmbientSound.id tracks
          = map (fun k => ambientId (Date_now br (clockReads w + k)) (idx + k))
                (seq 0 (List.length sounds)).
Proof.
  induction sounds as [|sound sounds IH]; intros idx w w' r.
  - cbn. unfold ret. intros H. injection H as <- <-.
    split; [reflexivity|]. split; [reflexivity|].
    intros tracks H. injection H as <-. split; reflexivity.
  - cbn [mapi_eff_from]. unfold bind at 1 2. unfold dateNow, lift, bind, ret.
    cbv beta iota.
    destruct (get sound "v") as [v|] eqn:Hv.
    2:{ intros H. injection H as <- <-.
        split; [reflexivity|]. split; [reflexivity|]. discriminate. }
    destruct (get sound "t") as [t|] eqn:Ht.
    2:{ intros H. injection H as <- <-.
        split; [reflexivity|]. split; [reflexivity|]. discriminate. }
    match goal with
    | |- context [mapi_eff_from ?f ?i sounds ?w1] =>
        destruct (mapi_eff_from f i sounds w1) as [w2 r2] eqn:Hrest
    end.
    apply IH in Hrest as (Hst & Hev & Hok). cbn in Hst, Hev.
    destruct r2 as [rest|e]; intros H; injection H as <- <-;
      (split; [exact Hst|]); (split; [exact Hev|]); [|discriminate].
    intros tracks H. injection H as <-.
    destruct (Hok rest eq_refl) as [Hm Hi]. cbn [clockReads] in Hi.
    cbn [map List.length seq]. split.
    + rewrite Hm. f_equal. unfold track, wireTrack, field. cbn.
      now rewrite Hv, Ht.
    + rewrite Hi, <- seq_shift, map_map. f_equal.
      * unfold ambientId. now rewrite !Nat.add_0_r.
      * apply map_ext. intros k. now rewrite !Nat.add_succ_r.
Qed.

Lemma sharedAmbientSoundsOf_inv br sounds w w' r :
  sharedAmbientSoundsOf br sounds w = (w', r) ->
  state w' = state w /\ events w' = events w
  /\ forall tracks, r = Return tracks ->
       exists entries,
         sounds = VArr entries
         /\ map track tracks = map wireTrack entries
         /\ map AmbientSound.id tracks
            = map (fun k => ambientId (Date_now br (clockReads w + k)) k)
                  (seq 0 (List.length entries)).
Proof.
  unfold sharedAmbientSoundsOf, call_map_eff.
  destruct sounds;
    try (unfold lift; intros H; injection H as <- <-;
         split; [reflexivity|]; split; [reflexivity|]; discriminate).
  intros H. apply ambient_tracks in H as (Hst & Hev & Hok).
  split; [exact Hst|]. split; [exact Hev|].
  intros tracks Hr. exists elems. split; [reflexivity|].
  now apply Hok.
Qed.

Lemma findIndex_from_bounds {A} (p : A -> Z -> bool) l : forall idx,
  findIndex_from p idx l = (-1)%Z
  \/ (idx <= findIndex_from p idx l < idx + Z.of_nat (List.length l))%Z.
Proof.
  induction l as [|x l IH]; intros idx; cbn [findIndex_from List.length].
  - now left.
  - destruct (p x idx); [right; lia|].
    destruct (IH (idx + 1)%Z) as [-> | H]; [now left | right; lia].
Qed.

Lemma findIndex_defined {A} (p : A -> Z -> bool) l :
  (0 <= findIndex p l)%Z ->
  exists x, nth_error l (Z.to_nat (findIndex p l)) = Some x.
Proof.
  unfold findIndex. intros Hpos.
  destruct (findIndex_from_bounds p l 0) as [H | H]; [lia|].
  destruct (nth_error l (Z.to_nat (findIndex_from p 0 l))) as [x|] eqn:Hnth;
    [now exists x|].
  apply nth_error_None in Hnth. lia.
Qed.

(** [startSharedPlaylist] never throws and leaves the library alone. *)
Lemma startSharedPlaylist_inv br sharedPlaylist w w' r :
  startSharedPlaylist br sharedPlaylist w = (w', r) ->
  r = Return tt /\ appData (state w') = appData (state w).
Proof.
  unfold startSharedPlaylist.
  set (items := Playlist.items sharedPlaylist).
  set (startRandom := truthy (Playlist.startRandom sharedPlaylist)).
  set (startIndex := if startRandom && (0 <? List.length items)%nat
                     then _ else _).
  set (p1 := fun (item : PlaylistItem.t) (idx : Z) => _ && _).
  set (p2 := fun (item : PlaylistItem.t) (_ : Z) => negb _).
  set (actualStartIndex := if (0 <=? findIndex p1 items)%Z then _ else _).
  assert (Hdefined : (0 <= actualStartIndex)%Z ->
                     exists item,
                       nth_error items (Z.to_nat actualStartIndex)
                       = Some item).
  { unfold actualStartIndex.
    destruct (0 <=? findIndex p1 items)%Z; apply findIndex_defined. }
  clearbody actualStartIndex. clear p1 p2 startIndex.
  destruct (0 <=? actualStartIndex)%Z eqn:Hstart.
  - apply Z.leb_le in Hstart. destruct (Hdefined Hstart) as [item ->].
    cbv beta iota delta [bind setActivePlaylist setPlaylistIndex
      setIsPlaylistMode setVideoId setVideoUrl setLocalVideoUrl
      setLocalVideoName setCurrentVideo setGeneralNotes setAnnotations
      setSidebarTab setState state clockReads events].
    intros H. injection H as <- <-. split; reflexivity.
  - unfold emit. intros H. injection H as <- <-. split; reflexivity.
Qed.


(** With a non-empty [as] array in the link, [loadAmbientSounds] puts its
    tracks in place of the ambient library. *)
Lemma loadAmbientSounds_replaces rt br compactPlaylist w w' s ss :
  get compactPlaylist "as" = Return (VArr (s :: ss)) ->
  loadAmbientSounds rt br compactPlaylist w = (w', Return tt) ->
  exists tracks,
    map track tracks = map wireTrack (s :: ss)
    /\ map AmbientSound.id tracks
       = map (fun k => ambientId (Date_now br (clockReads w + k)) k)
             (seq 0 (List.length (s :: ss)))
    /\ appData (state w') = replaceAmbientSounds tracks (appData (state w)).
Proof.
  intros Has. unfold loadAmbientSounds, bind, lift, ret.
  rewrite Has. cbn [truthy].
  change (get (VArr (s :: ss)) "length")
    with (Return (of_nat (List.length (s :: ss)))).
  cbv beta iota. rewrite gt_zero_of_nat. cbn [List.length Nat.ltb Nat.leb].
  destruct (sharedAmbientSoundsOf br (VArr (s :: ss)) w) as [w1 r1] eqn:Hs.
  apply sharedAmbientSoundsOf_inv in Hs as (Hst & Hev & Hok).
  destruct r1 as [tracks|e1]; [|discriminate].
  destruct (Hok tracks eq_refl) as (entries & Hentries & Hm & Hi).
  injection Hentries as <-.
  destruct tracks as [|firstAmbient tracks]; [discriminate|].
  intros H. injection H as <-.
  exists (firstAmbient :: tracks). split; [exact Hm|]. split; [exact Hi|].
  cbn. now rewrite Hst.
Qed.

(** C10: when the link of a playlist holds a non-empty [as] array and loads
    without error, the ambient library is the tracks of the link, in their
    order, whatever it held before; folders, videos and playlists of the
    library are as they were. *)
Theorem shared_ambient_sounds_replace_library (rt : Runtime) (br : Browser)
  (compactPlaylist : value) (w w' : World) (s : value) (ss : list value) :
  get compactPlaylist "as" = Return (VArr (s :: ss)) ->
  applySharedPlaylist rt br compactPlaylist w = (w', Return tt) ->
  (exists tracks,
     AppData.ambientSounds (appData (state w')) = Some tracks
     /\ map track tracks = map wireTrack (s :: ss))
  /\ AppData.folders (appData (state w')) = AppData.folders (appData (state w))
  /\ AppData.videos (appData (state w')) = AppData.videos (appData (state w))
  /\ AppData.playlists (appData (state w'))
     = AppData.playlists (appData (state w)).
Proof.
  intros Has. unfold applySharedPlaylist. unfold bind at 1.
  destruct (sharedPlaylistOf br compactPlaylist w) as [w1 r1] eqn:H1.
  apply sharedPlaylistOf_state in H1 as [Hst1 _].
  destruct r1 as [sharedPlaylist|]; [|discriminate].
  unfold bind at 1.
  destruct (loadAmbientSounds rt br compactPlaylist w1) as [w2 r2] eqn:H2.
  destruct r2 as [[]|]; [|discriminate].
  apply (loadAmbientSounds_replaces _ _ _ _ _ _ _ Has) in H2
    as (tracks & Hm & _ & Hdata).
  rewrite Hst1 in Hdata.
  unfold bind at 1.
  match goal with
  | |- context [(if ?c then emit ?a else ret tt) w2] =>
      assert (Halert : exists w3, (if c then emit a else ret tt) w2
                                  = (w3, Return tt)
                                  /\ state w3 = state w2)
        by (destruct c; eexists; split; reflexivity);
      destruct Halert as (w3 & -> & Hst3)
  end.
  unfold bind at 1.
  destruct (startSharedPlaylist br sharedPlaylist w3) as [w4 r4] eqn:H4.
  apply startSharedPlaylist_inv in H4 as [-> Hdata4].
  unfold emit. intros H. injection H as <-. cbn [state].
  rewrite Hdata4, Hst3, Hdata. cbn.
  split; [|repeat split]. now exists tracks.
Qed.

Lemma shared_ambient_sounds_replace_library_witness :
  let rt := Demo.runtime wavesPlaylist in
  let br := Demo.browser 1700000000000 in
  let w' := fst (applySharedPlaylist rt br wavesPlaylist libraryWorld) in
  (exists tracks,
     AppData.ambientSounds (appData (state w')) = Some tracks
     /\ map track tracks
        = map wireTrack
            [VObj [("v", VStr "waves000001"); ("t", VStr "Waves")]])
  /\ AppData.folders (appData (state w')) = AppData.folders library
  /\ AppData.videos (appData (state w')) = AppData.videos library
  /\ AppData.playlists (appData (state w')) = AppData.playlists library.
Proof.
  intros rt br w'.
  apply (shared_ambient_sounds_replace_library rt br wavesPlaylist
           libraryWorld w'
           (VObj [("v", VStr "waves000001"); ("t", VStr "Waves")]) []).
  - reflexivity.
  - vm_compute. reflexivity.
Defined.

(** ** Identifiers *)

Lemma sharedItems_ids items : forall idx shared,
  mapi_from (fun item idx =>
    cbind (get item "v") (fun v =>
    cbind (get item "u") (fun u =>
    cbind (get item "t") (fun t =>
    cbind (get item "l") (fun l =>
    cbind (get item "f") (fun f =>
    Return {| PlaylistItem.id := "item_" ++ string_of_nat idx;
              PlaylistItem.videoId := v;
              PlaylistItem.url := u;
              PlaylistItem.title := t;
              PlaylistItem.isLocalFile := l;
              PlaylistItem.localFileName := f |}))))))
    idx items = Return shared ->
  map PlaylistItem.id shared = map itemId (seq idx (List.length items)).
Proof.
  induction items as [|item items IH]; intros idx shared H.
  - cbn in H. injection H as <-. reflexivity.
  - cbn [mapi_from] in H.
    apply cbind_Return_inv in H as (first & Hfirst & H).
    apply cbind_Return_inv in H as (rest & Hrest & H).
    injection H as <-.
    repeat (apply cbind_Return_inv in Hfirst as (? & _ & Hfirst)).
    injection Hfirst as <-.
    cbn [map seq List.length]. now rewrite (IH _ _ Hrest).
Qed.

Lemma sharedPlaylistOf_inv br compactPlaylist w w' shared :
  sharedPlaylistOf br compactPlaylist w = (w', Return shared) ->
  Playlist.id shared
  = ("shared_" ++ string_of_Z (Date_now br (clockReads w)))%string
  /\ exists i,
       get compactPlaylist "i" = Return i
       /\ sharedItems i = Return (Playlist.items shared).
Proof.
  unfold sharedPlaylistOf, bind, lift, dateNow, ret. cbv beta iota.
  repeat match goal with
         | |- context [match ?c with Return _ => _ | Throw _ => _ end] =>
             destruct c eqn:?
         end; try discriminate.
  intros H. injection H as _ <-. cbn. eauto.
Qed.

Lemma applySharedData_pending rt br compactData w w' :
  applySharedData rt br compactData w = (w', Return tt) ->
  truthy (field compactData "l") = true ->
  exists pending,
    localVideosToLink (state w') = [pending]
    /\ SavedVideo.isLocalFile pending = VBool true
    /\ SavedVideo.id pending
       = ("shared_" ++ string_of_Z (Date_now br (clockReads w)))%string.
Proof.
  unfold applySharedData, bind, lift, setGeneralNotes, setAnnotations,
    setState, emit, field.
  destruct (get compactData "g") as [g|]; [|discriminate].
  destruct (get compactData "a") as [a|]; [|discriminate].
  destruct (sharedAnnotations a) as [anns|]; [|discriminate].
  destruct (get compactData "l") as [l|]; [|discriminate].
  cbn [state clockReads events].
  intros H Hl. rewrite Hl in H. revert H.
  unfold dateNow, setLocalVideoName, setVideoId, setVideoUrl,
    setLocalVideoUrl, setLocalVideosToLink, setCurrentLinkingVideo,
    setLinkedLocalVideos, setShowImportModal, setState.
  cbn [state clockReads events].
  destruct (get compactData "t") as [t|]; [|discriminate].
  intros H. injection H as <-. cbn. eexists. repeat split.
Qed.

(** C7 (as the code has it): the identifiers of annotations and of
    playlist entries are built from the position alone, so two loads of one
    link give the same ones; the identifier of the playlist and those of
    the ambient tracks, and of the local video that waits for its file,
    hold the reading of the clock when they are built. *)
Theorem reloaded_identifiers (rt : Runtime) (br1 br2 : Browser) :
  (forall compactData w1 w2 w1' w2',
      applySharedData rt br1 compactData w1 = (w1', Return tt) ->
      applySharedData rt br2 compactData w2 = (w2', Return tt) ->
      map Annotation.id (annotations (state w1'))
      = map Annotation.id (annotations (state w2'))
      /\ map Annotation.id (annotations (state w1'))
         = map annotationId
             (seq 0 (List.length (annotations (state w1')))))
  /\ (forall compactPlaylist w1 w2 w1' w2' shared1 shared2,
      sharedPlaylistOf br1 compactPlaylist w1 = (w1', Return shared1) ->
      sharedPlaylistOf br2 compactPlaylist w2 = (w2', Return shared2) ->
      Playlist.items shared1 = Playlist.items shared2
      /\ map PlaylistItem.id (Playlist.items shared1)
         = map itemId (seq 0 (List.length (Playlist.items shared1)))
      /\ Playlist.id shared1
         = ("shared_" ++ string_of_Z (Date_now br1 (clockReads w1)))%string
      /\ Playlist.id shared2
         = ("shared_" ++ string_of_Z (Date_now br2 (clockReads w2)))%string)
  /\ (forall sounds w w' tracks,
      sharedAmbientSoundsOf br1 sounds w = (w', Return tracks) ->
      map AmbientSound.id tracks
      = map (fun k => ambientId (Date_now br1 (clockReads w + k)) k)
            (seq 0 (List.length tracks)))
  /\ (forall compactData w w',
      applySharedData rt br1 compactData w = (w', Return tt) ->
      truthy (field compactData "l") = true ->
      exists pending,
        localVideosToLink (state w') = [pending]
        /\ SavedVideo.id pending
           = ("shared_" ++ string_of_Z (Date_now br1 (clockReads w)))%string).
Proof.
  split; [|split; [|split]].
  - intros compactData w1 w2 w1' w2' H1 H2.
    apply applySharedData_annotations in H1 as (a1 & Ha1 & Hs1).
    apply applySharedData_annotations in H2 as (a2 & Ha2 & Hs2).
    rewrite Ha1 in Ha2. injection Ha2 as <-.
    rewrite Hs1 in Hs2. injection Hs2 as <-.
    split; [reflexivity|].
    apply sharedAnnotations_inv in Hs1 as (entries & _ & Hm & ->).
    apply (f_equal (@List.length _)) in Hm. rewrite !length_map in Hm.
    now rewrite Hm.
  - intros compactPlaylist w1 w2 w1' w2' shared1 shared2 H1 H2.
    apply sharedPlaylistOf_inv in H1 as (Hid1 & i1 & Hi1 & Hitems1).
    apply sharedPlaylistOf_inv in H2 as (Hid2 & i2 & Hi2 & Hitems2).
    rewrite Hi1 in Hi2. injection Hi2 as <-.
    assert (Hsame : Playlist.items shared1 = Playlist.items shared2)
      by (rewrite Hitems1 in Hitems2; now injection Hitems2).
    repeat split; try assumption.
    unfold sharedItems, call_map in Hitems1.
    destruct i1; try discriminate.
    pose proof (sharedItems_ids _ _ _ Hitems1) as Hids.
    rewrite Hids. f_equal. f_equal.
    apply (f_equal (@List.length _)) in Hids.
    now rewrite !length_map, length_seq in Hids.
  - intros sounds w w' tracks H.
    apply sharedAmbientSoundsOf_inv in H as (_ & _ & Hok).
    destruct (Hok tracks eq_refl) as (entries & _ & Hm & ->).
    apply (f_equal (@List.length _)) in Hm. rewrite !length_map in Hm.
    now rewrite Hm.
  - intros compactData w w' H Hl.
    destruct (applySharedData_pending _ _ _ _ _ H Hl)
      as (pending & Hlink & _ & Hid).
    now exists pending.
Qed.

Lemma reloaded_identifiers_witness :
  let rt := Demo.runtime swappedMarkers in
  let br1 := Demo.browser 1700000000000 in
  let br2 := Demo.browser 1700000005000 in
  let w1' := fst (applySharedData rt br1 swappedMarkers Demo.mountWorld) in
  let w2' := fst (applySharedData rt br2 swappedMarkers libraryWorld) in
  map Annotation.id (annotations (state w1'))
  = map Annotation.id (annotations (state w2'))
  /\ map Annotation.id (annotations (state w1'))
     = map annotationId (seq 0 (List.length (annotations (state w1')))).
Proof.
  intros rt br1 br2 w1' w2'.
  apply (proj1 (reloaded_identifiers rt br1 br2)
           swappedMarkers Demo.mountWorld libraryWorld w1' w2');
    reflexivity.
Defined.

(** C7 as stated fails: one playlist link loaded at two times gets two
    playlist identifiers and two identifiers for its ambient track; the
    identifiers of its entries agree. *)
Lemma reload_identifier_counterexample :
  let rt := Demo.runtime wavesPlaylist in
  let data := encodePayload rt wavesPlaylist in
  let w1 := fst (loadSharedPlaylist rt (Demo.browser 1700000000000) data
                   libraryWorld) in
  let w2 := fst (loadSharedPlaylist rt (Demo.browser 1700000005000) data
                   libraryWorld) in
  option_map Playlist.id (activePlaylist (state w1))
  = Some "shared_1700000000000"
  /\ option_map Playlist.id (activePlaylist (state w2))
     = Some "shared_1700000005000"
  /\ option_map (map AmbientSound.id)
       (AppData.ambientSounds (appData (state w1)))
     = Some ["ambient_1700000000002_0"]
  /\ option_map (map AmbientSound.id)
       (AppData.ambientSounds (appData (state w2)))
     = Some ["ambient_1700000005002_0"]
  /\ option_map (fun p => map PlaylistItem.id (Playlist.items p))
       (activePlaylist (state w1))
     = Some ["item_0"; "item_1"]
  /\ option_map (fun p => map PlaylistItem.id (Playlist.items p))
       (activePlaylist (state w2))
     = Some ["item_0"; "item_1"]
  /\ option_map Playlist.id (activePlaylist (state w1))
     <> option_map Playlist.id (activePlaylist (state w2)).
Proof.
  intros rt data w1 w2.
  repeat split; try (vm_compute; reflexivity).
  vm_compute. discriminate.
Qed.

(** ** Failures of the loader *)

(** A throw of [atob], [pako.inflate] or [JSON.parse] is caught and logged,
    and no state variable is written. *)
Lemma loadSharedData_stage_failure rt br data w e :
  decodePayload rt data = Throw e ->
  loadSharedData rt br data w
  = ({| state := state w;
        clockReads := clockReads w;
        events := events w
                  ++ [ConsoleError "Failed to load shared data:" e] |},
     Return tt).
Proof.
  intros H. unfold loadSharedData, tryCatch, bind, lift. now rewrite H.
Qed.


(** Neither branch of the effect lets an exception out. *)
Lemma loadFromUrl_returns rt br d p w :
  snd (loadFromUrl rt br d p w) = Return tt.
Proof.
  assert (Htry : forall body handler w0,
             (forall e w1, snd (handler e w1) = Return tt) ->
             snd (tryCatch body handler w0) = Return tt).
  { intros body handler w0 Hh. unfold tryCatch.
    destruct (body w0) as [w1 [[]|e]]; [reflexivity | apply Hh]. }
  unfold loadFromUrl.
  destruct d as [[|c data]|]; [| |];
    try (apply Htry; reflexivity);
    (destruct p as [[|c' playlistData]|]; try reflexivity;
     apply Htry; reflexivity).
Qed.



(** What the [?d=] branch leaves when the object of the link has no usable
    [a]: the notes are already written. *)
Lemma loadSharedData_without_annotations rt br data w compactData g a e :
  decodePayload rt data = Return compactData ->
  get compactData "g" = Return g ->
  get compactData "a" = Return a ->
  sharedAnnotations a = Throw e ->
  loadSharedData rt br data w
  = ({| state := with_generalNotes g (state w);
        clockReads := clockReads w;
        events := events w
                  ++ [ConsoleError "Failed to load shared data:" e] |},
     Return tt).
Proof.
  intros Hdecode Hg Ha Hanns.
  unfold loadSharedData, tryCatch, bind, lift, applySharedData.
  rewrite Hdecode. unfold bind, lift.
  now rewrite Hg, Ha, Hanns.
Qed.

(** C2 (the failing input): the link [notesOnlyLink] carries the object
    [{ g: 'x' }]. Loading it fails with a [TypeError] at
    [compactData.a.map], after [setGeneralNotes]: the failure is logged and
    the notes of the page are overwritten. *)
Theorem failed_load_overwrites_notes (rt : Runtime) (br : Browser)
  (w : World) (text : string) :
  pako_inflate rt notesOnlyDeflated = Some text ->
  JSON_parse rt text = Some (VObj [("g", VStr "x")]) ->
  loadSharedData rt br notesOnlyLink w
  = ({| state := with_generalNotes (VStr "x") (state w);
        clockReads := clockReads w;
        events := events w
                  ++ [ConsoleError "Failed to load shared data:" TypeError] |},
     Return tt).
Proof.
  intros Hinflate Hparse.
  apply loadSharedData_without_annotations
    with (compactData := VObj [("g", VStr "x")]) (a := VUndefined);
    try reflexivity.
  unfold decodePayload.
  change (Base64.atob (Base64.fromUrlSafe notesOnlyLink))
    with (Some (string_of_list_byte notesOnlyDeflated)).
  cbn [of_option cbind].
  rewrite list_byte_of_string_of_list_byte, Hinflate. cbn [of_option cbind].
  now rewrite Hparse.
Qed.

Lemma failed_load_overwrites_notes_witness :
  let rt := Demo.inflating notesOnlyDeflated (VObj [("g", VStr "x")]) in
  let br := Demo.browser 1700000000000 in
  loadSharedData rt br notesOnlyLink Demo.mountWorld
  = ({| state := with_generalNotes (VStr "x") Demo.mountState;
        clockReads := 0;
        events := [ConsoleError "Failed to load shared data:" TypeError] |},
     Return tt).
Proof.
  intros rt br.
  apply (failed_load_overwrites_notes rt br Demo.mountWorld
           (Demo.print (VObj [("g", VStr "x")])));
    reflexivity.
Defined.

(** ** The loader selects a streaming video with an empty local name *)

Lemma applySharedData_selects_stream rt br compactData w w' :
  applySharedData rt br compactData w = (w', Return tt) ->
  truthy (field compactData "l") = false ->
  truthy (field compactData "v") = true ->
  streamingSelected (state w').
Proof.
  unfold applySharedData, bind, lift, setGeneralNotes, setAnnotations,
    setState, emit, field.
  destruct (get compactData "g") as [g|]; [|discriminate].
  destruct (get compactData "a") as [a|]; [|discriminate].
  destruct (sharedAnnotations a) as [anns|]; [|discriminate].
  destruct (get compactData "l") as [l|]; [|discriminate].
  cbn [state clockReads events].
  intros H Hl. rewrite Hl in H. revert H.
  unfold setLocalVideoName, setVideoId, setVideoUrl, setLocalVideoUrl,
    setState.
  destruct (get compactData "v") as [v|]; [|discriminate].
  cbn [state clockReads events].
  intros H Hv. injection H as <-. repeat split. exact Hv.
Qed.

Lemma startSharedPlaylist_selection br sharedPlaylist w w' r :
  startSharedPlaylist br sharedPlaylist w = (w', r) ->
  (localVideoUrl (state w') = VNull
   /\ localVideoName (state w') = VStr ""
   /\ exists item,
        In item (Playlist.items sharedPlaylist)
        /\ videoId (state w') = PlaylistItem.videoId item)
  \/ (videoId (state w') = videoId (state w)
      /\ localVideoUrl (state w') = localVideoUrl (state w)
      /\ localVideoName (state w') = localVideoName (state w)).
Proof.
  unfold startSharedPlaylist.
  set (items := Playlist.items sharedPlaylist).
  match goal with
  | |- context [(0 <=? ?i)%Z] => generalize i
  end.
  intros actualStartIndex.
  destruct (0 <=? actualStartIndex)%Z.
  - destruct (nth_error items (Z.to_nat actualStartIndex)) as [item|]
      eqn:Hnth;
      cbv beta iota delta [bind setActivePlaylist setPlaylistIndex
        setIsPlaylistMode setVideoId setVideoUrl setLocalVideoUrl
        setLocalVideoName setCurrentVideo setGeneralNotes setAnnotations
        setSidebarTab setState lift state clockReads events];
      intros H; injection H as <- _.
    + left. repeat split. exists item. split; [|reflexivity].
      eapply nth_error_In, Hnth.
    + right. repeat split.
  - unfold emit. intros H. injection H as <- _. right. repeat split.
Qed.

(* ================================================================== *)
(** * Properties of [formatTime], [parseTime] and the annotation list *)
(* ================================================================== *)

Module TimeFacts.

Lemma Qfloor_div60 (q : Q) : Qfloor (q / 60) = (Qfloor q / 60)%Z.
Proof.
  destruct q as [n d]. unfold Qdiv, Qinv, Qmult, Qfloor. cbn.
  rewrite Z.mul_1_r, Pos2Z.inj_mul, Z.div_div by lia. reflexivity.
Qed.

Lemma Qfloor_sub60 (q : Q) (k : Z) :
  Qfloor (q - 60 * inject_Z k) = (Qfloor q - 60 * k)%Z.
Proof.
  destruct q as [n d]. unfold Qminus, Qplus, Qopp, Qmult, inject_Z, Qfloor.
  cbn [Qnum Qden]. rewrite !Pos.mul_1_r, Z.mul_1_r.
  replace (n + - (60 * k) * Z.pos d)%Z with (n + (- (60 * k)) * Z.pos d)%Z
    by reflexivity.
  rewrite Z.div_add by lia. lia.
Qed.

Lemma Qfloor_nonneg (q : Q) : 0 <= q -> (0 <= Qfloor q)%Z.
Proof.
  intros H. change 0%Z with (Qfloor 0). apply Qfloor_resp_le. exact H.
Qed.

Lemma truncate_nonneg (q : Q) : 0 <= q -> Num.truncate (q / 60) = Qfloor (q / 60).
Proof.
  intros H. unfold Num.truncate.
  assert (Hq : 0 <= q / 60).
  { apply Qle_shift_div_l; [reflexivity|]. rewrite Qmult_0_l. exact H. }
  apply Qle_bool_iff in Hq. rewrite Hq. reflexivity.
Qed.

Lemma toString_integer (rt : Runtime) (z : Z) :
  (Z.abs z < 10 ^ 21)%Z ->
  Num.toString rt (Finite (inject_Z z)) = string_of_Z z.
Proof.
  intros H. unfold Num.toString. rewrite Qfloor_Z.
  replace (Qeq_bool _ _) with true
    by (symmetry; apply Qeq_bool_iff; reflexivity).
  apply Z.ltb_lt in H. rewrite H. reflexivity.
Qed.

(** The digits of a natural number. *)
Lemma digits_uint (d : Decimal.uint) :
  forall rest, spanDigits (NilEmpty.string_of_uint d ++ String ":" rest)
               = (NilEmpty.string_of_uint d, String ":" rest)
  /\ spanDigits (NilEmpty.string_of_uint d)
               = (NilEmpty.string_of_uint d, EmptyString).
Proof.
  induction d; intros rest; cbn;
    try (destruct (IHd rest) as [-> ->]); split; reflexivity.
Qed.

Lemma string_of_Z_nonneg (z : Z) :
  (0 <= z)%Z ->
  exists d, d <> Decimal.Nil /\ string_of_Z z = NilEmpty.string_of_uint d
            /\ Z.of_uint d = z.
Proof.
  intros H. unfold string_of_Z.
  pose proof (DecimalZ.of_to z) as Hz.
  destruct z as [|p|p]; [| |lia].
  - exists (Decimal.D0 Decimal.Nil). repeat split. discriminate.
  - cbn in *. exists (Pos.to_uint p). split; [|split].
    + intros Hn. pose proof (DecimalPos.Unsigned.of_to p) as Hp.
      rewrite Hn in Hp. discriminate.
    + destruct (Pos.to_uint p) eqn:E; try reflexivity.
      pose proof (DecimalPos.Unsigned.of_to p) as Hp.
      rewrite E in Hp. discriminate.
    + exact Hz.
Qed.

Lemma parseDigits_string_of_Z (z : Z) :
  (0 <= z)%Z -> parseDigits (string_of_Z z) = Some z.
Proof.
  intros H. destruct (string_of_Z_nonneg z H) as (d & _ & -> & Hd).
  unfold parseDigits. rewrite NilEmpty.usu. cbn. rewrite Hd. reflexivity.
Qed.

Lemma string_of_Z_head (z : Z) :
  (0 <= z)%Z ->
  exists c s, string_of_Z z = String c s /\ isDigit c = true.
Proof.
  intros H. destruct (string_of_Z_nonneg z H) as (d & Hn & -> & _).
  destruct d; try congruence; cbn; eexists _, _; split; reflexivity.
Qed.

Lemma span_string_of_Z (z : Z) (rest : string) :
  (0 <= z)%Z ->
  spanDigits (string_of_Z z ++ String ":" rest)
  = (string_of_Z z, String ":" rest).
Proof.
  intros H. destruct (string_of_Z_nonneg z H) as (d & _ & -> & _).
  apply digits_uint.
Qed.

(** [trim] leaves a text alone that starts and ends with other
    characters than spaces. *)
Lemma trimStart_head (c : ascii) (l : list ascii) :
  isTrimSpace c = false -> trimStart (c :: l) = c :: l.
Proof. intros H. cbn. rewrite H. reflexivity. Qed.

Lemma trim_inside (c e : ascii) (s : string) :
  isTrimSpace c = false -> isTrimSpace e = false ->
  trim (String c (s ++ String e EmptyString))
  = String c (s ++ String e EmptyString).
Proof.
  intros Hc He. unfold trim.
  cbn [list_ascii_of_string]. rewrite trimStart_head by exact Hc.
  assert (Hl : list_ascii_of_string (s ++ String e "")
               = list_ascii_of_string s ++ [e]).
  { induction s; cbn; [reflexivity | rewrite IHs; reflexivity]. }
  rewrite Hl.
  assert (Hr : rev (c :: list_ascii_of_string s ++ [e])
               = e :: rev (c :: list_ascii_of_string s)).
  { change (c :: list_ascii_of_string s ++ [e])
      with ((c :: list_ascii_of_string s) ++ [e]).
    rewrite rev_app_distr. reflexivity. }
  rewrite Hr, trimStart_head by exact He.
  rewrite <- Hr, rev_involutive, <- Hl.
  change (c :: list_ascii_of_string (s ++ String e ""))
    with (list_ascii_of_string (String c (s ++ String e ""))).
  apply string_of_list_ascii_of_string.
Qed.

(** The two digits of the seconds. *)
Lemma seconds_field (s : Z) :
  (0 <= s < 60)%Z ->
  exists d e,
    padStart 2 "0" (string_of_Z s) = String d (String e EmptyString)
    /\ isDigit d = true /\ isDigit e = true
    /\ parseDigits (String d (String e EmptyString)) = Some s.
Proof.
  intros H.
  assert (Hall :
    forallb (fun s =>
               match padStart 2 "0" (string_of_Z s) with
               | String d (String e EmptyString) =>
                   isDigit d && isDigit e
                   && match parseDigits (String d (String e EmptyString)) with
                      | Some z => (z =? s)%Z
                      | None => false
                      end
               | _ => false
               end)
            (map Z.of_nat (seq 0 60)) = true)
    by (vm_compute; reflexivity).
  rewrite forallb_forall in Hall.
  assert (Hin : In s (map Z.of_nat (seq 0 60))).
  { apply in_map_iff. exists (Z.to_nat s). split; [lia|]. apply in_seq. lia. }
  pose proof (Hall s Hin) as Hs. cbv beta in Hs.
  destruct (padStart 2 "0" (string_of_Z s)) as [|d [|e [|]]];
    try discriminate.
  apply andb_true_iff in Hs. destruct Hs as [Hs Hp].
  apply andb_true_iff in Hs. destruct Hs as [Hd He].
  exists d, e. split; [reflexivity|]. split; [exact Hd|]. split; [exact He|].
  destruct (parseDigits (String d (String e ""))) as [z|]; [|discriminate].
  apply Z.eqb_eq in Hp. congruence.
Qed.

Lemma isDigit_not_space (c : ascii) : isDigit c = true -> isTrimSpace c = false.
Proof.
  unfold isDigit, isTrimSpace. intros H.
  apply andb_true_iff in H. destruct H as [H1 H2].
  apply N.leb_le in H1. apply N.leb_le in H2.
  apply orb_false_iff. split; [apply orb_false_iff; split|].
  - apply andb_false_iff. right. apply N.leb_gt. lia.
  - apply N.eqb_neq. lia.
  - apply N.eqb_neq. lia.
Qed.

(** What [formatTime] prints for a time that is not negative. *)
Lemma formatTime_nonneg (rt : Runtime) (q : Q) :
  0 <= q -> q < 60 * inject_Z (10 ^ 21) ->
  formatTime rt (VNum (Finite q))
  = (string_of_Z (Qfloor q / 60) ++ ":"
     ++ padStart 2 "0" (string_of_Z (Qfloor q mod 60)))%string.
Proof.
  intros H0 Hmax. unfold formatTime. cbn [ToNumber Num.div60 Num.rem60 Num.floor].
  pose proof (Qfloor_nonneg q H0) as Hf.
  assert (Hlt : (Qfloor q < 60 * 10 ^ 21)%Z).
  { assert (Hle : inject_Z (Qfloor q) < inject_Z (60 * 10 ^ 21)).
    { eapply Qle_lt_trans; [apply Qfloor_le|].
      rewrite inject_Z_mult. exact Hmax. }
    rewrite <- Zlt_Qlt in Hle. exact Hle. }
  rewrite truncate_nonneg by exact H0.
  rewrite Qfloor_sub60, Qfloor_div60.
  replace (Qfloor q - 60 * (Qfloor q / 60))%Z with (Qfloor q mod 60)%Z
    by (rewrite Z.mod_eq by lia; reflexivity).
  rewrite !toString_integer; [reflexivity| |].
  - pose proof (Z.mod_pos_bound (Qfloor q) 60 ltac:(lia)). 
    rewrite Z.abs_eq by lia. change (10 ^ 21)%Z with 1000000000000000000000%Z. lia.
  - assert (0 <= Qfloor q / 60 < 10 ^ 21)%Z.
    { split; [apply Z.div_pos; lia|].
      apply Z.div_lt_upper_bound; lia. }
    rewrite Z.abs_eq by lia. lia.
Qed.

Lemma parseTime_fields (m s : Z) :
  (0 <= m)%Z -> (0 <= s < 60)%Z ->
  parseTime (string_of_Z m ++ ":" ++ padStart 2 "0" (string_of_Z s))
  = Some (m * 60 + s)%Z.
Proof.
  intros Hm Hs.
  destruct (seconds_field s Hs) as (d & e & -> & Hd & He & Hp).
  destruct (string_of_Z_head m Hm) as (c & r & Hr & Hc).
  pose proof (span_string_of_Z m (String d (String e "")) Hm) as Hspan.
  pose proof (parseDigits_string_of_Z m Hm) as Hpm.
  unfold parseTime, matchTime.
  assert (Htrim : trim (string_of_Z m ++ ":" ++ String d (String e ""))
                  = (string_of_Z m ++ ":" ++ String d (String e ""))%string).
  { rewrite Hr. cbn [append].
    replace (r ++ String ":" (String d (String e "")))%string
      with ((r ++ String ":" (String d "")) ++ String e "")%string.
    2:{ clear. induction r; cbn; [reflexivity | rewrite IHr; reflexivity]. }
    apply trim_inside; apply isDigit_not_space; assumption. }
  rewrite Htrim. cbn [append]. rewrite Hspan. rewrite Hr. rewrite <- Hr.
  cbn [spanDigits]. rewrite Hd, He. cbn [String.length Nat.leb].
  rewrite Hpm, Hp.
  destruct (Z.ltb_spec s 60); [reflexivity | lia].
Qed.

Lemma below_double_integers (q : Q) :
  q < inject_Z (2 ^ 53) -> q < 60 * inject_Z (10 ^ 21).
Proof.
  intros H. eapply Qlt_trans; [exact H|]. reflexivity.
Qed.

End TimeFacts.

(** X1: a time that is not negative and below 2^53 seconds, printed by
    [formatTime], is read back by [parseTime] as its whole seconds. *)
Theorem parseTime_formatTime (rt : Runtime) (q : Q) :
  0 <= q -> q < inject_Z (2 ^ 53) ->
  parseTime (formatTime rt (VNum (Finite q))) = Some (Qfloor q).
Proof.
  intros H0 Hmax. apply TimeFacts.below_double_integers in Hmax.
  rewrite TimeFacts.formatTime_nonneg by assumption.
  pose proof (TimeFacts.Qfloor_nonneg q H0) as Hf.
  rewrite TimeFacts.parseTime_fields.
  - f_equal. pose proof (Z.div_mod (Qfloor q) 60 ltac:(lia)). lia.
  - apply Z.div_pos; lia.
  - apply Z.mod_pos_bound. lia.
Qed.

Lemma parseTime_formatTime_witness :
  parseTime (formatTime (Demo.runtime VNull) (VNum (Finite (907 # 10))))
  = Some 90%Z.
Proof.
  apply (parseTime_formatTime (Demo.runtime VNull) (907 # 10));
    vm_compute; congruence.
Defined.



Module SortFacts.

Section Insertion.

Context {A : Type} (before : A -> A -> bool) (le : A -> A -> Prop).
Context (valid : A -> Prop).
Hypothesis le_trans :
  forall a b c, valid a -> valid b -> valid c -> le a b -> le b c -> le a c.
Hypothesis before_le :
  forall a b, valid a -> valid b -> before a b = true -> le a b.
Hypothesis not_before_le :
  forall a b, valid a -> valid b -> before a b = false -> le b a.

Lemma insertSorted_perm (x : A) (l : list A) :
  Permutation.Permutation (x :: l) (insertSorted before x l).
Proof.
  induction l as [|y r IH]; cbn.
  - apply Permutation.Permutation_refl.
  - destruct (before x y).
    + apply Permutation.Permutation_refl.
    + eapply Permutation.perm_trans; [apply Permutation.perm_swap|].
      apply Permutation.perm_skip. exact IH.
Qed.

Lemma insertSorted_sorted (x : A) (l : list A) :
  valid x -> Forall valid l ->
  StronglySorted le l -> StronglySorted le (insertSorted before x l).
Proof.
  intros Hx Hl Hs. induction Hs as [|y r Hr IH Hy]; cbn.
  - constructor; constructor.
  - inversion Hl as [|? ? Hvy Hvr]; subst.
    destruct (before x y) eqn:E.
    + constructor; [constructor; assumption|].
      constructor; [apply before_le; assumption|].
      rewrite Forall_forall in *. intros z Hz.
      apply (le_trans x y z); auto.
    + constructor; [apply IH; exact Hvr|].
      eapply Permutation.Permutation_Forall; [apply insertSorted_perm|].
      constructor; [apply not_before_le; assumption | exact Hy].
Qed.

Lemma sort_from (l sorted : list A) :
  Forall valid l -> Forall valid sorted ->
  StronglySorted le sorted ->
  StronglySorted le
    (fold_left (fun s x => insertSorted before x s) l sorted)
  /\ Permutation.Permutation (sorted ++ l)
       (fold_left (fun s x => insertSorted before x s) l sorted).
Proof.
  revert sorted. induction l as [|x r IH]; intros sorted Hl Hv Hs; cbn.
  - rewrite app_nil_r. split; [exact Hs | apply Permutation.Permutation_refl].
  - inversion Hl as [|? ? Hx Hr]; subst.
    destruct (IH (insertSorted before x sorted)) as [H1 H2].
    + exact Hr.
    + eapply Permutation.Permutation_Forall; [apply insertSorted_perm|].
      constructor; assumption.
    + apply insertSorted_sorted; assumption.
    + split; [exact H1|].
      eapply Permutation.perm_trans; [|exact H2].
      pose proof (Permutation.Permutation_app_tail r
                    (insertSorted_perm x sorted)) as Hp.
      eapply Permutation.perm_trans; [|exact Hp].
      apply Permutation.Permutation_sym.
      apply (Permutation.Permutation_middle sorted r x).
Qed.

End Insertion.

Lemma earlier_le (rt : Runtime) (a b : Annotation.t) (x y : Q) :
  Annotation.timestamp a = VNum (Finite x) ->
  Annotation.timestamp b = VNum (Finite y) ->
  (earlier rt a b = true -> x <= y) /\ (earlier rt a b = false -> y <= x).
Proof.
  intros Hx Hy. unfold earlier. rewrite Hx, Hy. cbn. split; intros E.
  - apply negb_true_iff in E.
    destruct (Qlt_le_dec y x) as [Hlt|Hle]; [|exact Hle].
    exfalso. assert (Hq : 0 <= x - y).
    { unfold Qminus. rewrite <- (Qplus_opp_r y).
      apply Qplus_le_l. apply Qlt_le_weak. exact Hlt. }
    apply Qle_bool_iff in Hq. congruence.
  - apply negb_false_iff, Qle_bool_iff in E.
    unfold Qminus in E. apply (Qplus_le_l _ _ y) in E.
    rewrite Qplus_0_l, <- Qplus_assoc, (Qplus_comm (- y)), Qplus_opp_r,
      Qplus_0_r in E. exact E.
Qed.

Lemma addAnnotation_sorts (rt : Runtime) (annotation : Annotation.t)
  (prev : list Annotation.t) :
  Forall (fun a => exists q, Annotation.timestamp a = VNum (Finite q))
         (annotation :: prev) ->
  chronological (addAnnotation rt annotation prev)
  /\ Permutation.Permutation (annotation :: prev)
       (addAnnotation rt annotation prev).
Proof.
  intros Hall.
  assert (Hin : Forall (fun a => exists q,
                          Annotation.timestamp a = VNum (Finite q))
                       (prev ++ [annotation])).
  { eapply Permutation.Permutation_Forall; [|exact Hall].
    apply Permutation.Permutation_cons_append. }
  destruct (sort_from (earlier rt)
              (fun a b => time_le (Annotation.timestamp a)
                                  (Annotation.timestamp b))
              (fun a => exists q, Annotation.timestamp a = VNum (Finite q)))
    with (l := prev ++ [annotation]) (sorted := @nil Annotation.t)
    as [Hs Hp].
  - intros a b c [x Hx] [y Hy] [z Hz]. rewrite Hx, Hy, Hz. cbn.
    apply Qle_trans.
  - intros a b [x Hx] [y Hy] E.
    destruct (earlier_le rt a b x y Hx Hy) as [H _].
    rewrite Hx, Hy. exact (H E).
  - intros a b [x Hx] [y Hy] E.
    destruct (earlier_le rt a b x y Hx Hy) as [_ H].
    rewrite Hx, Hy. exact (H E).
  - exact Hin.
  - constructor.
  - constructor.
  - split; [exact Hs|].
    eapply Permutation.perm_trans; [|exact Hp].
    apply Permutation.Permutation_cons_append.
Qed.

End SortFacts.

(** X3: adding a marker keeps the list in order of time. With a text that
    is not blank and a player that reports a finite time, and when every
    marker has a finite time, [handleAddAnnotation] empties the input and
    leaves the list in ascending order of time, whatever its order was; the
    list holds the former markers and the new one, whose name is the
    reading of the clock and whose title is the trimmed text. *)
Theorem handleAddAnnotation_chronological (rt : Runtime) (br : Browser)
  (newAnnotation : string) (time : Q) (w : World) :
  trim newAnnotation <> EmptyString ->
  Forall (fun a => exists q, Annotation.timestamp a = VNum (Finite q))
         (annotations (state w)) ->
  exists w',
    handleAddAnnotation rt br newAnnotation (Some (Finite time)) w
    = (w', Return EmptyString)
    /\ chronological (annotations (state w'))
    /\ Permutation.Permutation
         ({| Annotation.id := string_of_Z (Date_now br (clockReads w));
             Annotation.timestamp := VNum (Finite time);
             Annotation.title := VStr (trim newAnnotation);
             Annotation.description := VUndefined |}
          :: annotations (state w))
         (annotations (state w'))
    /\ generalNotes (state w') = generalNotes (state w)
    /\ events w' = events w.
Proof.
  intros Hblank Hall. apply String.eqb_neq in Hblank.
  unfold handleAddAnnotation. rewrite Hblank.
  destruct w as [st reads evs]. cbn [state clockReads events] in *.
  cbv beta iota delta [bind ret dateNow setState state clockReads events].
  eexists. split; [reflexivity|]. cbn [state events].
  destruct (SortFacts.addAnnotation_sorts rt
              {| Annotation.id := string_of_Z (Date_now br reads);
                 Annotation.timestamp := VNum (Finite time);
                 Annotation.title := VStr (trim newAnnotation);
                 Annotation.description := VUndefined |}
              (annotations st)) as [Hs Hp].
  { constructor; [exists time; reflexivity | exact Hall]. }
  destruct st. cbn in *. split; [exact Hs|]. split; [exact Hp|].
  split; reflexivity.
Qed.

Lemma handleAddAnnotation_chronological_witness :
  exists w',
    handleAddAnnotation (Demo.runtime VNull) (Demo.browser 1700000000000)
      " Bridge " (Some (Finite 42))
      {| state := demoSession; clockReads := 0; events := [] |}
    = (w', Return EmptyString)
    /\ chronological (annotations (state w')).
Proof.
  destruct (handleAddAnnotation_chronological (Demo.runtime VNull)
              (Demo.browser 1700000000000) " Bridge " 42
              {| state := demoSession; clockReads := 0; events := [] |})
    as (w' & Hrun & Hs & _).
  - vm_compute. discriminate.
  - repeat constructor; eexists; reflexivity.
  - exists w'. split; assumption.
Defined.

(* ================================================================== *)
(** * Properties of [extractVideoId] *)
(* ================================================================== *)

Module AddressFacts.

Lemma takeId_run (id rest : string) :
  idChars id -> stops rest -> takeId (id ++ rest) = id.
Proof.
  intros Hid Hrest. induction id as [|c r IH]; cbn.
  - destruct rest as [|c r]; [reflexivity|]. cbn in *. rewrite Hrest.
    reflexivity.
  - inversion Hid as [|? ? Hc Hr]; subst. rewrite Hc, IH by exact Hr.
    reflexivity.
Qed.

Lemma takeId_spec (s : string) :
  idChars (takeId s)
  /\ exists rest, s = (takeId s ++ rest)%string /\ stops rest.
Proof.
  induction s as [|c r [IH1 (rest & IH2 & IH3)]]; cbn.
  - split; [constructor|]. exists "". split; constructor.
  - destruct (isIdChar c) eqn:E.
    + split; [constructor; assumption|].
      exists rest. cbn. rewrite <- IH2. split; [reflexivity | exact IH3].
    + split; [constructor|]. exists (String c r). split; [reflexivity|].
      exact E.
Qed.

Lemma stripPrefix_spec (p s r : string) :
  stripPrefix p s = Some r -> s = (p ++ r)%string.
Proof.
  revert s. induction p as [|a p IH]; intros s H; cbn in *.
  - congruence.
  - destruct s as [|b s]; [discriminate|].
    destruct (Ascii.eqb_spec a b); [|discriminate].
    subst. rewrite (IH _ H). reflexivity.
Qed.

Lemma matchHere_spec (alternatives : list string) (s id : string) :
  matchHere alternatives s = Some id ->
  id <> EmptyString /\ idChars id
  /\ exists host rest,
       In host alternatives /\ s = (host ++ id ++ rest)%string
       /\ stops rest.
Proof.
  induction alternatives as [|p ps IH]; cbn; [discriminate|].
  intros H.
  assert (Hrest : matchHere ps s = Some id ->
                  id <> "" /\ idChars id
                  /\ exists host rest,
                       (p = host \/ In host ps)
                       /\ s = (host ++ id ++ rest)%string /\ stops rest).
  { intros H'. destruct (IH H') as (H1 & H2 & host & rest & H3 & H4 & H5).
    split; [exact H1|]. split; [exact H2|]. exists host, rest. auto. }
  destruct (stripPrefix p s) as [r|] eqn:Ep; [|exact (Hrest H)].
  destruct (takeId r) as [|c t] eqn:Et; [exact (Hrest H)|].
  injection H as <-.
  destruct (takeId_spec r) as [H1 (rest & H2 & H3)]. rewrite Et in *.
  split; [discriminate|]. split; [exact H1|].
  exists p, rest. split; [left; reflexivity|].
  split; [|exact H3].
  rewrite (stripPrefix_spec _ _ _ Ep), H2 at 1. reflexivity.
Qed.

Lemma matchFrom_spec (s id : string) :
  matchFrom s = Some id ->
  id <> EmptyString /\ idChars id
  /\ exists pre host rest,
       In host hosts /\ s = (pre ++ host ++ id ++ rest)%string
       /\ stops rest.
Proof.
  induction s as [|c r IH].
  - cbn. discriminate.
  - intros H. cbn [matchFrom] in H.
    destruct (matchHere hosts (String c r)) as [id'|] eqn:E.
    + injection H as ->.
      destruct (matchHere_spec _ _ _ E) as (H1 & H2 & host & rest & H3 & H4 & H5).
      split; [exact H1|]. split; [exact H2|].
      exists "", host, rest. auto.
    + destruct (IH H) as (H1 & H2 & pre & host & rest & H3 & H4 & H5).
      split; [exact H1|]. split; [exact H2|].
      exists (String c pre), host, rest. split; [exact H3|].
      split; [|exact H5]. cbn. rewrite <- H4. reflexivity.
Qed.

(** No alternative starts before the first [y]. *)
Lemma matchFrom_skip (pre s : string) :
  Forall (fun c => c <> "y"%char) (list_ascii_of_string pre) ->
  matchFrom (pre ++ s) = matchFrom s.
Proof.
  induction pre as [|c r IH]; intros H; [reflexivity|].
  inversion H as [|? ? Hc Hr]; subst.
  cbn [append matchFrom].
  assert (E : matchHere hosts (String c (r ++ s)) = None).
  { unfold hosts. cbn [matchHere stripPrefix].
    destruct (Ascii.eqb_spec "y" c) as [Hy|Hy]; [congruence | reflexivity]. }
  rewrite E. apply IH. exact Hr.
Qed.

Lemma matchHere_host (host id rest : string) :
  In host hosts -> id <> EmptyString -> idChars id -> stops rest ->
  matchHere hosts (host ++ id ++ rest) = Some id.
Proof.
  intros Hh Hne Hid Hrest.
  pose proof (takeId_run id rest Hid Hrest) as Ht.
  destruct id as [|c t]; [congruence|].
  destruct Hh as [<- | [<- | [<- | []]]]; cbn in Ht |- *; rewrite Ht;
    reflexivity.
Qed.

Lemma matchFrom_host (host id rest : string) :
  In host hosts -> id <> EmptyString -> idChars id -> stops rest ->
  matchFrom (host ++ id ++ rest) = Some id.
Proof.
  intros Hh Hne Hid Hrest.
  pose proof (matchHere_host host id rest Hh Hne Hid Hrest) as Hm.
  destruct (host ++ id ++ rest)%string; cbn [matchFrom]; rewrite Hm;
    reflexivity.
Qed.

Lemma append_empty (s : string) : (s ++ "")%string = s.
Proof. induction s as [|c s IH]; cbn; [reflexivity | now rewrite IH]. Qed.

End AddressFacts.

(** X4: the three forms of a YouTube address are understood. Behind a
    text without the letter y (a scheme, [www.], [m.]) and one of the three
    host paths, the identifier is the run of characters up to the first
    [&], [?], [#] or line feed. *)
Theorem extractVideoId_address (pre host id rest : string) :
  In host hosts ->
  Forall (fun c => c <> "y"%char) (list_ascii_of_string pre) ->
  id <> EmptyString ->
  Forall (fun c => isIdChar c = true) (list_ascii_of_string id) ->
  match rest with
  | EmptyString => True
  | String c _ => isIdChar c = false
  end ->
  extractVideoId (pre ++ host ++ id ++ rest) = Some id.
Proof.
  intros Hh Hpre Hne Hid Hrest. unfold extractVideoId.
  rewrite AddressFacts.matchFrom_skip by exact Hpre.
  rewrite (AddressFacts.matchFrom_host host id rest Hh Hne Hid Hrest).
  reflexivity.
Qed.

Lemma extractVideoId_address_witness :
  extractVideoId
    ("https://www." ++ "youtube.com/watch?v=" ++ "dQw4w9WgXcQ" ++ "&t=42")
  = Some "dQw4w9WgXcQ".
Proof.
  apply (extractVideoId_address "https://www." "youtube.com/watch?v="
           "dQw4w9WgXcQ" "&t=42").
  - left. reflexivity.
  - repeat constructor; discriminate.
  - discriminate.
  - repeat constructor.
  - reflexivity.
Defined.

(** X5: what [extractVideoId] returns is either the whole text, which then
    has 11 characters, or a run of characters without [&], [?], [#] and
    line feed that is not empty and follows one of the three host paths in
    the text; a text that is refused does not have 11 characters. *)
Theorem extractVideoId_sound (url : string) :
  match extractVideoId url with
  | Some id =>
      (id = url /\ String.length url = 11%nat)
      \/ (id <> EmptyString
          /\ Forall (fun c => isIdChar c = true) (list_ascii_of_string id)
          /\ exists pre host rest,
               In host hosts /\ url = (pre ++ host ++ id ++ rest)%string)
  | None => String.length url <> 11%nat
  end.
Proof.
  unfold extractVideoId.
  destruct (matchFrom url) as [id|] eqn:E.
  - right.
    destruct (AddressFacts.matchFrom_spec _ _ E)
      as (H1 & H2 & pre & host & rest & H3 & H4 & _).
    split; [exact H1|]. split; [exact H2|]. exists pre, host, rest. auto.
  - destruct (Nat.eqb_spec (String.length url) 11).
    + left. auto.
    + assumption.
Qed.

(* ================================================================== *)
(** * Properties of the folder tree *)
(* ================================================================== *)

Module FolderFacts.

Lemma includes_In (x : string) (ids : list string) :
  includes x ids = true <-> In x ids.
Proof.
  unfold includes. rewrite existsb_exists. split.
  - intros (y & Hy & E). apply String.eqb_eq in E. subst. exact Hy.
  - intros H. exists x. split; [exact H | apply String.eqb_refl].
Qed.

Lemma sameParent_Some (o : option string) (p : string) :
  sameParent o (Some p) = true <-> o = Some p.
Proof.
  destruct o as [x|]; cbn.
  - rewrite String.eqb_eq. split; congruence.
  - split; discriminate.
Qed.

Lemma flatMap_Some {A B} (f : A -> option (list B)) (l : list A)
  (r : list B) :
  flatMap f l = Some r ->
  (forall c, In c l -> exists ys, f c = Some ys)
  /\ (forall z, In z r <-> exists c ys, In c l /\ f c = Some ys /\ In z ys).
Proof.
  revert r. induction l as [|x l IH]; cbn; intros r H.
  - injection H as <-. split; [intros c []|].
    intros z. split; [intros [] | intros (c & ys & [] & _)].
  - destruct (f x) as [ys|] eqn:Ex; [|discriminate].
    destruct (flatMap f l) as [zs|]; [|discriminate].
    injection H as <-. destruct (IH zs eq_refl) as [IH1 IH2]. split.
    + intros c [<- | Hc]; [exists ys; exact Ex | apply IH1; exact Hc].
    + intros z. rewrite in_app_iff, IH2. split.
      * intros [Hz | (c & ys' & Hc & Hf & Hz)].
        -- exists x, ys. auto.
        -- exists c, ys'. auto.
      * intros (c & ys' & [<- | Hc] & Hf & Hz).
        -- left. congruence.
        -- right. exists c, ys'. auto.
Qed.

Lemma flatMap_None {A B} (f : A -> option (list B)) (l : list A) :
  flatMap f l = None -> exists c, In c l /\ f c = None.
Proof.
  induction l as [|x l IH]; cbn; [discriminate|].
  destruct (f x) as [ys|] eqn:Ex.
  - destruct (flatMap f l) as [zs|]; [discriminate|].
    intros _. destruct (IH eq_refl) as (c & Hc & Hf). exists c. auto.
  - intros _. exists x. auto.
Qed.

Lemma children_childOf (folders : list Folder.t) (x : string) (c : Folder.t) :
  In c (filter (fun f => sameParent (Folder.parentId f) (Some x)) folders)
  <-> In c folders /\ Folder.parentId c = Some x.
Proof. rewrite filter_In, sameParent_Some. reflexivity. Qed.

(** What [getDescendantIds] returns: the folder and what lies below it. *)
Lemma getDescendantIds_spec (folders : list Folder.t) (depth : nat) :
  forall x ids,
    getDescendantIds depth folders x = Some ids ->
    forall y, In y ids <-> y = x \/ below folders y x.
Proof.
  induction depth as [|d IH]; intros x ids H; [discriminate|].
  cbn [getDescendantIds] in H.
  destruct (flatMap _ _) as [r|] eqn:E; [|discriminate].
  injection H as <-. destruct (flatMap_Some _ _ _ E) as [Hall Hr].
  assert (Hdown : forall y z, (y = x \/ In y r) -> childOf folders z y ->
                              In z r).
  { intros y z Hy (f & Hf & Hid & Hp). destruct Hy as [-> | Hy].
    - assert (Hc : In f (filter (fun f => sameParent (Folder.parentId f)
                                                     (Some x)) folders)).
      { apply children_childOf. auto. }
      destruct (Hall f Hc) as [ys Hys]. apply Hr. exists f, ys.
      split; [exact Hc|]. split; [exact Hys|].
      apply (IH _ _ Hys). left. symmetry. exact Hid.
    - apply Hr in Hy. destruct Hy as (c & ys & Hc & Hys & Hy).
      apply Hr. exists c, ys. split; [exact Hc|]. split; [exact Hys|].
      apply (IH _ _ Hys). apply (IH _ _ Hys) in Hy. right.
      destruct Hy as [-> | Hy].
      + apply below_child. exists f. auto.
      + eapply below_trans; [apply below_child; exists f; eauto | exact Hy]. }
  intros y. split.
  - intros [<- | Hy]; [left; reflexivity|]. right.
    apply Hr in Hy. destruct Hy as (c & ys & Hc & Hys & Hy).
    apply children_childOf in Hc. destruct Hc as [Hc Hp].
    assert (Hcx : below folders (Folder.id c) x).
    { apply below_child. exists c. auto. }
    apply (IH _ _ Hys) in Hy. destruct Hy as [-> | Hy]; [exact Hcx|].
    eapply below_trans; [exact Hy | exact Hcx].
  - intros [-> | Hy]; [left; reflexivity|]. right.
    assert (Hgen : forall a b, below folders a b ->
                               (b = x \/ In b r) -> In a r).
    { clear Hy y. intros a b Hab.
      induction Hab as [c p Hcp | a b c _ IH1 _ IH2]; intros Hin.
      - apply (Hdown p c Hin Hcp).
      - apply IH1. right. apply IH2. exact Hin. }
    apply (Hgen y x Hy). left. reflexivity.
Qed.

Lemma getDescendantIds_None (folders : list Folder.t) (depth : nat) :
  forall x,
    getDescendantIds depth folders x = None ->
    exists l, List.length l = depth /\ descends folders x l.
Proof.
  induction depth as [|d IH]; intros x H.
  - exists []. split; [reflexivity | exact I].
  - cbn [getDescendantIds] in H.
    destruct (flatMap _ _) as [r|] eqn:E; [discriminate|].
    destruct (flatMap_None _ _ E) as (c & Hc & Hn).
    apply children_childOf in Hc. destruct Hc as [Hc Hp].
    destruct (IH _ Hn) as (l & Hl & Hd).
    exists (Folder.id c :: l). split; [cbn; congruence|].
    split; [exists c; auto | exact Hd].
Qed.

Lemma descends_below (folders : list Folder.t) (l : list string) :
  forall x, descends folders x l ->
  forall y, In y l -> below folders y x /\ In y (map Folder.id folders).
Proof.
  induction l as [|z l IH]; intros x Hd y Hy; [destruct Hy|].
  destruct Hd as [Hz Hd]. destruct Hy as [<- | Hy].
  - split; [apply below_child; exact Hz|].
    destruct Hz as (f & Hf & <- & _). apply in_map. exact Hf.
  - destruct (IH _ Hd _ Hy) as [H1 H2]. split; [|exact H2].
    eapply below_trans; [exact H1 | apply below_child; exact Hz].
Qed.

Lemma descends_tail (folders : list Folder.t) (l1 l2 : list string)
  (y : string) :
  forall x, descends folders x (l1 ++ y :: l2) -> descends folders y l2.
Proof.
  induction l1 as [|z l1 IH]; intros x Hd; cbn in Hd.
  - apply Hd.
  - destruct Hd as [_ Hd]. apply (IH _ Hd).
Qed.

(** In a tree without a cycle the recursion of [getDescendantIds] is not
    deeper than the number of folders. *)
Lemma getDescendantIds_returns (folders : list Folder.t) (depth : nat)
  (x : string) :
  acyclic folders -> (List.length folders < depth)%nat ->
  exists ids, getDescendantIds depth folders x = Some ids.
Proof.
  intros Hacyclic Hdepth.
  destruct (getDescendantIds depth folders x) as [ids|] eqn:E;
    [exists ids; reflexivity|].
  exfalso. destruct (getDescendantIds_None _ _ _ E) as (l & Hl & Hd).
  assert (Hdup : ~ NoDup l).
  { intros Hnd.
    assert (Hincl : incl l (map Folder.id folders)).
    { intros y Hy. apply (descends_below _ _ _ Hd _ Hy). }
    pose proof (NoDup_incl_length Hnd Hincl) as Hlen.
    rewrite length_map in Hlen. lia. }
  apply ListDec.not_NoDup in Hdup.
  2:{ intros a b. destruct (string_dec a b); [left | right]; assumption. }
  destruct Hdup as (a & l1 & l2 & l3 & ->).
  apply descends_tail in Hd.
  apply (Hacyclic a).
  apply (descends_below _ _ _ Hd). apply in_or_app. right. left. reflexivity.
Qed.

(** The edges of the tree after [reparent]. *)
Lemma childOf_reparent (folderId : string) (newParentId : option string)
  (data : AppData.t) (c p : string) :
  childOf (AppData.folders (reparent folderId newParentId data)) c p ->
  childOf (AppData.folders data) c p
  \/ (c = folderId /\ newParentId = Some p).
Proof.
  intros (f' & Hf' & Hid & Hp). cbn in Hf'. apply in_map_iff in Hf'.
  destruct Hf' as (f & <- & Hf).
  destruct (String.eqb_spec (Folder.id f) folderId) as [E|E]; cbn in *.
  - right. split; congruence.
  - left. exists f. auto.
Qed.

Lemma below_reparent (folderId : string) (newParentId : option string)
  (data : AppData.t) (a b : string) :
  below (AppData.folders (reparent folderId newParentId data)) a b ->
  below (AppData.folders data) a b
  \/ ((a = folderId \/ below (AppData.folders data) a folderId)
      /\ exists p, newParentId = Some p
                   /\ (p = b \/ below (AppData.folders data) p b)).
Proof.
  induction 1 as [c p Hcp | a b c _ IH1 _ IH2].
  - destruct (childOf_reparent _ _ _ _ _ Hcp) as [H | [-> ->]].
    + left. apply below_child. exact H.
    + right. split; [left; reflexivity|]. exists p. auto.
  - destruct IH1 as [H1 | [Ha (p & Hp & Hpb)]];
      destruct IH2 as [H2 | [Hb (q & Hq & Hqc)]].
    + left. eapply below_trans; eassumption.
    + right. split; [|exists q; auto]. right.
      destruct Hb as [<- | Hb]; [exact H1|].
      eapply below_trans; eassumption.
    + right. split; [exact Ha|]. exists p. split; [exact Hp|]. right.
      destruct Hpb as [<- | Hpb]; [exact H2|].
      eapply below_trans; eassumption.
    + right. split; [exact Ha|]. exists q. auto.
Qed.

End FolderFacts.

(** The example library is a tree: its one edge leads from 200 to 100. *)
Lemma nestedLibrary_acyclic : acyclic (AppData.folders nestedLibrary).
Proof.
  assert (Hall : forall a b, below (AppData.folders nestedLibrary) a b ->
                             a = "200" /\ b = "100").
  { induction 1 as [a b (f & Hf & Hid & Hp) | a b c _ [-> ->] _ [H _]];
      [|discriminate].
    cbn in Hf. destruct Hf as [<- | [<- | []]]; cbn in *; [discriminate|].
    split; congruence. }
  intros x Hx. destruct (Hall _ _ Hx) as [-> H]. discriminate.
Qed.

(** X6: in a folder tree without a cycle, [getDescendantIds] returns, and
    the result holds the folder itself and the folders below it, no
    other. *)
Theorem getDescendantIds_subtree (folders : list Folder.t) (depth : nat)
  (folderId : string) :
  acyclic folders -> (List.length folders < depth)%nat ->
  exists ids,
    getDescendantIds depth folders folderId = Some ids
    /\ forall y, In y ids <-> y = folderId \/ below folders y folderId.
Proof.
  intros Hacyclic Hdepth.
  destruct (FolderFacts.getDescendantIds_returns folders depth folderId
              Hacyclic Hdepth) as [ids Hids].
  exists ids. split; [exact Hids|].
  apply (FolderFacts.getDescendantIds_spec _ _ _ _ Hids).
Qed.

Lemma getDescendantIds_subtree_witness :
  exists ids,
    getDescendantIds 3 (AppData.folders nestedLibrary) "100" = Some ids
    /\ forall y,
         In y ids
         <-> y = "100" \/ below (AppData.folders nestedLibrary) y "100".
Proof.
  apply (getDescendantIds_subtree (AppData.folders nestedLibrary) 3 "100").
  - exact nestedLibrary_acyclic.
  - cbn. lia.
Defined.

(** X7: moving a folder never closes a cycle. On a tree without a cycle
    [moveFolder] returns and leaves a tree without a cycle. The folder gets
    its new parent when it exists, the parent differs from the one it has,
    and the new parent is neither the folder nor below it; otherwise
    nothing changes. The new parent is [null] or a name that is not
    empty. *)
Theorem moveFolder_keeps_tree (depth : nat) (folderId : string)
  (newParentId : option string) (data : AppData.t) :
  acyclic (AppData.folders data) ->
  (List.length (AppData.folders data) < depth)%nat ->
  newParentId <> Some EmptyString ->
  exists data',
    moveFolder depth folderId newParentId data = Some data'
    /\ acyclic (AppData.folders data')
    /\ (data' = data \/ data' = reparent folderId newParentId data)
    /\ (forall folder,
          find (fun f => String.eqb (Folder.id f) folderId)
               (AppData.folders data) = Some folder ->
          Folder.parentId folder <> newParentId ->
          (forall p, newParentId = Some p ->
                     p <> folderId
                     /\ ~ below (AppData.folders data) p folderId) ->
          data' = reparent folderId newParentId data).
Proof.
  intros Hacyclic Hdepth Hnonempty. unfold moveFolder.
  destruct (find _ _) as [folder|];
    [|exists data; repeat split; auto; discriminate].
  destruct (sameParent (Folder.parentId folder) newParentId) eqn:Esame.
  { exists data. repeat split; auto.
    intros folder' [= <-] Hne _. exfalso. apply Hne.
    destruct (Folder.parentId folder) as [x|], newParentId as [y|];
      cbn in Esame; try discriminate; [|reflexivity].
    apply String.eqb_eq in Esame. congruence. }
  assert (Hmoved :
    (forall p, newParentId = Some p ->
               ~ (p = folderId \/ below (AppData.folders data) p folderId)) ->
    acyclic (AppData.folders (reparent folderId newParentId data))).
  { intros Hout x Hx. apply FolderFacts.below_reparent in Hx.
    destruct Hx as [Hx | [Ha (q & Hq & Hqx)]]; [exact (Hacyclic x Hx)|].
    apply (Hout q Hq).
    destruct Hqx as [-> | Hqx]; [exact Ha|]. right.
    destruct Ha as [<- | Ha]; [exact Hqx|].
    eapply below_trans; eassumption. }
  destruct newParentId as [[|c p]|]; [congruence| |].
  - destruct (FolderFacts.getDescendantIds_returns
                (AppData.folders data) depth folderId Hacyclic Hdepth)
      as [ids Hids].
    rewrite Hids.
    pose proof (FolderFacts.getDescendantIds_spec _ _ _ _ Hids (String c p))
      as Hin.
    destruct (includes (String c p) ids) eqn:E.
    + exists data. repeat split; auto.
      intros folder' _ _ Hout. exfalso.
      apply FolderFacts.includes_In, Hin in E.
      destruct (Hout _ eq_refl) as [H1 H2]. destruct E; contradiction.
    + eexists. split; [reflexivity|]. split; [|split; [right|]; reflexivity].
      apply Hmoved. intros q [= <-] Hq. apply Hin in Hq.
      apply FolderFacts.includes_In in Hq. congruence.
  - eexists. split; [reflexivity|]. split; [|split; [right|]; reflexivity].
    apply Hmoved. discriminate.
Qed.

Lemma moveFolder_keeps_tree_witness :
  exists data',
    moveFolder 3 "100" (Some "200") nestedLibrary = Some data'
    /\ acyclic (AppData.folders data')
    /\ (data' = nestedLibrary
        \/ data' = reparent "100" (Some "200") nestedLibrary)
    /\ (forall folder,
          find (fun f => String.eqb (Folder.id f) "100")
               (AppData.folders nestedLibrary) = Some folder ->
          Folder.parentId folder <> Some "200" ->
          (forall p, Some "200" = Some p ->
                     p <> "100"
                     /\ ~ below (AppData.folders nestedLibrary) p "100") ->
          data' = reparent "100" (Some "200") nestedLibrary).
Proof.
  apply (moveFolder_keeps_tree 3 "100" (Some "200") nestedLibrary).
  - exact nestedLibrary_acyclic.
  - cbn. lia.
  - discriminate.
Defined.

(** X8: deleting a folder deletes what lies below it. On a tree without a
    cycle [deleteFolder] returns; the folders that remain are the ones
    that are neither the folder nor below it, none of them has lost its
    parent, and the videos that remain are the ones whose name does not
    start with the name of a deleted folder and a slash. *)
Theorem deleteFolder_subtree (depth : nat) (id : string)
  (selectedFolderId : option string) (data : AppData.t) :
  acyclic (AppData.folders data) ->
  (List.length (AppData.folders data) < depth)%nat ->
  exists data' selected',
    deleteFolder depth id selectedFolderId data = Some (data', selected')
    /\ (forall f,
          In f (AppData.folders data')
          <-> In f (AppData.folders data)
              /\ Folder.id f <> id
              /\ ~ below (AppData.folders data) (Folder.id f) id)
    /\ (forall f p,
          In f (AppData.folders data') -> Folder.parentId f = Some p ->
          p <> id /\ ~ below (AppData.folders data) p id)
    /\ (forall v,
          In v (AppData.videos data')
          <-> In v (AppData.videos data)
              /\ forall fid,
                   fid = id \/ below (AppData.folders data) fid id ->
                   String.prefix (fid ++ "/") (SavedVideo.id v) = false)
    /\ acyclic (AppData.folders data')
    /\ (forall s, selected' = Some s ->
                  selectedFolderId = Some s
                  /\ (s = EmptyString
                      \/ (s <> id
                          /\ ~ below (AppData.folders data) s id))).
Proof.
  intros Hacyclic Hdepth. unfold deleteFolder.
  destruct (FolderFacts.getDescendantIds_returns
              (AppData.folders data) depth id Hacyclic Hdepth)
    as [ids Hids].
  rewrite Hids.
  pose proof (FolderFacts.getDescendantIds_spec _ _ _ _ Hids) as Hin.
  assert (Hout : forall x, includes x ids = false
                           <-> x <> id
                               /\ ~ below (AppData.folders data) x id).
  { intros x. rewrite <- not_true_iff_false, FolderFacts.includes_In, Hin.
    tauto. }
  assert (Hfolders : forall f,
            In f (filter (fun f => negb (includes (Folder.id f) ids))
                         (AppData.folders data))
            <-> In f (AppData.folders data)
                /\ Folder.id f <> id
                /\ ~ below (AppData.folders data) (Folder.id f) id).
  { intros f. rewrite filter_In, negb_true_iff, Hout. reflexivity. }
  eexists _, _. split; [reflexivity|]. cbn [AppData.folders AppData.videos].
  split; [exact Hfolders|]. split; [|split; [|split]].
  - intros f p Hf Hp. apply Hfolders in Hf. destruct Hf as (Hf & Hne & Hnb).
    assert (Hchild : below (AppData.folders data) (Folder.id f) p).
    { apply below_child. exists f. auto. }
    split.
    + intros ->. exact (Hnb Hchild).
    + intros Hb. apply Hnb. eapply below_trans; eassumption.
  - intros v. rewrite filter_In, negb_true_iff. 
    rewrite <- not_true_iff_false, existsb_exists.
    split; intros [Hv H]; (split; [exact Hv|]).
    + intros fid Hfid. apply not_true_iff_false. intros E. apply H.
      exists fid. split; [apply Hin; exact Hfid | exact E].
    + intros (fid & Hfid & E). apply Hin in Hfid.
      rewrite (H fid Hfid) in E. discriminate.
  - assert (Hsub : forall a b,
              below (filter (fun f => negb (includes (Folder.id f) ids))
                            (AppData.folders data)) a b ->
              below (AppData.folders data) a b).
    { induction 1 as [c p (f & Hf & Hc & Hp) | a b c _ IH1 _ IH2].
      - apply below_child. exists f. apply Hfolders in Hf.
        destruct Hf as [Hf _]. repeat split; assumption.
      - eapply below_trans; eassumption. }
    intros x Hx. exact (Hacyclic x (Hsub x x Hx)).
  - intros s Hs. destruct selectedFolderId as [sel|]; [|discriminate].
    destruct (String.eqb_spec sel "") as [->|Hne]; cbn [negb andb] in Hs.
    + injection Hs as <-. auto.
    + destruct (includes sel ids) eqn:E; [discriminate|].
      injection Hs as <-. split; [reflexivity|]. right. apply Hout. exact E.
Qed.

Lemma deleteFolder_subtree_witness :
  exists data' selected',
    deleteFolder 3 "100" (Some "200") nestedLibrary = Some (data', selected')
    /\ (forall f,
          In f (AppData.folders data')
          <-> In f (AppData.folders nestedLibrary)
              /\ Folder.id f <> "100"
              /\ ~ below (AppData.folders nestedLibrary) (Folder.id f) "100")
    /\ (forall f p,
          In f (AppData.folders data') -> Folder.parentId f = Some p ->
          p <> "100" /\ ~ below (AppData.folders nestedLibrary) p "100")
    /\ (forall v,
          In v (AppData.videos data')
          <-> In v (AppData.videos nestedLibrary)
              /\ forall fid,
                   fid = "100"
                   \/ below (AppData.folders nestedLibrary) fid "100" ->
                   String.prefix (fid ++ "/") (SavedVideo.id v) = false)
    /\ acyclic (AppData.folders data')
    /\ (forall s, selected' = Some s ->
                  Some "200" = Some s
                  /\ (s = EmptyString
                      \/ (s <> "100"
                          /\ ~ below (AppData.folders nestedLibrary) s "100"))).
Proof.
  apply (deleteFolder_subtree 3 "100" (Some "200") nestedLibrary).
  - exact nestedLibrary_acyclic.
  - cbn. lia.
Defined.

(* ================================================================== *)
(** * Properties of the library *)
(* ================================================================== *)

Module LibraryFacts.

Lemma split_nonempty (sep : ascii) (s : string) : split sep s <> [].
Proof.
  destruct s as [|c r]; cbn; [discriminate|].
  destruct (Ascii.eqb c sep); [discriminate|].
  destruct (split sep r); discriminate.
Qed.

Lemma split_noSlash (u : string) : noSlash u -> split "/" u = [u].
Proof.
  induction u as [|c r IH]; intros H; [reflexivity|].
  inversion H as [|? ? Hc Hr]; subst. cbn [split].
  destruct (Ascii.eqb_spec c "/"); [contradiction|].
  rewrite (IH Hr). reflexivity.
Qed.

Lemma split_folder (f u : string) :
  noSlash u -> split "/" (f ++ "/" ++ u) = split "/" f ++ [u].
Proof.
  intros Hu. induction f as [|c r IH].
  - cbn. rewrite split_noSlash by exact Hu. reflexivity.
  - cbn [append split] in *. rewrite IH.
    destruct (Ascii.eqb c "/"); [reflexivity|].
    pose proof (split_nonempty "/" r) as Hne.
    destruct (split "/" r) as [|p ps]; [contradiction | reflexivity].
Qed.

Lemma concat_split (s : string) : String.concat "/" (split "/" s) = s.
Proof.
  induction s as [|c r IH]; [reflexivity|].
  cbn [split]. destruct (Ascii.eqb_spec c "/") as [->|Hc].
  - pose proof (split_nonempty "/" r) as Hne.
    destruct (split "/" r) as [|p ps]; [contradiction|].
    cbn [String.concat] in *. rewrite IH. reflexivity.
  - pose proof (split_nonempty "/" r) as Hne.
    destruct (split "/" r) as [|p ps]; [contradiction|].
    destruct ps; cbn [String.concat append] in *; rewrite <- IH; reflexivity.
Qed.

Lemma folderIdOf_slash (f u : string) :
  noSlash u -> folderIdOf (f ++ "/" ++ u) = f.
Proof.
  intros Hu. unfold folderIdOf. rewrite split_folder by exact Hu.
  rewrite removelast_last. apply concat_split.
Qed.

Lemma uniquePartOf_slash (f u : string) :
  noSlash u -> uniquePartOf (f ++ "/" ++ u) = u.
Proof.
  intros Hu. unfold uniquePartOf. rewrite split_folder by exact Hu.
  apply last_last.
Qed.

Lemma last_split_noSlash (s : string) : noSlash (last (split "/" s) "undefined").
Proof.
  induction s as [|c r IH]; [constructor|].
  cbn [split]. destruct (Ascii.eqb_spec c "/") as [->|Hc].
  - pose proof (split_nonempty "/" r) as Hne.
    destruct (split "/" r) as [|p ps]; [contradiction|]. exact IH.
  - pose proof (split_nonempty "/" r) as Hne.
    destruct (split "/" r) as [|p ps]; [contradiction|].
    destruct ps as [|q qs]; [|exact IH].
    cbn in *. constructor; assumption.
Qed.

Lemma uint_noSlash (d : Decimal.uint) : noSlash (NilEmpty.string_of_uint d).
Proof.
  induction d; cbn; constructor; try assumption; discriminate.
Qed.

Lemma string_of_Z_noSlash (z : Z) : noSlash (string_of_Z z).
Proof.
  unfold string_of_Z, NilZero.string_of_int.
  destruct (Z.to_int z) as [d|d]; unfold NilZero.string_of_uint.
  - destruct d; try apply (uint_noSlash (_ d)); repeat constructor;
      discriminate.
  - constructor; [discriminate|].
    destruct d; try apply (uint_noSlash (_ d)); repeat constructor;
      discriminate.
Qed.

Lemma prefix_app (p s : string) : String.prefix p (p ++ s) = true.
Proof.
  induction p as [|c r IH]; cbn; [destruct s; reflexivity|].
  destruct (ascii_dec c c); [exact IH | contradiction].
Qed.

Lemma prefix_slash (f u : string) :
  String.prefix (f ++ "/") (f ++ "/" ++ u) = true.
Proof.
  induction f as [|c r IH]; cbn; [destruct u; reflexivity|].
  destruct (ascii_dec c c); [exact IH | contradiction].
Qed.

End LibraryFacts.

Ltac conjs := repeat match goal with |- _ /\ _ => split end.

Ltac run_eff :=
  cbv beta iota delta
    [bind ret lift getState setState setAppData setCurrentVideo
     setIsPlaylistMode setActivePlaylist setPlaylistIndex setGeneralNotes
     setAnnotations setVideoTitle setVideoUrl setVideoId setLocalVideoUrl
     setLocalVideoName setLocalVideosToLink setCurrentLinkingVideo
     setLinkedLocalVideos setShowImportModal dateNow state clockReads
     events].

Lemma loadVideo_shows (video : SavedVideo.t) (w : World) :
  exists w' r,
    loadVideo video w = (w', r)
    /\ currentVideo (state w') = Some video
    /\ generalNotes (state w') = SavedVideo.generalNotes video
    /\ annotations (state w') = SavedVideo.annotations video
    /\ isPlaylistMode (state w') = false
    /\ (truthy (SavedVideo.isLocalFile video) = false ->
        r = Return tt
        /\ videoId (state w') = SavedVideo.videoId video
        /\ videoUrl (state w') = SavedVideo.url video
        /\ localVideoUrl (state w') = VNull
        /\ localVideoName (state w') = VStr "")
    /\ (forall u,
          truthy (SavedVideo.isLocalFile video) = true ->
          SavedVideo.url video = VStr u ->
          String.prefix "blob:" u = true ->
          r = Return tt
          /\ localVideoUrl (state w') = VStr u
          /\ videoId (state w') = VNull
          /\ localVideoName (state w')
             = JS.or (SavedVideo.localFileName video) (VStr "Local Video")).
Proof.
  unfold loadVideo.
  destruct (truthy (SavedVideo.isLocalFile video)) eqn:Elocal.
  - destruct (truthy (SavedVideo.url video)) eqn:Eurl.
    + destruct (SavedVideo.url video) as [| | |n|u|l|m] eqn:Eu;
        try (run_eff; cbv beta iota delta [startsWith];
             eexists _, _; split; [reflexivity|]; cbn; conjs;
             try reflexivity; try discriminate; fail).
      run_eff. cbv beta iota delta [startsWith].
      destruct (String.prefix "blob:" u) eqn:Eblob.
      * eexists _, _. split; [reflexivity|]. cbn. conjs;
          try reflexivity; try discriminate.
        intros u' _ [= <-] _. conjs; reflexivity.
      * eexists _, _. split; [reflexivity|]. cbn. conjs;
          try reflexivity; try discriminate.
        intros u' _ [= <-] H. congruence.
    + run_eff. eexists _, _. split; [reflexivity|]. cbn. conjs;
        try reflexivity; try discriminate.
      intros u _ Hu. rewrite Hu in Eurl. cbn in Eurl.
      destruct u; cbn in *; discriminate.
  - run_eff. eexists _, _. split; [reflexivity|]. cbn. conjs;
      try reflexivity; try discriminate.
    intros _. conjs; reflexivity.
Qed.

(** X9: what [saveVideo] stores, [loadVideo] brings back. With a video on
    screen and a title that is not blank, [saveVideo] appends one entry to
    the library, in the chosen folder or in a new folder "Saved Videos",
    and makes it the current video; loading that entry later restores the
    notes and the markers, and the video: the streaming identifier and
    address, or the local file when its address is a blob address. *)
Theorem saveVideo_loadVideo (br : Browser) (ui : Dialog) (w : World)
  (title : string) :
  truthy (videoId (state w)) || truthy (localVideoUrl (state w)) = true ->
  saveTitle ui = VStr title -> trim title <> EmptyString ->
  exists saved w1 ui1 folder stamp,
    saveVideo br ui w = (w1, Return ui1)
    /\ currentVideo (state w1) = Some saved
    /\ AppData.videos (appData (state w1))
       = AppData.videos (appData (state w)) ++ [saved]
    /\ SavedVideo.id saved = (folder ++ "/" ++ string_of_Z stamp)%string
    /\ folderIdOf (SavedVideo.id saved) = folder
    /\ selectedFolderId ui1 = Some folder
    /\ (saveFolderId ui = Some folder
        \/ AppData.folders (appData (state w1))
           = AppData.folders (appData (state w))
             ++ [{| Folder.id := folder; Folder.name := "Saved Videos";
                    Folder.parentId := None; Folder.isExpanded := true |}])
    /\ SavedVideo.title saved = VStr (trim title)
    /\ forall w2,
         exists w3 r,
           loadVideo saved w2 = (w3, r)
           /\ currentVideo (state w3) = Some saved
           /\ generalNotes (state w3) = generalNotes (state w)
           /\ annotations (state w3) = annotations (state w)
           /\ isPlaylistMode (state w3) = false
           /\ (truthy (localVideoUrl (state w)) = false ->
               r = Return tt
               /\ videoId (state w3) = videoId (state w)
               /\ videoUrl (state w3) = videoUrl (state w)
               /\ localVideoUrl (state w3) = VNull
               /\ localVideoName (state w3) = VStr "")
           /\ (forall u,
                 localVideoUrl (state w) = VStr u ->
                 String.prefix "blob:" u = true ->
                 r = Return tt
                 /\ localVideoUrl (state w3) = VStr u
                 /\ videoId (state w3) = VNull
                 /\ localVideoName (state w3)
                    = JS.or (localVideoName (state w)) (VStr "Local Video")).
Proof.
  intros Hvideo Htitle Hblank.
  destruct w as [st reads evs]. cbn [state clockReads events] in *.
  assert (Hguard : negb (truthy (videoId st))
                   && negb (truthy (localVideoUrl st)) = false).
  { rewrite <- negb_orb, Hvideo. reflexivity. }
  apply String.eqb_neq in Hblank.
  assert (Hload : forall saved,
            SavedVideo.generalNotes saved = generalNotes st ->
            SavedVideo.annotations saved = annotations st ->
            SavedVideo.videoId saved = JS.or (videoId st) (VStr "") ->
            SavedVideo.url saved
            = JS.or (localVideoUrl st) (videoUrl st) ->
            SavedVideo.isLocalFile saved
            = VBool (truthy (localVideoUrl st)) ->
            SavedVideo.localFileName saved
            = JS.or (localVideoName st) VUndefined ->
            forall w2,
              exists w3 r,
                loadVideo saved w2 = (w3, r)
                /\ currentVideo (state w3) = Some saved
                /\ generalNotes (state w3) = generalNotes st
                /\ annotations (state w3) = annotations st
                /\ isPlaylistMode (state w3) = false
                /\ (truthy (localVideoUrl st) = false ->
                    r = Return tt
                    /\ videoId (state w3) = videoId st
                    /\ videoUrl (state w3) = videoUrl st
                    /\ localVideoUrl (state w3) = VNull
                    /\ localVideoName (state w3) = VStr "")
                /\ (forall u,
                      localVideoUrl st = VStr u ->
                      String.prefix "blob:" u = true ->
                      r = Return tt
                      /\ localVideoUrl (state w3) = VStr u
                      /\ videoId (state w3) = VNull
                      /\ localVideoName (state w3)
                         = JS.or (localVideoName st)
                                 (VStr "Local Video"))).
  { intros saved Hn Ha Hv Hu Hl Hf w2.
    destruct (loadVideo_shows saved w2)
      as (w3 & r & Hrun & Hc & Hn' & Ha' & Hp & Hstream & Hlocal).
    exists w3, r. split; [exact Hrun|]. split; [exact Hc|].
    split; [congruence|]. split; [congruence|]. split; [exact Hp|]. split.
    - intros Hfalse. rewrite Hl, Hfalse in Hstream.
      destruct (Hstream eq_refl) as (-> & H1 & H2 & H3 & H4).
      rewrite Hfalse in Hvideo. rewrite orb_false_r in Hvideo.
      unfold JS.or in Hv, Hu. rewrite Hvideo in Hv. rewrite Hfalse in Hu.
      conjs; congruence.
    - intros u Hurl Hblob.
      assert (Htrue : truthy (localVideoUrl st) = true).
      { rewrite Hurl. destruct u; [discriminate | reflexivity]. }
      unfold JS.or in Hu. rewrite Htrue, Hurl in Hu.
      rewrite Hl, Htrue in Hlocal.
      destruct (Hlocal u eq_refl Hu Hblob) as (-> & H1 & H2 & H3).
      conjs; try congruence.
      rewrite H3, Hf. unfold JS.or.
      destruct (truthy (localVideoName st)) eqn:E; [rewrite E|];
        reflexivity. }
  unfold saveVideo, targetFolder. rewrite Htitle.
  cbv beta iota delta [bind getState lift trimOf state].
  rewrite Hguard, Hblank.
  destruct (saveFolderId ui) as [[|c f]|] eqn:Efolder.
  - run_eff.
    eexists _, _, _, (string_of_Z (Date_now br reads)),
      (Date_now br (S reads)).
    split; [reflexivity|].
    split; [reflexivity|]. split; [reflexivity|]. split; [reflexivity|].
    split; [exact (LibraryFacts.folderIdOf_slash _ _
                     (LibraryFacts.string_of_Z_noSlash _))|].
    split; [reflexivity|]. split; [right; reflexivity|].
    split; [reflexivity|]. apply Hload; reflexivity.
  - run_eff.
    eexists _, _, _, (String c f), (Date_now br reads).
    split; [reflexivity|].
    split; [reflexivity|]. split; [reflexivity|]. split; [reflexivity|].
    split; [exact (LibraryFacts.folderIdOf_slash (String c f) _
                     (LibraryFacts.string_of_Z_noSlash _))|].
    split; [reflexivity|]. split; [left; reflexivity|].
    split; [reflexivity|]. apply Hload; reflexivity.
  - run_eff.
    eexists _, _, _, (string_of_Z (Date_now br reads)),
      (Date_now br (S reads)).
    split; [reflexivity|].
    split; [reflexivity|]. split; [reflexivity|]. split; [reflexivity|].
    split; [exact (LibraryFacts.folderIdOf_slash _ _
                     (LibraryFacts.string_of_Z_noSlash _))|].
    split; [reflexivity|]. split; [right; reflexivity|].
    split; [reflexivity|]. apply Hload; reflexivity.
Qed.

Lemma saveVideo_loadVideo_witness :
  exists saved w1 ui1,
    saveVideo (Demo.browser 1700000000000)
      {| selectedFolderId := None; showSaveDialog := true;
         saveTitle := VStr " Demo "; saveFolderId := Some "100";
         showNewFolderInSaveDialog := false;
         newFolderNameInSaveDialog := "" |}
      {| state := demoSession; clockReads := 0; events := [] |}
    = (w1, Return ui1)
    /\ currentVideo (state w1) = Some saved
    /\ SavedVideo.id saved = "100/1700000000000"
    /\ SavedVideo.title saved = VStr "Demo".
Proof.
  destruct (saveVideo_loadVideo (Demo.browser 1700000000000)
              {| selectedFolderId := None; showSaveDialog := true;
                 saveTitle := VStr " Demo "; saveFolderId := Some "100";
                 showNewFolderInSaveDialog := false;
                 newFolderNameInSaveDialog := "" |}
              {| state := demoSession; clockReads := 0; events := [] |}
              " Demo " eq_refl eq_refl)
    as (saved & w1 & ui1 & folder & stamp & Hrun & Hcur & _ & _ & _ & _ & _
        & Htitle & _).
  - vm_compute. discriminate.
  - exists saved, w1, ui1. split; [exact Hrun|]. split; [exact Hcur|].
    vm_compute in Hrun. injection Hrun as <- _.
    vm_compute in Hcur. injection Hcur as <-. split; reflexivity.
Defined.



(** X11: [moveVideo] renames a video into the new folder. The videos of
    the given name get the name of the new folder, a slash and the last
    part of the name; the other videos stay. The folder that
    [openSaveDialog] reads in the new name is the new folder, the last
    part is kept, and [FolderItem] lists the video in the new folder. *)
Theorem moveVideo_renames (id newFolderId : string) (w : World)
  (video : SavedVideo.t) :
  find (fun v => String.eqb (SavedVideo.id v) id)
       (AppData.videos (appData (state w))) = Some video ->
  id <> (newFolderId ++ "/" ++ uniquePartOf id)%string ->
  exists w',
    moveVideo id newFolderId w = (w', Return tt)
    /\ AppData.videos (appData (state w'))
       = map (fun v =>
                if String.eqb (SavedVideo.id v) id
                then withVideoId (newFolderId ++ "/" ++ uniquePartOf id) v
                else v)
             (AppData.videos (appData (state w)))
    /\ folderIdOf (newFolderId ++ "/" ++ uniquePartOf id) = newFolderId
    /\ uniquePartOf (newFolderId ++ "/" ++ uniquePartOf id) = uniquePartOf id
    /\ (forall folder,
          Folder.id folder = newFolderId ->
          In (withVideoId (newFolderId ++ "/" ++ uniquePartOf id) video)
             (folderVideos folder (AppData.videos (appData (state w')))))
    /\ AppData.folders (appData (state w'))
       = AppData.folders (appData (state w))
    /\ (forall current,
          currentVideo (state w) = Some current ->
          currentVideo (state w')
          = Some (if String.eqb (SavedVideo.id current) id
                  then withVideoId (newFolderId ++ "/" ++ uniquePartOf id)
                                   current
                  else current)).
Proof.
  intros Hfind Hne. destruct w as [st reads evs]. cbn [state] in *.
  assert (Hid : SavedVideo.id video = id).
  { apply find_some in Hfind. destruct Hfind as [_ H].
    apply String.eqb_eq in H. exact H. }
  pose proof (LibraryFacts.last_split_noSlash id) as Hpart.
  fold (uniquePartOf id) in Hpart.
  apply not_eq_sym, String.eqb_neq in Hne.
  assert (Hlisted : forall folder,
            Folder.id folder = newFolderId ->
            In (withVideoId (newFolderId ++ "/" ++ uniquePartOf id) video)
               (folderVideos folder
                  (map (fun v =>
                          if String.eqb (SavedVideo.id v) id
                          then withVideoId
                                 (newFolderId ++ "/" ++ uniquePartOf id) v
                          else v)
                       (AppData.videos (appData st))))).
  { intros folder Hfolder. unfold folderVideos. apply filter_In. split.
    - apply in_map_iff. exists video. rewrite Hid, String.eqb_refl.
      split; [reflexivity|]. apply find_some in Hfind. apply Hfind.
    - rewrite Hfolder. apply LibraryFacts.prefix_slash. }
  unfold moveVideo. cbv beta iota delta [bind getState]. cbn [state].
  rewrite Hfind, Hid. rewrite String.eqb_sym in Hne. rewrite Hne.
  cbn [state].
  destruct (currentVideo st) as [current|] eqn:Ecur.
  - destruct (String.eqb (SavedVideo.id current) id) eqn:E.
    + run_eff. eexists. split; [reflexivity|]. cbn.
      split; [reflexivity|].
      split; [apply LibraryFacts.folderIdOf_slash; exact Hpart|].
      split; [apply LibraryFacts.uniquePartOf_slash; exact Hpart|].
      split; [exact Hlisted|].
      split; [reflexivity|]. intros c [= <-]. rewrite ?Ecur, ?E. cbn.
      rewrite ?Ecur, ?E. reflexivity.
    + run_eff. eexists. split; [reflexivity|]. cbn.
      split; [reflexivity|].
      split; [apply LibraryFacts.folderIdOf_slash; exact Hpart|].
      split; [apply LibraryFacts.uniquePartOf_slash; exact Hpart|].
      split; [exact Hlisted|].
      split; [reflexivity|]. intros c [= <-]. rewrite ?Ecur, ?E. cbn.
      rewrite ?Ecur, ?E. reflexivity.
  - run_eff. eexists. split; [reflexivity|]. cbn. 
    split; [reflexivity|].
    split; [apply LibraryFacts.folderIdOf_slash; exact Hpart|].
    split; [apply LibraryFacts.uniquePartOf_slash; exact Hpart|].
    split; [exact Hlisted|].
    split; [reflexivity|]. intros c. discriminate.
Qed.

Lemma moveVideo_renames_witness :
  exists w',
    moveVideo "100/300" "200"
      {| state := with_appData nestedLibrary demoSession;
         clockReads := 0; events := [] |}
    = (w', Return tt)
    /\ map SavedVideo.id (AppData.videos (appData (state w')))
       = ["200/300"; "200/400"].
Proof.
  destruct (moveVideo_renames "100/300" "200"
              {| state := with_appData nestedLibrary demoSession;
                 clockReads := 0; events := [] |}
              libraryVideo eq_refl)
    as (w' & Hrun & Hvideos & _).
  - vm_compute. discriminate.
  - exists w'. split; [exact Hrun|]. rewrite Hvideos. reflexivity.
Defined.

(* ================================================================== *)
(** * Properties of the playlist link *)
(* ================================================================== *)

Module PlaylistLinkFacts.

(** [findIndex] gives the first position where the callback holds. *)
Lemma findIndex_from_first {A} (p : A -> Z -> bool) (l : list A) :
  forall idx, (0 <= idx)%Z ->
  (findIndex_from p idx l = (-1)%Z
   /\ forall k x, nth_error l k = Some x -> p x (idx + Z.of_nat k)%Z = false)
  \/ (exists k x,
        findIndex_from p idx l = (idx + Z.of_nat k)%Z
        /\ nth_error l k = Some x
        /\ p x (idx + Z.of_nat k)%Z = true
        /\ forall j y, (j < k)%nat -> nth_error l j = Some y ->
                       p y (idx + Z.of_nat j)%Z = false).
Proof.
  induction l as [|a l IH]; intros idx Hidx; cbn [findIndex_from].
  - left. split; [reflexivity|]. intros [|k] x; discriminate.
  - destruct (p a idx) eqn:Ea.
    + right. exists 0%nat, a. rewrite Z.add_0_r.
      split; [reflexivity|]. split; [reflexivity|]. split; [exact Ea|].
      intros j y Hj. lia.
    + destruct (IH (idx + 1)%Z ltac:(lia)) as [[Hnone Hall] | (k & x & Hk & Hx & Hp & Hmin)].
      * left. split; [exact Hnone|]. intros [|k] x Hx.
        -- injection Hx as <-. rewrite Z.add_0_r. exact Ea.
        -- replace (idx + Z.of_nat (S k))%Z with (idx + 1 + Z.of_nat k)%Z
             by lia.
           apply Hall. exact Hx.
      * right. exists (S k), x.
        replace (idx + Z.of_nat (S k))%Z with (idx + 1 + Z.of_nat k)%Z by lia.
        split; [exact Hk|]. split; [exact Hx|]. split; [exact Hp|].
        intros [|j] y Hj Hy.
        -- injection Hy as <-. rewrite Z.add_0_r. exact Ea.
        -- replace (idx + Z.of_nat (S j))%Z with (idx + 1 + Z.of_nat j)%Z
             by lia.
           apply (Hmin j y); [lia | exact Hy].
Qed.

Lemma findIndex_first {A} (p : A -> Z -> bool) (l : list A) :
  (findIndex p l = (-1)%Z
   /\ forall k x, nth_error l k = Some x -> p x (Z.of_nat k) = false)
  \/ (exists k x,
        findIndex p l = Z.of_nat k
        /\ nth_error l k = Some x
        /\ p x (Z.of_nat k) = true
        /\ forall j y, (j < k)%nat -> nth_error l j = Some y ->
                       p y (Z.of_nat j) = false).
Proof. exact (findIndex_from_first p l 0%Z (Z.le_refl 0)). Qed.

Lemma startSharedPlaylist_plays (br : Browser) (sharedPlaylist : Playlist.t)
  (w : World) :
  exists w',
    startSharedPlaylist br sharedPlaylist w = (w', Return tt)
    /\ ((exists k item, startsOn sharedPlaylist k item w w')
        \/ (Forall (fun item => truthy (PlaylistItem.isLocalFile item) = true)
                   (Playlist.items sharedPlaylist)
            /\ state w' = state w
            /\ events w'
               = events w
                 ++ [Alert "This playlist only contains local videos. Cannot play automatically."])).
Proof.
  unfold startSharedPlaylist.
  set (items := Playlist.items sharedPlaylist).
  set (startRandom := truthy (Playlist.startRandom sharedPlaylist)).
  set (startIndex := if startRandom && (0 <? List.length items)%nat
                     then _ else _).
  set (p1 := fun (item : PlaylistItem.t) (idx : Z) => _ && _).
  set (p2 := fun (item : PlaylistItem.t) (_ : Z) => negb _).
  set (actualStartIndex := if (0 <=? findIndex p1 items)%Z then _ else _).
  assert (Hchoice :
    (actualStartIndex = (-1)%Z
     /\ Forall (fun item => truthy (PlaylistItem.isLocalFile item) = true)
               items)
    \/ (exists k item,
          actualStartIndex = Z.of_nat k
          /\ nth_error items k = Some item
          /\ truthy (PlaylistItem.isLocalFile item) = false
          /\ (startRandom = false ->
              forall j y, (j < k)%nat -> nth_error items j = Some y ->
                          truthy (PlaylistItem.isLocalFile y) = true))).
  { unfold actualStartIndex.
    destruct (findIndex_first p1 items)
      as [[E1 H1] | (k & x & E1 & Hx & Hp & Hmin)]; rewrite E1.
    - cbn [Z.leb Z.compare].
      destruct (findIndex_first p2 items)
        as [[E2 H2] | (k & x & E2 & Hx & Hp & Hmin)]; rewrite E2.
      + left. split; [reflexivity|]. apply Forall_forall. intros item Hin.
        apply In_nth_error in Hin. destruct Hin as [k Hk].
        specialize (H2 k item Hk). unfold p2 in H2.
        apply negb_false_iff in H2. exact H2.
      + right. exists k, x. split; [reflexivity|]. split; [exact Hx|].
        unfold p2 in Hp. apply negb_true_iff in Hp. split; [exact Hp|].
        intros _ j y Hj Hy. specialize (Hmin j y Hj Hy). unfold p2 in Hmin.
        apply negb_false_iff in Hmin. exact Hmin.
    - destruct (Z.leb_spec 0 (Z.of_nat k)); [|lia].
      right. exists k, x. split; [reflexivity|]. split; [exact Hx|].
      unfold p1 in Hp. apply andb_true_iff in Hp. destruct Hp as [Hp _].
      apply negb_true_iff in Hp. split; [exact Hp|].
      intros Hr j y Hj Hy. specialize (Hmin j y Hj Hy). unfold p1 in Hmin.
      rewrite Hr, andb_true_r in Hmin. apply negb_false_iff in Hmin.
      exact Hmin. }
  clearbody actualStartIndex. clear p1 p2 startIndex.
  destruct Hchoice as [[-> Hall] | (k & item & -> & Hnth & Hlocal & Hfirst)].
  - cbn [Z.leb Z.compare]. unfold emit. eexists. split; [reflexivity|].
    right. split; [exact Hall|]. split; reflexivity.
  - destruct (Z.leb_spec 0 (Z.of_nat k)); [|lia].
    rewrite Nat2Z.id, Hnth.
    cbv beta iota delta [bind setActivePlaylist setPlaylistIndex
      setIsPlaylistMode setVideoId setVideoUrl setLocalVideoUrl
      setLocalVideoName setCurrentVideo setGeneralNotes setAnnotations
      setSidebarTab setState state clockReads events].
    eexists. split; [reflexivity|]. left. exists k, item.
    unfold startsOn. fold items. fold startRandom.
    split; [exact Hnth|]. split; [exact Hlocal|]. split; [exact Hfirst|].
    cbn. repeat (split; [reflexivity|]). destruct w; reflexivity.
Qed.


Lemma transmitted_handleSharePlaylist rt br data playlist url :
  In url (transmitted (handleSharePlaylist rt br data playlist)) ->
  url = playlistShareUrl rt br data playlist.
Proof.
  unfold handleSharePlaylist.
  destruct (Playlist.items playlist) as [|item items]; [intros []|].
  rewrite transmitted_app.
  intros H. apply in_app_or in H. destruct H as [H|H].
  - destruct (existsb _ _); destruct H.
  - destruct (8000 <? _)%Z; [destruct H|].
    destruct (clipboardAllowed br); cbn in H; [|destruct H].
    destruct H as [<- | []]. reflexivity.
Qed.

Lemma get_as_compactPlaylistData data playlist :
  get (compactPlaylistData data playlist) "as"
  = Return match AppData.ambientSounds data with
           | Some (sound :: sounds) =>
               VArr (map compactAmbientSound (sound :: sounds))
           | _ => VUndefined
           end.
Proof.
  unfold compactPlaylistData.
  destruct (truthy (Playlist.startRandom playlist));
    destruct (truthy (Playlist.randomTime playlist));
    destruct (AppData.ambientSounds data) as [[|sound sounds]|];
    reflexivity.
Qed.

Lemma ambient_compact br sounds : forall idx w,
  exists w' tracks,
    mapi_eff_from (fun sound idx =>
      now <- dateNow br ;;
      v <- lift (get sound "v") ;;
      t <- lift (get sound "t") ;;
      ret {| AmbientSound.id :=
               "ambient_" ++ string_of_Z now ++ "_" ++ string_of_nat idx;
             AmbientSound.videoId := v;
             AmbientSound.title := t |}) idx
      (map compactAmbientSound sounds) w = (w', Return tracks)
    /\ state w' = state w /\ events w' = events w
    /\ map track tracks = map track sounds.
Proof.
  set (f := fun (sound : value) (idx : nat) => _).
  induction sounds as [|sound sounds IH]; intros idx w;
    cbn [map mapi_eff_from].
  - eexists _, _. split; [reflexivity|]. repeat split.
  - unfold bind at 1.
    destruct (f (compactAmbientSound sound) idx w) as [w1 r] eqn:Hf.
    unfold f in Hf.
    cbv beta iota delta [bind dateNow lift ret compactAmbientSound get
                         lookup String.eqb Ascii.eqb Bool.eqb] in Hf.
    injection Hf as <- <-.
    unfold bind at 1.
    match goal with
    | |- context [mapi_eff_from f (S idx) _ ?w1] =>
        destruct (IH (S idx) w1) as (w' & tracks & -> & Hst & Hev & Hm)
    end.
    eexists _, _. split; [reflexivity|]. cbn in Hst, Hev |- *.
    split; [exact Hst|]. split; [exact Hev|]. rewrite Hm. reflexivity.
Qed.

Lemma nth_error_sharedItemsFrom items : forall idx k item',
  nth_error (sharedItemsFrom idx items) k = Some item' ->
  exists item,
    nth_error items k = Some item /\ item' = sharedItem (idx + k) item.
Proof.
  induction items as [|a items IH]; intros idx k item';
    [destruct k; discriminate|].
  destruct k as [|k]; cbn [sharedItemsFrom nth_error].
  - intros [= <-]. exists a. rewrite Nat.add_0_r. auto.
  - intros H. destruct (IH _ _ _ H) as (item & Hn & ->). exists item.
    split; [exact Hn|]. f_equal. lia.
Qed.

Lemma sharedItem_local idx item :
  truthy (PlaylistItem.isLocalFile (sharedItem idx item))
  = truthy (PlaylistItem.isLocalFile item).
Proof.
  unfold sharedItem. cbn.
  destruct (truthy (PlaylistItem.isLocalFile item)); reflexivity.
Qed.

Lemma loadAmbientSounds_compact rt br data playlist w :
  exists w',
    loadAmbientSounds rt br (compactPlaylistData data playlist) w
    = (w', Return tt)
    /\ sameScreen (state w) (state w') /\ events w' = events w
    /\ match AppData.ambientSounds data with
       | Some (sound :: sounds) =>
           exists tracks,
             AppData.ambientSounds (appData (state w')) = Some tracks
             /\ map track tracks = map track (sound :: sounds)
             /\ ambientVideoId (state w') = AmbientSound.videoId sound
             /\ ambientVideoTitle (state w') = AmbientSound.title sound
             /\ ambientPlaying (state w') = true
       | _ => state w' = state w
       end.
Proof.
  assert (Hrefl : forall st, sameScreen st st)
    by (intros st; repeat split).
  unfold loadAmbientSounds. unfold bind at 1. unfold lift at 1.
  rewrite get_as_compactPlaylistData.
  destruct (AppData.ambientSounds data) as [[|sound sounds]|];
    try (eexists; split; [reflexivity|]; split; [apply Hrefl|];
         split; reflexivity).
  cbn [truthy]. unfold bind at 1. unfold lift at 1.
  change (get (VArr (map compactAmbientSound (sound :: sounds))) "length")
    with (Return (of_nat (List.length
                            (map compactAmbientSound (sound :: sounds))))).
  cbv beta iota. rewrite gt_zero_of_nat. cbn [map List.length Nat.ltb Nat.leb].
  unfold bind at 1. unfold sharedAmbientSoundsOf, call_map_eff.
  destruct (ambient_compact br (sound :: sounds) 0 w)
    as (w1 & tracks & Hrun & Hst & Hev & Hm).
  cbn [map] in Hrun. rewrite Hrun.
  destruct tracks as [|firstAmbient tracks]; [discriminate|].
  destruct w1 as [st1 reads1 evs1]. cbn [state events] in Hst, Hev.
  subst st1 evs1.
  cbv beta iota delta [bind setAppData setAmbientVideoId setCurrentAmbientId
    setAmbientVideoTitle setAmbientPlaying setState state clockReads
    events].
  eexists. split; [reflexivity|]. cbn.
  split; [repeat split|]. split; [reflexivity|].
  exists (firstAmbient :: tracks). split; [reflexivity|].
  split; [exact Hm|]. cbn in Hm. injection Hm as Hv Ht _.
  repeat split; assumption.
Qed.

End PlaylistLinkFacts.


(** X13: a playlist link brings the playlist back. For the link that
    [handleSharePlaylist] puts on the clipboard, when [pako] and [JSON] are
    lossless on the compact playlist, [loadSharedPlaylist] returns without
    logging a failure. The playlist it builds has the name, the loop flag
    and the entries of the shared one, the entries renumbered and the
    local ones without address. When an entry is not a local file the
    playlist is started in playlist mode on such an entry, the first such
    entry unless the playlist starts at random, with the identifier and the
    address of that entry on screen; when all entries are local files
    nothing is started. The ambient sounds of the sender replace the ones
    of the library and the first one is played. *)
Theorem playlist_link_round_trip (rt : Runtime) (br : Browser)
  (data : AppData.t) (playlist : Playlist.t) (w : World) (url : string) :
  In url (transmitted (handleSharePlaylist rt br data playlist)) ->
  lossless rt (compactPlaylistData data playlist) ->
  exists payload w' sharedPlaylist,
    url = (origin br ++ pathname br ++ "?p=" ++ payload)%string
    /\ loadSharedPlaylist rt br payload w = (w', Return tt)
    /\ (exists alerts,
          events w' = events w ++ alerts ++ [HistoryReplaceState (pathname br)]
          /\ Forall (fun e => exists message, e = Alert message) alerts)
    /\ sharedPlaylist
       = {| Playlist.id :=
              "shared_" ++ string_of_Z (Date_now br (clockReads w));
            Playlist.name := Playlist.name playlist;
            Playlist.items := sharedItemsFrom 0 (Playlist.items playlist);
            Playlist.createdAt := Date_now br (S (clockReads w));
            Playlist.loop := Playlist.loop playlist;
            Playlist.startRandom :=
              sharedFlag (Playlist.startRandom playlist);
            Playlist.randomTime :=
              sharedFlag (Playlist.randomTime playlist) |}
    /\ ((exists k item,
           nth_error (Playlist.items playlist) k = Some item
           /\ truthy (PlaylistItem.isLocalFile item) = false
           /\ (truthy (Playlist.startRandom playlist) = false ->
               forall j y, (j < k)%nat ->
                           nth_error (Playlist.items playlist) j = Some y ->
                           truthy (PlaylistItem.isLocalFile y) = true)
           /\ activePlaylist (state w') = Some sharedPlaylist
           /\ playlistIndex (state w') = Z.of_nat k
           /\ isPlaylistMode (state w') = true
           /\ videoId (state w') = PlaylistItem.videoId item
           /\ videoUrl (state w') = PlaylistItem.url item
           /\ localVideoUrl (state w') = VNull
           /\ generalNotes (state w') = VStr ""
           /\ annotations (state w') = [])
        \/ (Forall (fun item => truthy (PlaylistItem.isLocalFile item) = true)
                   (Playlist.items playlist)
            /\ activePlaylist (state w') = activePlaylist (state w)
            /\ isPlaylistMode (state w') = isPlaylistMode (state w)
            /\ videoId (state w') = videoId (state w)))
    /\ match AppData.ambientSounds data with
       | Some (sound :: sounds) =>
           exists tracks,
             AppData.ambientSounds (appData (state w')) = Some tracks
             /\ map track tracks = map track (sound :: sounds)
             /\ ambientVideoId (state w') = AmbientSound.videoId sound
             /\ ambientPlaying (state w') = true
       | _ => appData (state w') = appData (state w)
       end.
Proof.
  intros Hurl Hlossless.
  apply PlaylistLinkFacts.transmitted_handleSharePlaylist in Hurl.
  subst url.
  exists (encodePayload rt (compactPlaylistData data playlist)).
  unfold loadSharedPlaylist, tryCatch. unfold bind at 1. unfold lift at 1.
  rewrite (decodePayload_encodePayload rt _ Hlossless).
  unfold applySharedPlaylist. unfold bind at 1.
  rewrite sharedPlaylistOf_compact.
  set (sharedPlaylist := {| Playlist.id := _ |}).
  set (w1 := {| state := state w |}).
  unfold bind at 1.
  destruct (PlaylistLinkFacts.loadAmbientSounds_compact rt br data playlist w1)
    as (w2 & -> & (Ha & Hi & Hm & Hv & _) & Hev2 & Hambient).
  unfold bind at 1.
  match goal with
  | |- context [(if ?c then emit ?a else ret tt) w2] =>
      assert (Halert : exists w3, (if c then emit a else ret tt) w2
                                  = (w3, Return tt)
                                  /\ state w3 = state w2
                                  /\ (events w3 = events w2
                                      \/ events w3 = events w2 ++ [a]))
        by (destruct c; eexists; split; try reflexivity; split;
            try reflexivity; [right | left]; reflexivity);
      destruct Halert as (w3 & -> & Hst3 & Hev3)
  end.
  unfold bind at 1.
  destruct (PlaylistLinkFacts.startSharedPlaylist_plays br sharedPlaylist w3)
    as (w4 & -> & Hstart).
  unfold emit. eexists _, sharedPlaylist.
  split; [reflexivity|]. split; [reflexivity|]. cbn [state events].
  assert (Hw1 : state w1 = state w /\ events w1 = events w)
    by (split; reflexivity).
  destruct Hw1 as [Hst1 Hev1]. rewrite Hst1 in *. rewrite Hev1 in *.
  clearbody w1.
  assert (Hitems : Playlist.items sharedPlaylist
                   = sharedItemsFrom 0 (Playlist.items playlist))
    by reflexivity.
  assert (Hrandom : truthy (Playlist.startRandom sharedPlaylist)
                    = truthy (Playlist.startRandom playlist)).
  { cbn. unfold sharedFlag.
    destruct (truthy (Playlist.startRandom playlist)); reflexivity. }
  destruct Hstart as [(k & item' & Hstart) | (Hall & Hst4 & Hev4)].
  - destruct Hstart as (Hn & Hl & Hfirst & H1 & H2 & H3 & H4 & H5 & H6 & _
                        & _ & H7 & H8 & H9 & H10 & H11 & Hev4).
    rewrite Hitems in Hn, Hfirst.
    destruct (PlaylistLinkFacts.nth_error_sharedItemsFrom _ _ _ _ Hn)
      as (item & Hitem & ->).
    rewrite PlaylistLinkFacts.sharedItem_local in Hl.
    split.
    { destruct Hev3 as [Hev3 | Hev3]; rewrite Hev4, Hev3, Hev2.
      - exists []. split; [reflexivity | constructor].
      - eexists [_]. split; [rewrite <- app_assoc; reflexivity|].
        repeat constructor. eexists. reflexivity. }
    split; [reflexivity|]. split.
    + left. exists k, item. split; [exact Hitem|]. split; [exact Hl|].
      split.
      { intros Hr j y Hj Hy. rewrite ?Hrandom in Hfirst.
        destruct (nth_error (sharedItemsFrom 0 (Playlist.items playlist)) j)
          as [y'|] eqn:Ey.
        - destruct (PlaylistLinkFacts.nth_error_sharedItemsFrom _ _ _ _ Ey)
            as (y0 & Hy0 & ->).
          rewrite Hy in Hy0. injection Hy0 as <-.
          rewrite <- (PlaylistLinkFacts.sharedItem_local (0 + j) y).
          apply (Hfirst Hr j _ Hj Ey).
        - exfalso. apply nth_error_None in Ey.
          assert (Hlen : forall l idx,
                    List.length (sharedItemsFrom idx l) = List.length l).
          { induction l as [|a l IHl]; intros idx; cbn;
              [reflexivity | rewrite IHl; reflexivity]. }
          rewrite Hlen in Ey. apply nth_error_None in Ey. congruence. }
      split; [exact H1|]. split; [exact H2|]. split; [exact H3|].
      split; [rewrite H4; reflexivity|].
      split.
      { rewrite H5. unfold sharedItem. cbn. rewrite Hl. reflexivity. }
      split; [exact H6|]. split; [exact H7|]. exact H8.
    + destruct (AppData.ambientSounds data) as [[|sound sounds]|];
        try (rewrite H9, Hst3, Hambient; reflexivity).
      destruct Hambient as (tracks & Ht & Hm' & Hav & _ & Hap).
      exists tracks. rewrite H9, H10, H11, Hst3. auto.
  - split.
    { destruct Hev3 as [Hev3 | Hev3]; rewrite Hev4, Hev3, Hev2.
      - eexists [_]. split; [rewrite <- app_assoc; reflexivity|].
        repeat constructor. eexists. reflexivity.
      - eexists [_; _]. split; [rewrite <- !app_assoc; reflexivity|].
        repeat constructor; eexists; reflexivity. }
    split; [reflexivity|]. split.
    + right. split.
      { rewrite Hitems in Hall. rewrite Forall_forall in *.
        intros item Hin. apply In_nth_error in Hin. destruct Hin as [k Hk].
        assert (Hex : exists item',
                  nth_error (sharedItemsFrom 0 (Playlist.items playlist)) k
                  = Some item').
        { destruct (nth_error (sharedItemsFrom 0 (Playlist.items playlist)) k)
            as [item'|] eqn:E; [eauto|].
          exfalso. apply nth_error_None in E.
          assert (Hlen : forall l idx,
                    List.length (sharedItemsFrom idx l) = List.length l).
          { induction l as [|a l IHl]; intros idx; cbn;
              [reflexivity | rewrite IHl; reflexivity]. }
          rewrite Hlen in E. apply nth_error_None in E. congruence. }
        destruct Hex as [item' Hitem'].
        destruct (PlaylistLinkFacts.nth_error_sharedItemsFrom _ _ _ _ Hitem')
          as (item0 & Hitem0 & ->).
        rewrite Hk in Hitem0. injection Hitem0 as <-.
        rewrite <- (PlaylistLinkFacts.sharedItem_local (0 + k) item).
        apply Hall. eapply nth_error_In. exact Hitem'. }
      rewrite Hst4, Hst3. auto.
    + rewrite Hst4, Hst3.
      destruct (AppData.ambientSounds data) as [[|sound sounds]|];
        try (rewrite Hambient; reflexivity).
      destruct Hambient as (tracks & Ht & Hm' & Hav & _ & Hap).
      exists tracks. auto.
Qed.

Lemma playlist_link_round_trip_witness :
  let rt := Demo.runtime (compactPlaylistData library mixedPlaylist) in
  let br := Demo.browser 1700000000000 in
  exists payload w',
    playlistShareUrl rt br library mixedPlaylist
    = (origin br ++ pathname br ++ "?p=" ++ payload)%string
    /\ loadSharedPlaylist rt br payload Demo.mountWorld = (w', Return tt)
    /\ playlistIndex (state w') = 0%Z
    /\ videoId (state w') = VStr "abc12345678".
Proof.
  intros rt br.
  destruct (playlist_link_round_trip rt br library mixedPlaylist
              Demo.mountWorld (playlistShareUrl rt br library mixedPlaylist))
    as (payload & w' & shared & H1 & H2 & _ & _ & H3 & _).
  - vm_compute. left. reflexivity.
  - split; reflexivity.
  - exists payload, w'. split; [exact H1|]. split; [exact H2|].
    destruct H3 as [(k & item & Hn & Hl & Hfirst & _ & Hi & _ & Hv & _)
                   | (Hall & _)].
    + destruct k as [|k].
      * injection Hn as <-. split; assumption.
      * exfalso. specialize (Hfirst eq_refl 0%nat streamClip (Nat.lt_0_succ k)
                               eq_refl). discriminate.
    + exfalso. inversion Hall as [|? ? Hs _]. discriminate.
Defined.

(* ================================================================== *)
(** * The characters and the length of a payload *)
(* ================================================================== *)

Module PayloadFacts.

Lemma symbol_url_safe (n : N) :
  (n < 64)%N -> isUrlSafe (Base64.to_url (Base64.symbol n)) = true.
Proof.
  intros H.
  assert (Hall : forallb (fun k => isUrlSafe
                                     (Base64.to_url
                                        (Base64.symbol (N.of_nat k))))
                         (seq 0 64) = true)
    by (vm_compute; reflexivity).
  rewrite forallb_forall in Hall.
  rewrite <- (N2Nat.id n). apply Hall. apply in_seq. lia.
Qed.

Lemma groups_length (l : list ascii) :
  List.length (Base64.groups l) = ((4 * List.length l + 2) / 3)%nat.
Proof.
  induction l as [| a | a b | a b c rest IH] using Base64Facts.triples_ind;
    try reflexivity.
  cbn [Base64.groups List.length]. rewrite IH.
  replace (4 * S (S (S (List.length rest))) + 2)%nat
    with ((4 * List.length rest + 2) + 4 * 3)%nat by lia.
  rewrite Nat.div_add by lia. lia.
Qed.

Lemma urlSafe_chars_encode (l : list ascii) :
  Base64.urlSafe_chars (Base64.encode l)
  = map Base64.to_url (map Base64.symbol (Base64.groups l)).
Proof.
  rewrite Base64Facts.urlSafe_chars_map, Base64Facts.encode_split, map_app.
  apply Base64Facts.strip_trailing_pad_app.
  - apply Forall_map. eapply Forall_impl; [|apply Base64Facts.body_facts].
    intros c Hc. apply (Base64Facts.alphabet_char c Hc).
  - apply Forall_map. eapply Forall_impl; [|apply Base64Facts.padding_is_pad].
    intros c Hc. unfold Base64.is_pad in *. apply Ascii.eqb_eq in Hc.
    subst c. reflexivity.
Qed.

End PayloadFacts.

(** X14: the payload of a share link is made of letters, digits, [-] and
    [_] only, so it stands in the query string as it is, and it has four
    characters for every three bytes of compressed data, rounded up. *)
Theorem payload_url_safe (rt : Runtime) (compact : value) :
  Forall (fun c => isUrlSafe c = true)
         (list_ascii_of_string (encodePayload rt compact))
  /\ String.length (encodePayload rt compact)
     = ((4 * List.length (pako_deflate rt (JSON_stringify rt compact)) + 2)
        / 3)%nat.
Proof.
  unfold encodePayload, Base64.toUrlSafe, Base64.btoa.
  rewrite !list_ascii_of_string_of_list_ascii.
  rewrite PayloadFacts.urlSafe_chars_encode.
  split.
  - apply Forall_map, Forall_map.
    eapply Forall_impl; [|apply Base64Facts.groups_bounded].
    intros n Hn. apply PayloadFacts.symbol_url_safe. exact Hn.
  - assert (Hlen : forall l, String.length (string_of_list_ascii l)
                             = List.length l).
    { induction l as [|c l IH]; cbn; [reflexivity | now rewrite IH]. }
    assert (Hbytes : forall bytes,
              List.length (list_ascii_of_string (string_of_list_byte bytes))
              = List.length bytes).
    { intros bytes. unfold string_of_list_byte.
      rewrite list_ascii_of_string_of_list_ascii. apply length_map. }
    rewrite Hlen, !length_map, PayloadFacts.groups_length, Hbytes.
    reflexivity.
Qed.

(* ================================================================== *)
(** * Properties of the playlist player *)
(* ================================================================== *)

Module PlayerFacts.






End PlayerFacts.







(** X18: removing an entry keeps the index inside the playlist.
    [removeVideoFromPlaylist] takes the entries of the given name out of
    the playlist in the library and, when it is the active playlist, out
    of the active copy; an index that pointed at an entry of the active
    playlist points at an entry afterwards, unless no entry is left. *)
Theorem removeVideoFromPlaylist_keeps_index (playlistId itemId : string)
  (w : World) :
  indexInRange (state w) ->
  exists w',
    removeVideoFromPlaylist playlistId itemId w = (w', Return tt)
    /\ indexInRange (state w')
    /\ AppData.playlists (appData (state w'))
       = map (fun p => if String.eqb (Playlist.id p) playlistId
                       then withPlaylistItems
                              (withoutItem itemId (Playlist.items p)) p
                       else p)
             (AppData.playlists (appData (state w)))
    /\ activePlaylist (state w')
       = option_map
           (fun active =>
              if String.eqb (Playlist.id active) playlistId
              then withPlaylistItems
                     (withoutItem itemId (Playlist.items active)) active
              else active)
           (activePlaylist (state w))
    /\ (playlistIndex (state w') <= playlistIndex (state w))%Z.
Proof.
  intros Hrange. destruct w as [st reads evs]. cbn [state] in *.
  unfold indexInRange in Hrange.
  unfold removeVideoFromPlaylist. unfold bind at 1. unfold getState at 1.
  cbn [state].
  destruct (activePlaylist st) as [active|] eqn:Hactive.
  2:{ cbv beta iota delta [bind ret setAppData setState state clockReads
                           events].
      eexists. split; [reflexivity|]. unfold indexInRange. cbn.
      rewrite Hactive. conjs; try reflexivity; try exact I; lia. }
  destruct (String.eqb (Playlist.id active) playlistId) eqn:Eid.
  2:{ cbv beta iota delta [bind ret setAppData setState state clockReads
                           events].
      eexists. split; [reflexivity|]. unfold indexInRange. cbn.
      rewrite Hactive. cbn. rewrite Eid.
      conjs; try reflexivity; try assumption; lia. }
  cbv beta iota delta [bind ret getState setAppData setState state
                       clockReads events].
  cbn [activePlaylist with_appData]. rewrite Hactive.
  set (newItems := withoutItem itemId (Playlist.items active)).
  destruct ((Z.of_nat (List.length newItems) <=? playlistIndex st)%Z
            && (0 <? List.length newItems)%nat) eqn:Eadjust.
  - apply andb_true_iff in Eadjust. destruct Eadjust as [Hge Hpos].
    apply Z.leb_le in Hge. apply Nat.ltb_lt in Hpos.
    cbv beta iota delta [bind ret setPlaylistIndex setActivePlaylist
                         setState state clockReads events].
    eexists. split; [reflexivity|]. unfold indexInRange. cbn.
    fold newItems. rewrite Eid.
    conjs; try reflexivity; try (right; lia); lia.
  - cbv beta iota delta [bind ret setPlaylistIndex setActivePlaylist
                         setState state clockReads events].
    eexists. split; [reflexivity|]. unfold indexInRange. cbn.
    fold newItems. rewrite Eid. conjs; try reflexivity; try lia.
    apply andb_false_iff in Eadjust.
    destruct newItems as [|i newItems'] eqn:Enew; [left; reflexivity|].
    right. destruct Eadjust as [Hlt|Hzero].
    + apply Z.leb_gt in Hlt.
      destruct Hrange as [Hempty|Hin]; [|lia].
      unfold newItems, withoutItem in Enew. rewrite Hempty in Enew.
      discriminate.
    + cbn in Hzero. discriminate.
Qed.

Lemma removeVideoFromPlaylist_keeps_index_witness :
  exists w',
    removeVideoFromPlaylist "1700000000002" "1700000000001" playingMixed
    = (w', Return tt)
    /\ indexInRange (state w').
Proof.
  destruct (removeVideoFromPlaylist_keeps_index "1700000000002"
              "1700000000001" playingMixed) as (w' & H1 & H2 & _).
  - right. cbn. lia.
  - exists w'. auto.
Defined.

(* ================================================================== *)
(** * Properties of the drop zone of a folder *)
(* ================================================================== *)

Module DragFacts.












End DragFacts.



(* ================================================================== *)
(** * What [parseTime] accepts, and the address of a loaded link *)
(* ================================================================== *)

Module ParseFacts.



End ParseFacts.



(** X21: the address that a video link leaves on screen leads back to the
    shared video. After a link for a streaming video is loaded whose
    identifier is a text without [&], [?], [#] and line feed that is not
    empty, the address on screen is one that [extractVideoId] reads as
    that identifier, which is also the identifier on screen. *)
Theorem shared_address_reads_back (rt : Runtime) (br : Browser)
  (compactData : value) (w w' : World) (id : string) :
  applySharedData rt br compactData w = (w', Return tt) ->
  truthy (field compactData "l") = false ->
  field compactData "v" = VStr id ->
  id <> EmptyString ->
  idChars id ->
  exists url,
    videoUrl (state w') = VStr url
    /\ extractVideoId url = Some id
    /\ videoId (state w') = VStr id.
Proof.
  unfold applySharedData, bind, lift, setGeneralNotes, setAnnotations,
    setState, emit, field.
  destruct (get compactData "g") as [g|]; [|discriminate].
  destruct (get compactData "a") as [a|]; [|discriminate].
  destruct (sharedAnnotations a) as [anns|]; [|discriminate].
  destruct (get compactData "l") as [l|]; [|discriminate].
  cbn [state clockReads events].
  intros H Hl. rewrite Hl in H. revert H.
  unfold setLocalVideoName, setVideoId, setVideoUrl, setLocalVideoUrl,
    setState.
  destruct (get compactData "v") as [v|]; [|discriminate].
  cbn [state clockReads events].
  intros H Hv Hne Hchars. injection H as <-. subst v.
  exists ("https://" ++ "youtube.com/watch?v=" ++ id)%string.
  split; [reflexivity|]. split; [|reflexivity].
  unfold extractVideoId.
  rewrite AddressFacts.matchFrom_skip by (repeat constructor; discriminate).
  rewrite <- (AddressFacts.append_empty id) at 1.
  rewrite (AddressFacts.matchFrom_host "youtube.com/watch?v=" id "");
    try assumption; try exact I; [|left; reflexivity].
  rewrite ?AddressFacts.append_empty. reflexivity.
Qed.

Lemma shared_address_reads_back_witness :
  let rt := Demo.runtime (compactShareData demoSession) in
  let br := Demo.browser 1700000000000 in
  let w' := fst (applySharedData rt br (compactShareData demoSession)
                   Demo.mountWorld) in
  exists url,
    videoUrl (state w') = VStr url
    /\ extractVideoId url = Some "abc12345678"
    /\ videoId (state w') = VStr "abc12345678".
Proof.
  intros rt br w'.
  apply (shared_address_reads_back rt br (compactShareData demoSession)
           Demo.mountWorld w' "abc12345678").
  - vm_compute. reflexivity.
  - reflexivity.
  - reflexivity.
  - discriminate.
  - repeat constructor.
Defined.
